(** * PyFRAP geometry kernel: a shallow embedding

    The development follows [pyfrp/modules/pyfrp_gmsh_geometry.py] (the
    [domain] canvas with its vertices, edges, line loops, ruled surfaces,
    surface loops and volumes) and [embryo.getFreeROIId] of
    [pyfrp/subclasses/pyfrp_embryo.py].

    Python objects are shared by reference and mutated in place: an edge
    sits both in [domain.edges] and in [domain.lines] or [domain.arcs], a
    line loop holds the edge objects themselves.  The embedding therefore
    keeps an object store (one total map from addresses to objects per
    class, with a single allocation counter) and lets every list hold
    addresses.  Python integers are [Z].  The operations that build the
    geometry are followed on integer coordinates, which numpy keeps in
    arrays of 64-bit integers; the normal of a surface is computed from
    them in numpy's 64-bit integer and float64 arithmetic, the latter
    being the binary64 floats of the kernel.  The writer of the geometry
    file is followed for numbers of every type.  The floating-point
    attributes of an arc (radius, angles) play no part in any statement
    and are left out. *)

From Stdlib Require Import ZArith Lia Ascii String.
From Stdlib Require PrimFloat Uint63.
From stdpp Require Import base list strings pretty functions.

Local Open Scope Z_scope.

(** ** Objects *)

Definition ref := nat.

(** A vertex holds the numbers it was given: [x] is [np.array(x)] and
    [volSize] a number or [None].  [N] is the type of these numbers.  The
    operations that build the geometry compute with integers, [N = Z]; the
    writer of the geometry file takes every kind of number, with its
    [str]. *)
Record vertex_of (N : Type) := Vertex {
  v_x : list N;
  v_Id : Z;
  v_volSize : option N
}.
Arguments Vertex {N} _ _ _.
Arguments v_x {N} _.
Arguments v_Id {N} _.
Arguments v_volSize {N} _.

Abbreviation vertex := (vertex_of Z).

(** [line] and [arc] both derive from [edge]; [typ] is 0 for a line and 1
    for an arc. *)
Inductive edge_kind :=
  | Line (v1 v2 : ref)
  | Arc (vstart vcenter vend : ref).

Record edge := Edge {
  e_Id : Z;
  e_kind : edge_kind
}.

(** [edges] holds the result of [getEdgeById(...)[0]] for each id: an edge
    object, or [False] ([None] here) when the lookup failed. *)
Record lineLoop := LineLoop {
  ll_Id : Z;
  ll_edges : list (option ref);
  ll_orientations : list Z
}.

(** [lineLoop] is what [getLineLoopById(...)[0]] returned: a line loop, or
    [False] ([None] here). *)
Record ruledSurface := RuledSurface {
  rs_Id : Z;
  rs_lineLoop : option ref
}.

Record surfaceLoop := SurfaceLoop {
  sl_Id : Z;
  sl_surfaces : list (option ref)
}.

Record volume := Volume {
  vol_Id : Z;
  vol_surfaceLoop : option ref
}.

(** ** Store, domain and program state *)

Record heap_of (N : Type) := Heap {
  h_vertex : ref -> vertex_of N;
  h_edge : ref -> edge;
  h_lineLoop : ref -> lineLoop;
  h_ruledSurface : ref -> ruledSurface;
  h_surfaceLoop : ref -> surfaceLoop;
  h_volume : ref -> volume;
  h_next : ref
}.
Arguments Heap {N} _ _ _ _ _ _ _.
Arguments h_vertex {N} _ _.
Arguments h_edge {N} _ _.
Arguments h_lineLoop {N} _ _.
Arguments h_ruledSurface {N} _ _.
Arguments h_surfaceLoop {N} _ _.
Arguments h_volume {N} _ _.
Arguments h_next {N} _.

Abbreviation heap := (heap_of Z).

Record domain := Domain {
  edges : list ref;
  vertices : list ref;
  arcs : list ref;
  lines : list ref;
  lineLoops : list ref;
  ruledSurfaces : list ref;
  surfaceLoops : list ref;
  volumes : list ref
}.

(** What [printWarning], [printError] and [print] send to the terminal
    (the colour escapes of [colorama] are not modelled). *)
Inductive msg :=
  | Warning (txt : string)
  | Error (txt : string)
  | Print (txt : string).

Record state_of (N : Type) := State {
  st_heap : heap_of N;
  st_dom : domain;
  st_out : list msg
}.
Arguments State {N} _ _ _.
Arguments st_heap {N} _.
Arguments st_dom {N} _.
Arguments st_out {N} _.

Abbreviation state := (state_of Z).

Definition empty_heap : heap :=
  Heap (fun _ => Vertex [] 0 None)
       (fun _ => Edge 0 (Line 0%nat 0%nat))
       (fun _ => LineLoop 0 [] [])
       (fun _ => RuledSurface 0 None)
       (fun _ => SurfaceLoop 0 [])
       (fun _ => Volume 0 None)
       0%nat.

(** [domain.__init__] *)
Definition new_domain : domain := Domain [] [] [] [] [] [] [] [].

Definition init_state : state := State empty_heap new_domain [].

(** ** Exceptions and the state monad

    A raised exception leaves the mutations made so far in place. *)

Inductive exn :=
  | AttributeError
  | IndexError
  | ValueError
  | TypeError
  | ZeroDivisionError
  | RecursionError.

Inductive result (A : Type) :=
  | Ok (a : A)
  | Raise (e : exn).
Arguments Ok {A} a.
Arguments Raise {A} e.

Definition M_of (N : Type) (A : Type) : Type :=
  state_of N -> result A * state_of N.

Abbreviation M := (M_of Z).

Definition ret {N A} (a : A) : M_of N A := fun st => (Ok a, st).

Definition raise {N A} (e : exn) : M_of N A := fun st => (Raise e, st).

Definition bind {N A B} (m : M_of N A) (k : A -> M_of N B) : M_of N B :=
  fun st =>
    match m st with
    | (Ok a, st') => k a st'
    | (Raise e, st') => (Raise e, st')
    end.

Notation "'do' x <- m ; k" := (bind m (fun x => k))
  (at level 100, x name, m at level 99, k at level 200).
Notation "'do' ' pat <- m ; k" :=
  (bind m (fun x => match x with pat => k end))
  (at level 100, pat pattern, m at level 99, k at level 200).
Notation "'run' m ; k" := (bind m (fun _ => k))
  (at level 100, m at level 99, k at level 200).

Definition get {N} : M_of N (state_of N) := fun st => (Ok st, st).

Definition modify (f : state -> state) : M unit := fun st => (Ok tt, f st).

Definition print_msg (m : msg) : M unit :=
  modify (fun st => State (st_heap st) (st_dom st) (st_out st ++ [m])).

Definition printWarning (txt : string) : M unit := print_msg (Warning txt).
Definition printError (txt : string) : M unit := print_msg (Error txt).

(** [for x in l: body x] *)
Fixpoint for_each {A} (l : list A) (body : A -> M unit) : M unit :=
  match l with
  | [] => ret tt
  | x :: l' => run body x; for_each l' body
  end.

(** [for x in l: out.append(body x)] *)
Fixpoint map_M {N A B} (l : list A) (body : A -> M_of N B) : M_of N (list B) :=
  match l with
  | [] => ret []
  | x :: l' => do y <- body x; do ys <- map_M l' body; ret (y :: ys)
  end.

(** [for x in l: acc = body acc x] *)
Fixpoint fold_M {N A B} (body : B -> A -> M_of N B) (acc : B) (l : list A)
  : M_of N B :=
  match l with
  | [] => ret acc
  | x :: l' => do acc' <- body acc x; fold_M body acc' l'
  end.

(** Attribute access on the result of a lookup: [False] and [None] have
    no attributes. *)
Definition attr {N A} (o : option A) : M_of N A :=
  match o with
  | Some a => ret a
  | None => raise AttributeError
  end.

(** [l[i]] for a non-negative index *)
Definition index {N A} (l : list A) (i : nat) : M_of N A :=
  match l !! i with
  | Some a => ret a
  | None => raise IndexError
  end.

(** [str] of a Python integer *)
Definition str (z : Z) : string := pretty z.

(** ** Attribute access through the store *)

Definition vertex_Id {N} (st : state_of N) (r : ref) : Z :=
  v_Id (h_vertex (st_heap st) r).
Definition edge_Id {N} (st : state_of N) (r : ref) : Z :=
  e_Id (h_edge (st_heap st) r).
Definition lineLoop_Id {N} (st : state_of N) (r : ref) : Z :=
  ll_Id (h_lineLoop (st_heap st) r).
Definition ruledSurface_Id {N} (st : state_of N) (r : ref) : Z :=
  rs_Id (h_ruledSurface (st_heap st) r).
Definition surfaceLoop_Id {N} (st : state_of N) (r : ref) : Z :=
  sl_Id (h_surfaceLoop (st_heap st) r).
Definition volume_Id {N} (st : state_of N) (r : ref) : Z :=
  vol_Id (h_volume (st_heap st) r).

(** [pyfrp_misc_module.objAttrToList(listOfObjects,'Id')] *)
Definition objAttrToList {A B} (attr : A -> B) (listOfObjects : list A) : list B :=
  attr <$> listOfObjects.

(** ** Identifier management *)

(** [domain.checkIdExists] *)
Definition checkIdExists (Id : Z) (IdOf : ref -> Z) (objList : list ref) : M bool :=
  let IdList := objAttrToList IdOf objList in
  if bool_decide (Id ∈ IdList) then
    run printWarning ("Object with Id " +:+ str Id +:+ " already exists.");
    ret true
  else ret false.

(** [max] of a non-empty list of integers *)
Definition py_max (x : Z) (l : list Z) : Z := foldl Z.max x l.

(** [domain.incrementID] *)
Definition incrementID (IdOf : ref -> Z) (objList : list ref) : Z :=
  match objAttrToList IdOf objList with
  | [] => 1
  | x :: IdList => py_max x IdList + 1
  end.

(** [domain.getNewId] *)
Definition getNewId (IdOf : ref -> Z) (objList : list ref) (Id : option Z) : M Z :=
  match Id with
  | None => ret (incrementID IdOf objList)
  | Some Id =>
      do b <- checkIdExists Id IdOf objList;
      if b then ret (incrementID IdOf objList) else ret Id
  end.

(** ** Lookup by identifier

    Each lookup returns the pair [(object, index)], or the tuple
    [(False, False)], which is [None] here. *)

Fixpoint find_Id (IdOf : ref -> Z) (ID : Z) (objs : list ref) (i : nat)
  : option (ref * nat) :=
  match objs with
  | [] => None
  | e :: objs' =>
      if bool_decide (IdOf e = ID) then Some (e, i)
      else find_Id IdOf ID objs' (S i)
  end.

Definition getEdgeById (st : state) (ID : Z) : option (ref * nat) :=
  find_Id (edge_Id st) ID (edges (st_dom st)) 0.
Definition getLineLoopById (st : state) (ID : Z) : option (ref * nat) :=
  find_Id (lineLoop_Id st) ID (lineLoops (st_dom st)) 0.
Definition getRuledSurfaceById (st : state) (ID : Z) : option (ref * nat) :=
  find_Id (ruledSurface_Id st) ID (ruledSurfaces (st_dom st)) 0.
Definition getSurfaceLoopById (st : state) (ID : Z) : option (ref * nat) :=
  find_Id (surfaceLoop_Id st) ID (surfaceLoops (st_dom st)) 0.
Definition getVolumeById (st : state) (ID : Z) : option (ref * nat) :=
  find_Id (volume_Id st) ID (volumes (st_dom st)) 0.
Definition getVertexById (st : state) (ID : Z) : option (ref * nat) :=
  find_Id (vertex_Id st) ID (vertices (st_dom st)) 0.

(** ** Store and domain updates *)

Definition set_heap (h : heap) (st : state) : state :=
  State h (st_dom st) (st_out st).
Definition set_dom (d : domain) (st : state) : state :=
  State (st_heap st) d (st_out st).

Definition put_vertex (r : ref) (v : vertex) (h : heap) : heap :=
  Heap (<[r:=v]> (h_vertex h)) (h_edge h) (h_lineLoop h) (h_ruledSurface h)
       (h_surfaceLoop h) (h_volume h) (h_next h).
Definition put_edge (r : ref) (e : edge) (h : heap) : heap :=
  Heap (h_vertex h) (<[r:=e]> (h_edge h)) (h_lineLoop h) (h_ruledSurface h)
       (h_surfaceLoop h) (h_volume h) (h_next h).
Definition put_lineLoop (r : ref) (l : lineLoop) (h : heap) : heap :=
  Heap (h_vertex h) (h_edge h) (<[r:=l]> (h_lineLoop h)) (h_ruledSurface h)
       (h_surfaceLoop h) (h_volume h) (h_next h).
Definition put_ruledSurface (r : ref) (s : ruledSurface) (h : heap) : heap :=
  Heap (h_vertex h) (h_edge h) (h_lineLoop h) (<[r:=s]> (h_ruledSurface h))
       (h_surfaceLoop h) (h_volume h) (h_next h).
Definition put_surfaceLoop (r : ref) (s : surfaceLoop) (h : heap) : heap :=
  Heap (h_vertex h) (h_edge h) (h_lineLoop h) (h_ruledSurface h)
       (<[r:=s]> (h_surfaceLoop h)) (h_volume h) (h_next h).
Definition put_volume (r : ref) (v : volume) (h : heap) : heap :=
  Heap (h_vertex h) (h_edge h) (h_lineLoop h) (h_ruledSurface h)
       (h_surfaceLoop h) (<[r:=v]> (h_volume h)) (h_next h).

(** The address of a newly created object. *)
Definition bump (h : heap) : heap :=
  Heap (h_vertex h) (h_edge h) (h_lineLoop h) (h_ruledSurface h)
       (h_surfaceLoop h) (h_volume h) (S (h_next h)).

Definition new_object (put : ref -> heap -> heap) : M ref :=
  fun st =>
    let r := h_next (st_heap st) in
    (Ok r, set_heap (bump (put r (st_heap st))) st).

Definition with_edges (l : list ref) (d : domain) : domain :=
  Domain l (vertices d) (arcs d) (lines d) (lineLoops d) (ruledSurfaces d)
         (surfaceLoops d) (volumes d).
Definition with_vertices (l : list ref) (d : domain) : domain :=
  Domain (edges d) l (arcs d) (lines d) (lineLoops d) (ruledSurfaces d)
         (surfaceLoops d) (volumes d).
Definition with_arcs (l : list ref) (d : domain) : domain :=
  Domain (edges d) (vertices d) l (lines d) (lineLoops d) (ruledSurfaces d)
         (surfaceLoops d) (volumes d).
Definition with_lines (l : list ref) (d : domain) : domain :=
  Domain (edges d) (vertices d) (arcs d) l (lineLoops d) (ruledSurfaces d)
         (surfaceLoops d) (volumes d).
Definition with_lineLoops (l : list ref) (d : domain) : domain :=
  Domain (edges d) (vertices d) (arcs d) (lines d) l (ruledSurfaces d)
         (surfaceLoops d) (volumes d).
Definition with_ruledSurfaces (l : list ref) (d : domain) : domain :=
  Domain (edges d) (vertices d) (arcs d) (lines d) (lineLoops d) l
         (surfaceLoops d) (volumes d).
Definition with_surfaceLoops (l : list ref) (d : domain) : domain :=
  Domain (edges d) (vertices d) (arcs d) (lines d) (lineLoops d)
         (ruledSurfaces d) l (volumes d).
Definition with_volumes (l : list ref) (d : domain) : domain :=
  Domain (edges d) (vertices d) (arcs d) (lines d) (lineLoops d)
         (ruledSurfaces d) (surfaceLoops d) l.

(** [self.<list>.append(r)] *)
Definition append_to (sel : domain -> list ref)
    (upd : list ref -> domain -> domain) (r : ref) : M unit :=
  modify (fun st => set_dom (upd (sel (st_dom st) ++ [r]) (st_dom st)) st).

(** ** Primitive constructors of the domain *)

(** [domain.addVertex] *)
Definition addVertex (x : list Z) (Id : option Z) (volSize : option Z) : M ref :=
  do st <- get;
  do newId <- getNewId (vertex_Id st) (vertices (st_dom st)) Id;
  do v <- new_object (fun r => put_vertex r (Vertex x newId volSize));
  run append_to vertices with_vertices v;
  ret v.

(** [domain.addLine] *)
Definition addLine (v1 v2 : ref) (Id : option Z) : M ref :=
  do st <- get;
  do newId <- getNewId (edge_Id st) (edges (st_dom st)) Id;
  do e <- new_object (fun r => put_edge r (Edge newId (Line v1 v2)));
  run append_to lines with_lines e;
  run append_to edges with_edges e;
  ret e.

(** [domain.addArc] *)
Definition addArc (vstart vcenter vend : ref) (Id : option Z) : M ref :=
  do st <- get;
  do newId <- getNewId (edge_Id st) (edges (st_dom st)) Id;
  do a <- new_object (fun r => put_edge r (Edge newId (Arc vstart vcenter vend)));
  run append_to arcs with_arcs a;
  run append_to edges with_edges a;
  ret a.

(** [lineLoop.addEdgeByID] *)
Definition addEdgeByID (st : state) (self : lineLoop) (ID : Z) : lineLoop :=
  LineLoop (ll_Id self)
           (ll_edges self ++ [fst <$> getEdgeById st (Z.abs ID)])
           (ll_orientations self ++ [Z.sgn ID]).

(** [lineLoop.initEdges] *)
Definition initEdges (st : state) (self : lineLoop) (IDs : list Z) : lineLoop :=
  foldl (addEdgeByID st) (LineLoop (ll_Id self) [] []) IDs.

(** [domain.addLineLoop], with [lineLoop.__init__] *)
Definition addLineLoop (Id : option Z) (edgeIDs : list Z) : M ref :=
  do st <- get;
  do newId <- getNewId (lineLoop_Id st) (lineLoops (st_dom st)) Id;
  do st <- get;
  do l <- new_object (fun r => put_lineLoop r (initEdges st (LineLoop newId [] []) edgeIDs));
  run append_to lineLoops with_lineLoops l;
  ret l.

(** [surfaceLoop.initSurfaces] with [addSurfaceByID] *)
Definition initSurfaces (st : state) (IDs : list Z) : list (option ref) :=
  foldl (fun surfaces ID => surfaces ++ [fst <$> getRuledSurfaceById st ID]) [] IDs.

(** [domain.addSurfaceLoop], with [surfaceLoop.__init__] *)
Definition addSurfaceLoop (Id : option Z) (surfaceIDs : list Z) : M ref :=
  do st <- get;
  do newId <- getNewId (surfaceLoop_Id st) (surfaceLoops (st_dom st)) Id;
  do st <- get;
  do l <- new_object (fun r => put_surfaceLoop r (SurfaceLoop newId (initSurfaces st surfaceIDs)));
  run append_to surfaceLoops with_surfaceLoops l;
  ret l.

(** [domain.addVolume], with [volume.__init__] *)
Definition addVolume (Id : option Z) (surfaceLoopID : Z) : M ref :=
  do st <- get;
  do newId <- getNewId (volume_Id st) (volumes (st_dom st)) Id;
  do st <- get;
  do l <- new_object (fun r => put_volume r (Volume newId (fst <$> getSurfaceLoopById st surfaceLoopID)));
  run append_to volumes with_volumes l;
  ret l.

(** ** Edges *)

Definition nl : string := String (Ascii.ascii_of_nat 10) EmptyString.

(** [line.getFirstVertex] and [arc.getFirstVertex] *)
Definition getFirstVertex (self : ref) (orientation : Z) : M (option ref) :=
  do st <- get;
  match e_kind (h_edge (st_heap st) self) with
  | Line v1 v2 =>
      if orientation =? 1 then ret (Some v1)
      else if orientation =? -1 then ret (Some v2)
      else
        run printError ("Cannot return first vertex. Orientation "
                        +:+ str orientation +:+ " unknown.");
        ret None
  | Arc vstart vcenter vend =>
      if orientation =? -1 then ret (Some vend)
      else if orientation =? 1 then ret (Some vstart)
      else
        run printError ("Cannot return first vertex. Orientation "
                        +:+ str orientation +:+ " unknown.");
        ret None
  end.

(** [line.getLastVertex] and [arc.getLastVertex] *)
Definition getLastVertex (self : ref) (orientation : Z) : M (option ref) :=
  do st <- get;
  match e_kind (h_edge (st_heap st) self) with
  | Line v1 v2 =>
      if orientation =? 1 then ret (Some v2)
      else if orientation =? -1 then ret (Some v1)
      else
        run printError ("Cannot return last vertex. Orientation "
                        +:+ str orientation +:+ " unknown.");
        ret None
  | Arc vstart vcenter vend =>
      if orientation =? 1 then ret (Some vend)
      else if orientation =? -1 then ret (Some vstart)
      else
        run printError ("Cannot return last vertex. Orientation "
                        +:+ str orientation +:+ " unknown.");
        ret None
  end.

(** The two end vertices of an edge, [[e.getFirstVertex(1),e.getLastVertex(1)]] *)
Definition end_vertices (e : edge) : list ref :=
  match e_kind e with
  | Line v1 v2 => [v1; v2]
  | Arc vstart vcenter vend => [vstart; vend]
  end.

(** [domain.getEdgeByVertices] *)
Fixpoint find_edge (h : heap) (v1 v2 : ref) (es : list ref) (i : nat)
  : option (ref * nat) :=
  match es with
  | [] => None
  | e :: es' =>
      let vertices := end_vertices (h_edge h e) in
      if bool_decide (v1 ∈ vertices) && bool_decide (v2 ∈ vertices)
      then Some (e, i)
      else find_edge h v1 v2 es' (S i)
  end.

Definition getEdgeByVertices (st : state) (v1 v2 : ref) : option (ref * nat) :=
  find_edge (st_heap st) v1 v2 (edges (st_dom st)) 0.

(** ** Line loops *)

(** [pyfrp_misc_module.modIdx(i,lst)].  The module [pyfrp_misc_module]
    defines no [modIdx] and imports none: looking the name up in the module
    raises, before the arguments of the call are evaluated. *)
Definition modIdx {A} (i : nat) (lst : list A) : M nat := raise AttributeError.

(** [lst.index(x)] *)
Definition list_index {A} `{EqDecision A} (x : A) (lst : list A) : M nat :=
  match list_find (fun y => y = x) lst with
  | Some (i, _) => ret i
  | None => raise ValueError
  end.

(** [lst.remove(x)] *)
Definition list_remove {A} `{EqDecision A} (x : A) (lst : list A) : result (list A) :=
  match list_find (fun y => y = x) lst with
  | Some (i, _) => Ok (delete i lst)
  | None => Raise ValueError
  end.

(** [lst.remove(x)] where [x] is the result of a lookup; no list entry
    equals [False]. *)
Definition list_remove_opt (x : option ref) (lst : list ref) : result (list ref) :=
  match x with
  | Some r => list_remove r lst
  | None => Raise ValueError
  end.

Definition set_orientations (self : ref) (os : list Z) : M unit :=
  modify (fun st =>
    let l := h_lineLoop (st_heap st) self in
    set_heap (put_lineLoop self (LineLoop (ll_Id l) (ll_edges l) os) (st_heap st)) st).

(** [lineLoop.reverseEdge] *)
Definition reverseEdge (self : ref) (ID : Z) : M (list Z) :=
  do st <- get;
  let l := h_lineLoop (st_heap st) self in
  let e := fst <$> getEdgeById st (Z.abs ID) in
  do idx <- list_index e (ll_edges l);
  do o <- index (ll_orientations l) idx;
  run set_orientations self (<[idx := - o]> (ll_orientations l));
  ret (<[idx := - o]> (ll_orientations l)).

(** One round of the loop of [lineLoop.checkClosed]; [b] is the flag so
    far. *)
Definition checkClosed_body (self : ref) (fix_ debug : bool) (b : bool) (i : nat)
  : M bool :=
  do st <- get;
  let l := h_lineLoop (st_heap st) self in
  do edge1Temp <- index (ll_edges l) i;
  do orient1 <- index (ll_orientations l) i;
  do j <- modIdx (i + 1) (ll_edges l);
  do edge2Temp <- index (ll_edges l) j;
  do j <- modIdx (i + 1) (ll_edges l);
  do orient2 <- index (ll_orientations l) j;
  do e1 <- attr edge1Temp;
  do fv <- getFirstVertex e1 orient1;
  do fv <- attr fv;
  let firstVertexId := vertex_Id st fv in
  do e2 <- attr edge2Temp;
  do lv <- getLastVertex e2 orient2;
  do lv <- attr lv;
  let lastVertexId := vertex_Id st lv in
  if bool_decide (firstVertexId ≠ lastVertexId) then
    do b' <-
      (if fix_ then
         run reverseEdge self (edge_Id st e2);
         run (if debug then
                print_msg (Print ("Edge with ID " +:+ str (edge_Id st e1)
                  +:+ " was not matching edge with ID " +:+ str (edge_Id st e2)
                  +:+ ". " +:+ nl +:+ " Fixed this."))
              else ret tt);
         ret true
       else ret false);
    run (if debug then
           run printWarning ("lineLoop with ID " +:+ str (ll_Id l)
                             +:+ " does not close.");
           print_msg (Print ("Edge with ID " +:+ str (edge_Id st e1)
             +:+ " is not matching edge with ID " +:+ str (edge_Id st e2)))
         else ret tt);
    ret b'
  else ret b.

(** [lineLoop.checkClosed] *)
Definition checkClosed (self : ref) (fix_ debug : bool) : M bool :=
  do st <- get;
  fold_M (checkClosed_body self fix_ debug) true
         (seq 0 (length (ll_edges (h_lineLoop (st_heap st) self)))).

(** [lineLoop.getVertices] *)
Definition getVertices (self : ref) : M (list (option ref)) :=
  do st <- get;
  let l := h_lineLoop (st_heap st) self in
  map_M (seq 0 (length (ll_edges l))) (fun i =>
    do edge <- index (ll_edges l) i;
    do e <- attr edge;
    do o <- index (ll_orientations l) i;
    getFirstVertex e o).

(** ** Ruled surfaces *)

(** [v.x[0]], [v.x[1]] and [v.x[2]] *)
Definition xyz {N} (x : list N) : M_of N (N * N * N) :=
  do x0 <- index x 0;
  do x1 <- index x 1;
  do x2 <- index x 2;
  ret (x0, x1, x2).

(** The arithmetic of numpy on the entries of an array of 64-bit integers
    wraps around. *)
Definition int64 (z : Z) : Z := (z + 2 ^ 63) mod 2 ^ 64 - 2 ^ 63.

(** The float64 nearest to a 64-bit integer: what numpy adds when a
    64-bit integer meets a float. *)
Definition float64 (z : Z) : PrimFloat.float :=
  if z <? 0 then
    if z =? - 2 ^ 63 then
      PrimFloat.opp (PrimFloat.mul (PrimFloat.of_uint63 (Uint63.of_Z (2 ^ 62)))
                                   PrimFloat.two)
    else PrimFloat.opp (PrimFloat.of_uint63 (Uint63.of_Z (- z)))
  else PrimFloat.of_uint63 (Uint63.of_Z z).

(** One term of a sum of [getNormal]: the product [(a - b) * (c + d)] or
    [(a - b) * (c - d)] of two 64-bit integers, added to the float [n]. *)
Definition add_product (n : PrimFloat.float) (p q : Z) : PrimFloat.float :=
  PrimFloat.add n (float64 (int64 (int64 p * int64 q))).

(** [ruledSurface.getNormal].  The three sums start as the Python floats
    [0.0]; on an empty vertex list they stay so and the division by
    [sum(n)] raises.  Otherwise they are numpy floats, whose division by
    zero gives [nan] or an infinity. *)
Definition getNormal (self : ref) : M (list PrimFloat.float) :=
  do st <- get;
  do l <- attr (rs_lineLoop (h_ruledSurface (st_heap st) self));
  do vertices <- getVertices l;
  do n <- fold_M (fun n i =>
      do v <- index vertices i;
      do v2 <- index vertices ((i + 1) mod length vertices)%nat;
      do v <- attr v;
      do x1 <- index (v_x (h_vertex (st_heap st) v)) 1;
      do v2 <- attr v2;
      do y1 <- index (v_x (h_vertex (st_heap st) v2)) 1;
      do x2 <- index (v_x (h_vertex (st_heap st) v)) 2;
      do y2 <- index (v_x (h_vertex (st_heap st) v2)) 2;
      do x0 <- index (v_x (h_vertex (st_heap st) v)) 0;
      do y0 <- index (v_x (h_vertex (st_heap st) v2)) 0;
      match n with
      | (n0, n1, n2) =>
          ret (add_product n0 (x1 - y1) (x2 + y2),
               add_product n1 (x2 - y2) (x0 - y0),
               add_product n2 (x0 - y0) (x1 - y1))
      end) (PrimFloat.zero, PrimFloat.zero, PrimFloat.zero)
      (seq 0 (length vertices));
  match vertices, n with
  | [], _ => raise ZeroDivisionError
  | _, (n0, n1, n2) =>
      let s := PrimFloat.add (PrimFloat.add (PrimFloat.add (float64 0) n0) n1) n2 in
      ret [PrimFloat.div n0 s; PrimFloat.div n1 s; PrimFloat.div n2 s]
  end.

(** [ruledSurface.normalToPlane]: [1. in self.normal] *)
Definition normalToPlane (n : list PrimFloat.float) : bool :=
  existsb (fun x => PrimFloat.eqb x PrimFloat.one) n.

(** [np.asarray(coords)[:,np.where(self.normal!=1)[0]]]; rows of unequal
    length do not form a two-dimensional array. *)
Definition coords_in_plane (n : list PrimFloat.float) (coords : list (list Z))
  : M (list (list Z)) :=
  let cols := filter (fun k =>
      PrimFloat.eqb (default PrimFloat.zero (n !! k)) PrimFloat.one = false)
      (seq 0 (length n)) in
  match coords with
  | [] => raise IndexError
  | row :: _ =>
      if forallb (fun r => (length r =? length row)%nat) coords
      then map_M coords (fun r => map_M cols (fun k => index r k))
      else raise IndexError
  end.

Definition set_lineLoop (self : ref) (l : option ref) : M unit :=
  modify (fun st =>
    let s := h_ruledSurface (st_heap st) self in
    set_heap (put_ruledSurface self (RuledSurface (rs_Id s) l) (st_heap st)) st).

Section Triangulation.

(** [pyfrp_idx_module.triangulatePoly] is not among the sources at hand:
    it is a parameter, taking the coordinates in the plane to a list of
    triangles, each one three indices into the vertex list. *)
Variable triangulatePoly : list (list Z) -> list (nat * nat * nat).

(** The recursive call of [initLineLoop] to [domain.addRuledSurface] *)
Variable addRuledSurface_rec : option Z -> Z -> M ref.

(** One round of the outer loop of [initLineLoop], for triangle [i] *)
Definition triangle_body (self : ref) (vertices : list ref)
    (it : nat * (nat * nat * nat)) : M unit :=
  match it with
  | (i, (a, b, c)) =>
      let tri_i := [a; b; c] in
      do edges <- map_M (seq 0 (length tri_i)) (fun j =>
          do k1 <- index tri_i j;
          do v1 <- index vertices k1;
          do j' <- modIdx (j + 1) tri_i;
          do k2 <- index tri_i j';
          do v2 <- index vertices k2;
          do st <- get;
          match getEdgeByVertices st v1 v2 with
          | None => addLine v1 v2 None
          | Some (e, _) => ret e
          end);
      do st <- get;
      let edgeIDs := objAttrToList (edge_Id st) edges in
      do loop <- addLineLoop None edgeIDs;
      run checkClosed loop true true;
      do st <- get;
      if (i =? 0)%nat then set_lineLoop self (Some loop)
      else
        run addRuledSurface_rec
              (Some (ruledSurface_Id st self + Z.of_nat i))
              (lineLoop_Id st loop);
        ret tt
  end.

(** [ruledSurface.initLineLoop] *)
Definition initLineLoop (self : ref) (loopID : Z) : M bool :=
  do st <- get;
  run set_lineLoop self (fst <$> getLineLoopById st loopID);
  do l <- attr (fst <$> getLineLoopById st loopID);
  if (length (ll_edges (h_lineLoop (st_heap st) l)) <=? 4)%nat then ret false
  else
    do vertices <- getVertices l;
    do vertices <- map_M vertices (fun v =>
        match v with Some v => ret v | None => raise TypeError end);
    do st <- get;
    let coords := (fun v => v_x (h_vertex (st_heap st) v)) <$> vertices in
    do n <- getNormal self;
    if negb (normalToPlane n) then
      do st <- get;
      run printError ("ruledSurface with ID" +:+ str (ruledSurface_Id st self)
        +:+ "is not normal to a plane and has more than 4 edges. PyFRAP is not able to triangulate surface down to smaller pieces.");
      ret false
    else
      do coordsPlane <- coords_in_plane n coords;
      let tri := triangulatePoly coordsPlane in
      run for_each (zip (seq 0 (length tri)) tri) (triangle_body self vertices);
      do st <- get;
      match list_remove_opt (fst <$> getLineLoopById st loopID) (lineLoops (st_dom st)) with
      | Ok ls =>
          run modify (fun st => set_dom (with_lineLoops ls (st_dom st)) st);
          ret true
      | Raise e => raise e
      end.

(** [ruledSurface.__init__] *)
Definition ruledSurface_init (loopID : Z) (ID : Z) : M ref :=
  do self <- new_object (fun r => put_ruledSurface r (RuledSurface ID None));
  run initLineLoop self loopID;
  ret self.

(** The body of [domain.addRuledSurface] *)
Definition addRuledSurface_body (Id : option Z) (lineLoopID : Z) : M ref :=
  do st <- get;
  do newId <- getNewId (ruledSurface_Id st) (ruledSurfaces (st_dom st)) Id;
  do l <- ruledSurface_init lineLoopID newId;
  run append_to ruledSurfaces with_ruledSurfaces l;
  ret l.

End Triangulation.

(** ** Composite constructors *)

Definition lowercase : string := "abcdefghijklmnopqrstuvwxyz".

(** [string.lowercase.index(s)] *)
Definition lowercase_index (s : string) : M nat :=
  match String.index 0 s lowercase with
  | Some i => ret i
  | None => raise ValueError
  end.

(** [np.roll(x,k)] for a non-negative shift *)
Definition np_roll {A} (x : list A) (k : nat) : list A :=
  rotate (length x - k mod length x) x.

(** [flipCoordinate] *)
Definition flipCoordinate (x : list Z) (destAxis origAxis : string) : M (list Z) :=
  do d <- lowercase_index destAxis;
  do o <- lowercase_index origAxis;
  let axisDiff := Z.abs_nat (Z.of_nat d - Z.of_nat o) in
  ret (np_roll x axisDiff).

(** [domain.addCircleByParameters] *)
Definition addCircleByParameters (center : list Z) (radius z : Z)
    (volSize : option Z) (plane : string) : M (list ref * list ref) :=
  do c0 <- index center 0;
  do c1 <- index center 1;
  do xcenter <- flipCoordinate [c0; c1; z] plane "z";
  do x1 <- flipCoordinate [c0 + radius; c1; z] plane "z";
  do x2 <- flipCoordinate [c0; c1 + radius; z] plane "z";
  do x3 <- flipCoordinate [c0 - radius; c1; z] plane "z";
  do x4 <- flipCoordinate [c0; c1 - radius; z] plane "z";
  do vcenter <- addVertex xcenter None volSize;
  do v1 <- addVertex x1 None volSize;
  do v2 <- addVertex x2 None volSize;
  do v3 <- addVertex x3 None volSize;
  do v4 <- addVertex x4 None volSize;
  do a1 <- addArc v1 vcenter v2 None;
  do a2 <- addArc v2 vcenter v3 None;
  do a3 <- addArc v3 vcenter v4 None;
  do a4 <- addArc v4 vcenter v1 None;
  ret ([vcenter; v1; v2; v3; v4], [a1; a2; a3; a4]).

(** [domain.addPolygonByParameters] *)
Definition addPolygonByParameters (coords : list (list Z)) (volSize : option Z)
    (z : Z) (plane : string) : M (list ref * list ref) :=
  do xs <- map_M coords (fun c =>
      do c0 <- index c 0;
      do c1 <- index c 1;
      if (length c =? 3)%nat then
        do c2 <- index c 2;
        flipCoordinate [c0; c1; c2] plane "z"
      else flipCoordinate [c0; c1; z] plane "z");
  do vertices <- map_M xs (fun x => addVertex x None volSize);
  do lines <- map_M (seq 0 (length vertices)) (fun i =>
      do v1 <- index vertices i;
      do j <- modIdx (i + 1) vertices;
      do v2 <- index vertices j;
      addLine v1 v2 None);
  ret (vertices, lines).

(** The value returned by [addPrismByParameters] and
    [addCylinderByParameters] when they build a solid. *)
Record solid := Solid {
  so_vertices : list (list ref);
  so_arcs : list (list ref);
  so_lines : list (list ref);
  so_loops : list ref;
  so_surfaces : list ref;
  so_surfaceLoop : option ref;
  so_vol : option ref
}.

Section Domain.

Variable triangulatePoly : list (list Z) -> list (nat * nat * nat).

(** [domain.addRuledSurface]; [depth] bounds the nesting of the calls that
    [initLineLoop] makes back into it. *)
Fixpoint addRuledSurface_depth (depth : nat) (Id : option Z) (lineLoopID : Z)
  : M ref :=
  match depth with
  | O => raise RecursionError
  | S depth' =>
      addRuledSurface_body triangulatePoly (addRuledSurface_depth depth')
                           Id lineLoopID
  end.

(** [initLineLoop] never comes to its nested call: the first round of its
    loop over the triangles ends at [modIdx].  The bound is never met. *)
Definition addRuledSurface : option Z -> Z -> M ref := addRuledSurface_depth 2.

(** [domain.addPrismByParameters]; the result is [None] when the source
    returns without a value. *)
Definition addPrismByParameters (coords : list (list Z)) (volSize : option Z)
    (height z : Z) (plane : string) (genLoops genSurfaces genVol : bool)
  : M (option solid) :=
  do c0 <- index coords 0;
  do polys <-
    (if (length c0 =? 3)%nat then
       if negb (length coords mod 2 =? 0)%nat then
         run printError "addPrismByParameters: You gave a list of 3-dimensional vertex coordinates. However,the number of coordinates is odd, will not be able to continue.";
         ret None
       else
         do ' (vertices, lines) <- addPolygonByParameters coords volSize 0 "z";
         ret (Some (take (length vertices / 2) vertices,
                    drop (length vertices / 2) vertices,
                    take (length lines / 2) lines,
                    drop (length lines / 2) lines))
     else
       do ' (vertices1, lines1) <- addPolygonByParameters coords volSize z "z";
       do ' (vertices2, lines2) <-
            addPolygonByParameters coords volSize (z + height) "z";
       ret (Some (vertices1, vertices2, lines1, lines2)));
  match polys with
  | None => ret None
  | Some (vertices1, vertices2, lines1, lines2) =>
      do lines3 <- map_M (seq 0 (length vertices1)) (fun i =>
          do v1 <- index vertices1 i;
          do v2 <- index vertices2 i;
          addLine v1 v2 None);
      do loops <-
        (if genLoops then
           do st <- get;
           do l1 <- addLineLoop None (objAttrToList (edge_Id st) lines1);
           do st <- get;
           do l2 <- addLineLoop None (objAttrToList (edge_Id st) lines2);
           do sides <- map_M (seq 0 (length lines1)) (fun i =>
               do st <- get;
               do e1 <- index lines1 i;
               do e3 <- index lines3 i;
               do e2 <- index lines2 i;
               do j <- modIdx (i + 1) lines1;
               do e3' <- index lines3 j;
               addLineLoop None [- edge_Id st e1; edge_Id st e3;
                                 edge_Id st e2; - edge_Id st e3']);
           ret (l1 :: l2 :: sides)
         else ret []);
      do surfaces <-
        (if genSurfaces then
           map_M loops (fun loop =>
             do st <- get;
             addRuledSurface None (lineLoop_Id st loop))
         else ret []);
      do ' (surfaceLoop, vol) <-
        (if genVol then
           do st <- get;
           do surfaceLoop <- addSurfaceLoop None
               (objAttrToList (ruledSurface_Id st) (ruledSurfaces (st_dom st)));
           do st <- get;
           do vol <- addVolume None (surfaceLoop_Id st surfaceLoop);
           ret (Some surfaceLoop, Some vol)
         else ret (None, None));
      ret (Some (Solid [vertices1; vertices2] [] [lines1; lines2; lines3]
                       loops surfaces surfaceLoop vol))
  end.

(** [domain.addCylinderByParameters] *)
Definition addCylinderByParameters (center : list Z) (radius z height : Z)
    (volSize : option Z) (plane : string) (genLoops genSurfaces genVol : bool)
  : M solid :=
  run (if genVol && negb genSurfaces
       then printError "Cannot create volume when there are no surfaces."
       else ret tt);
  run (if genSurfaces && negb genLoops
       then printError "Cannot create surfaces when there are no loops."
       else ret tt);
  do ' (vertices1, arcs1) <- addCircleByParameters center radius z volSize plane;
  do ' (vertices2, arcs2) <-
       addCircleByParameters center radius (z + height) volSize plane;
  do lines <- map_M [1; 2; 3; 4]%nat (fun i =>
      do v1 <- index vertices1 i;
      do v2 <- index vertices2 i;
      addLine v1 v2 None);
  do loops <-
    (if genLoops then
       do st <- get;
       do l1 <- addLineLoop None (objAttrToList (edge_Id st) arcs1);
       do st <- get;
       do l2 <- addLineLoop None (objAttrToList (edge_Id st) arcs2);
       do sides <- map_M [0; 1; 2; 3]%nat (fun i =>
           do st <- get;
           do li <- index lines i;
           do a1 <- index arcs1 i;
           do lj <- index lines ((i + 1) mod 4)%nat;
           do a2 <- index arcs2 i;
           addLineLoop None [- edge_Id st li; edge_Id st a1;
                             edge_Id st lj; - edge_Id st a2]);
       ret (l1 :: l2 :: sides)
     else ret []);
  do surfaces <-
    (if genSurfaces then
       map_M loops (fun loop =>
         do st <- get;
         addRuledSurface None (lineLoop_Id st loop))
     else ret []);
  do st <- get;
  let surfaceIds := objAttrToList (ruledSurface_Id st) surfaces in
  do ' (surfaceLoop, vol) <-
    (if genVol then
       do surfaceLoop <- addSurfaceLoop None surfaceIds;
       do st <- get;
       do vol <- addVolume None (surfaceLoop_Id st surfaceLoop);
       ret (Some surfaceLoop, Some vol)
     else ret (None, None));
  ret (Solid [vertices1; vertices2] [arcs1; arcs2] [lines] loops surfaces
             surfaceLoop vol).

(** ** Sequences of add operations *)

Inductive op :=
  | AddVertex (x : list Z) (Id : option Z) (volSize : option Z)
  | AddLine (v1 v2 : ref) (Id : option Z)
  | AddArc (vstart vcenter vend : ref) (Id : option Z)
  | AddLineLoop (Id : option Z) (edgeIDs : list Z)
  | AddRuledSurface (Id : option Z) (lineLoopID : Z)
  | AddSurfaceLoop (Id : option Z) (surfaceIDs : list Z)
  | AddVolume (Id : option Z) (surfaceLoopID : Z)
  | AddCircleByParameters (center : list Z) (radius z : Z)
      (volSize : option Z) (plane : string)
  | AddPolygonByParameters (coords : list (list Z)) (volSize : option Z)
      (z : Z) (plane : string)
  | AddPrismByParameters (coords : list (list Z)) (volSize : option Z)
      (height z : Z) (plane : string) (genLoops genSurfaces genVol : bool)
  | AddCylinderByParameters (center : list Z) (radius z height : Z)
      (volSize : option Z) (plane : string) (genLoops genSurfaces genVol : bool).

(** The state after a call, whether it returned or raised. *)
Definition exec (o : op) (st : state) : state :=
  match o with
  | AddVertex x Id volSize => snd (addVertex x Id volSize st)
  | AddLine v1 v2 Id => snd (addLine v1 v2 Id st)
  | AddArc vstart vcenter vend Id => snd (addArc vstart vcenter vend Id st)
  | AddLineLoop Id edgeIDs => snd (addLineLoop Id edgeIDs st)
  | AddRuledSurface Id lineLoopID => snd (addRuledSurface Id lineLoopID st)
  | AddSurfaceLoop Id surfaceIDs => snd (addSurfaceLoop Id surfaceIDs st)
  | AddVolume Id surfaceLoopID => snd (addVolume Id surfaceLoopID st)
  | AddCircleByParameters center radius z volSize plane =>
      snd (addCircleByParameters center radius z volSize plane st)
  | AddPolygonByParameters coords volSize z plane =>
      snd (addPolygonByParameters coords volSize z plane st)
  | AddPrismByParameters coords volSize height z plane gl gs gv =>
      snd (addPrismByParameters coords volSize height z plane gl gs gv st)
  | AddCylinderByParameters center radius z height volSize plane gl gs gv =>
      snd (addCylinderByParameters center radius z height volSize plane gl gs gv st)
  end.

(** The states of a domain built from [domain()] by add operations *)
Inductive reachable : state -> Prop :=
  | reachable_init : reachable init_state
  | reachable_exec o st : reachable st -> reachable (exec o st).

End Domain.

(** ** Shifting identifiers *)

Inductive element :=
  | Vertices | Lines | Arcs | LineLoops | RuledSurfaces | SurfaceLoops | Volumes.

(** [getattr(self,element)] *)
Definition elements (el : element) (d : domain) : list ref :=
  match el with
  | Vertices => vertices d
  | Lines => lines d
  | Arcs => arcs d
  | LineLoops => lineLoops d
  | RuledSurfaces => ruledSurfaces d
  | SurfaceLoops => surfaceLoops d
  | Volumes => volumes d
  end.

(** [e.Id=e.Id+offset] for an object [e] of the class of [el] *)
Definition shift_Id (offset : Z) (el : element) (h : heap) (e : ref) : heap :=
  match el with
  | Vertices =>
      let v := h_vertex h e in
      put_vertex e (Vertex (v_x v) (v_Id v + offset) (v_volSize v)) h
  | Lines | Arcs =>
      let x := h_edge h e in
      put_edge e (Edge (e_Id x + offset) (e_kind x)) h
  | LineLoops =>
      let l := h_lineLoop h e in
      put_lineLoop e (LineLoop (ll_Id l + offset) (ll_edges l) (ll_orientations l)) h
  | RuledSurfaces =>
      let s := h_ruledSurface h e in
      put_ruledSurface e (RuledSurface (rs_Id s + offset) (rs_lineLoop s)) h
  | SurfaceLoops =>
      let s := h_surfaceLoop h e in
      put_surfaceLoop e (SurfaceLoop (sl_Id s + offset) (sl_surfaces s)) h
  | Volumes =>
      let v := h_volume h e in
      put_volume e (Volume (vol_Id v + offset) (vol_surfaceLoop v)) h
  end.

(** [domain.incrementIDs] *)
Definition incrementIDs (offset : Z) (el : element) : M unit :=
  modify (fun st =>
    set_heap (foldl (shift_Id offset el) (st_heap st) (elements el (st_dom st))) st).

(** [domain.incrementAllIDs] *)
Definition incrementAllIDs (offset : Z) : M unit :=
  run incrementIDs offset Vertices;
  run incrementIDs offset Lines;
  run incrementIDs offset Arcs;
  run incrementIDs offset LineLoops;
  run incrementIDs offset RuledSurfaces;
  run incrementIDs offset SurfaceLoops;
  incrementIDs offset Volumes.

(** ** Writing the geometry file

    The open file [f] is the text written to it so far; every
    [writeToFile] returns it. *)

Section Writer.

(** The numbers held by the vertices, and [str] of such a number *)
Context {N : Type}.
Variable str_number : N -> string.

(** [pyfrp_gmsh_IO_module.writeComment] is not among the sources at hand;
    the parameter is the text it writes to the file for a comment. *)
Variable writeComment : string -> string.

(** [str(self.volSize)] *)
Definition str_opt (o : option N) : string :=
  match o with
  | Some z => str_number z
  | None => "None"
  end.

(** [vertex.writeToFile] *)
Definition vertex_writeToFile (self : ref) (f : string) : M_of N string :=
  do st <- get;
  let v := h_vertex (st_heap st) self in
  do ' (x0, x1, x2) <- xyz (v_x v);
  ret (f +:+ "Point(" +:+ str (v_Id v) +:+ ")= {" +:+ str_number x0 +:+ ","
         +:+ str_number x1 +:+ "," +:+ str_number x2 +:+ ","
         +:+ str_opt (v_volSize v) +:+ "};" +:+ nl).

(** [line.writeToFile] and [arc.writeToFile] *)
Definition edge_writeToFile (self : ref) (f : string) : M_of N string :=
  do st <- get;
  let e := h_edge (st_heap st) self in
  match e_kind e with
  | Line v1 v2 =>
      ret (f +:+ "Line(" +:+ str (e_Id e) +:+ ")= {" +:+ str (vertex_Id st v1)
             +:+ "," +:+ str (vertex_Id st v2) +:+ "};" +:+ nl)
  | Arc vstart vcenter vend =>
      ret (f +:+ "Circle(" +:+ str (e_Id e) +:+ ")= {"
             +:+ str (vertex_Id st vstart) +:+ "," +:+ str (vertex_Id st vcenter)
             +:+ "," +:+ str (vertex_Id st vend) +:+ "};" +:+ nl)
  end.

(** [lineLoop.writeToFile] *)
Definition lineLoop_writeToFile (self : ref) (f : string) : M_of N string :=
  do st <- get;
  let l := h_lineLoop (st_heap st) self in
  fold_M (fun f i =>
      do s <- index (ll_edges l) i;
      do o <- index (ll_orientations l) i;
      do s <- attr s;
      let f := f +:+ str (o * edge_Id st s) in
      if bool_decide (Z.of_nat i ≠ Z.of_nat (length (ll_edges l)) - 1)
      then ret (f +:+ ",")
      else ret (f +:+ "};" +:+ nl))
    (f +:+ "Line Loop(" +:+ str (ll_Id l) +:+ ")= {")
    (seq 0 (length (ll_edges l))).

(** [ruledSurface.writeToFile] *)
Definition ruledSurface_writeToFile (self : ref) (f : string) : M_of N string :=
  do st <- get;
  let s := h_ruledSurface (st_heap st) self in
  do l <- attr (rs_lineLoop s);
  ret (f +:+ "Ruled Surface(" +:+ str (rs_Id s) +:+ ")= {"
         +:+ str (lineLoop_Id st l) +:+ "};" +:+ nl).

(** [surfaceLoop.writeToFile] *)
Definition surfaceLoop_writeToFile (self : ref) (f : string) : M_of N string :=
  do st <- get;
  let l := h_surfaceLoop (st_heap st) self in
  fold_M (fun f i =>
      do s <- index (sl_surfaces l) i;
      do s <- attr s;
      let f := f +:+ str (ruledSurface_Id st s) in
      if bool_decide (Z.of_nat i ≠ Z.of_nat (length (sl_surfaces l)) - 1)
      then ret (f +:+ ",")
      else ret (f +:+ "};" +:+ nl))
    (f +:+ "Surface Loop(" +:+ str (sl_Id l) +:+ ")= {")
    (seq 0 (length (sl_surfaces l))).

(** [volume.writeToFile] *)
Definition volume_writeToFile (self : ref) (f : string) : M_of N string :=
  do st <- get;
  let v := h_volume (st_heap st) self in
  do l <- attr (vol_surfaceLoop v);
  ret (f +:+ "Volume(" +:+ str (vol_Id v) +:+ ")= {"
         +:+ str (surfaceLoop_Id st l) +:+ "};" +:+ nl).

Definition element_name (el : element) : string :=
  match el with
  | Vertices => "vertices"
  | Lines => "lines"
  | Arcs => "arcs"
  | LineLoops => "lineLoops"
  | RuledSurfaces => "ruledSurfaces"
  | SurfaceLoops => "surfaceLoops"
  | Volumes => "volumes"
  end.

(** [v.writeToFile(f)] for an object of the class of [el] *)
Definition entity_writeToFile (el : element) (v : ref) (f : string)
  : M_of N string :=
  match el with
  | Vertices => vertex_writeToFile v f
  | Lines | Arcs => edge_writeToFile v f
  | LineLoops => lineLoop_writeToFile v f
  | RuledSurfaces => ruledSurface_writeToFile v f
  | SurfaceLoops => surfaceLoop_writeToFile v f
  | Volumes => volume_writeToFile v f
  end.

(** [domain.writeElements] *)
Definition writeElements (el : element) (f : string) : M_of N string :=
  let f := f +:+ writeComment (element_name el) in
  do st <- get;
  do f <- fold_M (fun f v => entity_writeToFile el v f) f (elements el (st_dom st));
  ret (f +:+ nl).

(** [domain.writeToFile]; the result is the content of the file. *)
Definition writeToFile : M_of N string :=
  do f <- writeElements Vertices EmptyString;
  do f <- writeElements Lines f;
  do f <- writeElements Arcs f;
  do f <- writeElements LineLoops f;
  do f <- writeElements RuledSurfaces f;
  do f <- writeElements SurfaceLoops f;
  writeElements Volumes f.

End Writer.

(** ** Regions of interest of an embryo *)

Record ROI := mkROI {
  roi_name : string;
  roi_Id : Z
}.

Record embryo := mkEmbryo {
  emb_name : string;
  ROIs : list ROI
}.

(** The [while] loop of [embryo.getFreeROIId], run for at most [fuel]
    rounds. *)
Fixpoint getFreeROIId_loop (fuel : nat) (IdList : list Z) (i : Z) : option Z :=
  match fuel with
  | O => None
  | S fuel' =>
      if bool_decide (i ∉ IdList) then Some i
      else getFreeROIId_loop fuel' IdList (i + 1)
  end.

(** [embryo.getFreeROIId] *)
Definition getFreeROIId (fuel : nat) (self : embryo) : option Z :=
  getFreeROIId_loop fuel (objAttrToList roi_Id (ROIs self)) 0.

(** ** Notions used in the statements *)

(** [res] is the answer of a lookup for [ID] in [objs]: the first object
    with that identifier and its position, or [None] when no object has
    it. *)
Definition first_with_Id (IdOf : ref -> Z) (objs : list ref) (ID : Z)
    (res : option (ref * nat)) : Prop :=
  match res with
  | Some (e, i) =>
      objs !! i = Some e /\ IdOf e = ID /\
      forall j e', (j < i)%nat -> objs !! j = Some e' -> IdOf e' <> ID
  | None => forall e, e ∈ objs -> IdOf e <> ID
  end.

(** [m] is the maximum of the list [l]. *)
Definition is_max (m : Z) (l : list Z) : Prop :=
  m ∈ l /\ forall x, x ∈ l -> x <= m.

(** The first and the last vertex of an edge under an orientation, as
    [getFirstVertex] and [getLastVertex] return them. *)
Definition first_vertex (e : edge) (orientation : Z) : option ref :=
  match e_kind e with
  | Line v1 v2 =>
      if orientation =? 1 then Some v1
      else if orientation =? -1 then Some v2 else None
  | Arc vstart vcenter vend =>
      if orientation =? -1 then Some vend
      else if orientation =? 1 then Some vstart else None
  end.

Definition last_vertex (e : edge) (orientation : Z) : option ref :=
  match e_kind e with
  | Line v1 v2 =>
      if orientation =? 1 then Some v2
      else if orientation =? -1 then Some v1 else None
  | Arc vstart vcenter vend =>
      if orientation =? 1 then Some vend
      else if orientation =? -1 then Some vstart else None
  end.

(** Edge [i] of the loop ends, under its orientation, in the vertex in
    which the following edge starts; the final edge is followed by the
    first. *)
Definition joins_next (st : state) (l : lineLoop) (i : nat) : bool :=
  let j := (S i mod length (ll_edges l))%nat in
  match ll_edges l !! i, ll_orientations l !! i,
        ll_edges l !! j, ll_orientations l !! j with
  | Some (Some e1), Some o1, Some (Some e2), Some o2 =>
      match last_vertex (h_edge (st_heap st) e1) o1,
            first_vertex (h_edge (st_heap st) e2) o2 with
      | Some v, Some w => bool_decide (v = w)
      | _, _ => false
      end
  | _, _, _, _ => false
  end.

(** The edges of the loop, in order and with their orientations, form a
    closed chain. *)
Definition closed_chain (st : state) (self : ref) : bool :=
  let l := h_lineLoop (st_heap st) self in
  forallb (joins_next st l) (seq 0 (length (ll_edges l))).

(** Pairwise distinct identifiers in a list of objects *)
Definition distinct_Ids (IdOf : ref -> Z) (l : list ref) : Prop :=
  NoDup (IdOf <$> l).

(** Pairwise distinct identifiers within each entity list of the domain *)
Definition Ids_distinct (st : state) : Prop :=
  distinct_Ids (vertex_Id st) (vertices (st_dom st)) /\
  distinct_Ids (edge_Id st) (edges (st_dom st)) /\
  distinct_Ids (lineLoop_Id st) (lineLoops (st_dom st)) /\
  distinct_Ids (ruledSurface_Id st) (ruledSurfaces (st_dom st)) /\
  distinct_Ids (surfaceLoop_Id st) (surfaceLoops (st_dom st)) /\
  distinct_Ids (volume_Id st) (volumes (st_dom st)).

(** No object sits twice in the lists that [incrementAllIDs] walks
    through, and every edge of [edges] is a line or an arc. *)
Definition no_repeats (d : domain) : Prop :=
  NoDup (vertices d) /\ NoDup (lines d ++ arcs d) /\ NoDup (lineLoops d) /\
  NoDup (ruledSurfaces d) /\ NoDup (surfaceLoops d) /\ NoDup (volumes d) /\
  edges d ⊆ lines d ++ arcs d.

(** An object with its identifier moved by [offset] and nothing else
    changed. *)
Definition shift_vertex (offset : Z) (v : vertex) : vertex :=
  Vertex (v_x v) (v_Id v + offset) (v_volSize v).
Definition shift_edge (offset : Z) (e : edge) : edge :=
  Edge (e_Id e + offset) (e_kind e).
Definition shift_lineLoop (offset : Z) (l : lineLoop) : lineLoop :=
  LineLoop (ll_Id l + offset) (ll_edges l) (ll_orientations l).
Definition shift_ruledSurface (offset : Z) (s : ruledSurface) : ruledSurface :=
  RuledSurface (rs_Id s + offset) (rs_lineLoop s).
Definition shift_surfaceLoop (offset : Z) (s : surfaceLoop) : surfaceLoop :=
  SurfaceLoop (sl_Id s + offset) (sl_surfaces s).
Definition shift_volume (offset : Z) (v : volume) : volume :=
  Volume (vol_Id v + offset) (vol_surfaceLoop v).

(** The objects of [l] are changed by [f], all others are left alone. *)
Definition on_members {A} (l : list ref) (f : A -> A) (g : ref -> A) : ref -> A :=
  fun r => if bool_decide (r ∈ l) then f (g r) else g r.

(** Every object listed in the domain has been created. *)
Definition all_refs (d : domain) : list ref :=
  vertices d ++ edges d ++ lines d ++ arcs d ++ lineLoops d
    ++ ruledSurfaces d ++ surfaceLoops d ++ volumes d.

Definition allocated (st : state) : Prop :=
  Forall (fun r => (r < h_next (st_heap st))%nat) (all_refs (st_dom st)).

(** A ruled surface under construction: the object [p.1] exists, has the
    identifier [p.2], and no surface of the domain has this identifier. *)
Definition pending (st : state) (p : ref * Z) : Prop :=
  (p.1 < h_next (st_heap st))%nat /\
  ruledSurface_Id st p.1 = p.2 /\
  p.2 ∉ ruledSurface_Id st <$> ruledSurfaces (st_dom st).

(** The invariant of the domain, with the ruled surfaces [pend] under
    construction *)
Definition well_formed (pend : list (ref * Z)) (st : state) : Prop :=
  allocated st /\ Ids_distinct st /\
  edges (st_dom st) ≡ₚ lines (st_dom st) ++ arcs (st_dom st) /\
  Forall (pending st) pend.

(** The identifier asked for lies above those of the surfaces under
    construction. *)
Definition above (pend : list (ref * Z)) (Id : option Z) : Prop :=
  match Id with
  | Some x => Forall (fun p : ref * Z => p.2 < x) pend
  | None => pend = []
  end.

(** From a state in [P], the computation ends in a state in [Q], whether
    it returns or raises. *)
Definition hoare {A} (P : state -> Prop) (m : M A) (Q : state -> Prop) : Prop :=
  forall st, P st -> Q (snd (m st)).

(** Two states with the same domain lists, the same allocation counter and
    the same identifier for every object *)
Definition same_Ids (st st' : state) : Prop :=
  st_dom st' = st_dom st /\
  h_next (st_heap st') = h_next (st_heap st) /\
  (forall r, vertex_Id st' r = vertex_Id st r) /\
  (forall r, edge_Id st' r = edge_Id st r) /\
  (forall r, lineLoop_Id st' r = lineLoop_Id st r) /\
  (forall r, ruledSurface_Id st' r = ruledSurface_Id st r) /\
  (forall r, surfaceLoop_Id st' r = surfaceLoop_Id st r) /\
  (forall r, volume_Id st' r = volume_Id st r).

(** The computation changes no identifier and no list of the domain. *)
Definition stable {A} (m : M A) : Prop := forall st, same_Ids st (snd (m st)).

(** How a list of the domain changes when an object [r] is created:
    not at all, or by [r] at its end, with an identifier new to the list. *)
Definition list_step (IdOf g : ref -> Z) (l l' : list ref) (r : ref) : Prop :=
  l' = l \/ (l' = l ++ [r] /\ g r ∉ IdOf <$> l).

(** The statements of the geometry file, as the mesher reads them *)
Definition Point_statement (Id : Z) (x y z volSize : string) : string :=
  "Point(" +:+ str Id +:+ ")= {" +:+ x +:+ "," +:+ y +:+ "," +:+ z +:+ ","
    +:+ volSize +:+ "};".

Definition Line_statement (Id v1 v2 : Z) : string :=
  "Line(" +:+ str Id +:+ ")= {" +:+ str v1 +:+ "," +:+ str v2 +:+ "};".

Definition Circle_statement (Id vstart vcenter vend : Z) : string :=
  "Circle(" +:+ str Id +:+ ")= {" +:+ str vstart +:+ "," +:+ str vcenter
    +:+ "," +:+ str vend +:+ "};".

(** The file [f] with the text [r] written after it, when there is one *)
Definition extend (f : string) (r : result string) : result string :=
  match r with
  | Ok t => Ok (f +:+ t)
  | Raise e => Raise e
  end.

(** What [writeToFile] of an object writes to a file *)
Definition entity_text {N} (str_number : N -> string) (st : state_of N)
    (el : element) (v : ref) : result string :=
  fst (entity_writeToFile str_number el v EmptyString st).

(** ** Example domains *)

(** A triangulation routine for the examples: the fan of triangles around
    the first vertex of the polygon. *)
Definition fan (coords : list (list Z)) : list (nat * nat * nat) :=
  (fun i => (0, S i, S (S i))%nat) <$> seq 0 (length coords - 2).

(** The domain after a script of add operations, each one run to its
    return or to its exception *)
Definition run_ops (script : list op) (st : state) : state :=
  foldl (fun st o => exec fan o st) st script.

(** The script [vs=[d.addVertex(x) for x in coords]] followed by
    [d.addLine(vs[i],vs[(i+1)%len(vs)])] for every [i]: in a fresh domain
    the vertices are at the addresses 0 to n-1 and the lines at n to
    2n-1, with the identifiers 1 to n each. *)
Definition outline (coords : list (list Z)) : list op :=
  ((fun x => AddVertex x None None) <$> coords)
  ++ ((fun i => AddLine i ((i + 1) mod length coords)%nat None)
        <$> seq 0 (length coords)).

(** A fresh domain with the outline of [coords] and the line loop
    [d.addLineLoop(edgeIDs=loop)] *)
Definition outline_domain (coords : list (list Z)) (loop : list Z) : state :=
  run_ops (outline coords ++ [AddLineLoop None loop]) init_state.

(** The triangle [[0,0,0],[1,0,0],[0,1,0]] with the loop of its lines 1, 2,
    3: vertices at addresses 0 to 2, lines at 3 to 5, the loop at 6. *)
Definition triangle_state : state :=
  outline_domain [[0; 0; 0]; [1; 0; 0]; [0; 1; 0]] [1; 2; 3].

Definition triangle_loop : ref := 6%nat.



(** The unit square with the loop of its lines: vertices at addresses 0
    to 3, lines at 4 to 7, the loop at 8. *)
Definition square_domain : state :=
  outline_domain [[0; 0; 0]; [1; 0; 0]; [1; 1; 0]; [0; 1; 0]] [1; 2; 3; 4].







(** From [st] to [st'] nothing changes but the orientations of loops and
    the messages printed. *)
Definition calm (st st' : state) : Prop :=
  st_dom st' = st_dom st /\
  h_next (st_heap st') = h_next (st_heap st) /\
  h_vertex (st_heap st') = h_vertex (st_heap st) /\
  h_edge (st_heap st') = h_edge (st_heap st) /\
  h_ruledSurface (st_heap st') = h_ruledSurface (st_heap st) /\
  forall r, ll_Id (h_lineLoop (st_heap st') r) = ll_Id (h_lineLoop (st_heap st) r) /\
            ll_edges (h_lineLoop (st_heap st') r)
            = ll_edges (h_lineLoop (st_heap st) r).

(** The computation relates every state to the state it ends in. *)
Definition preserves {A} (R : state -> state -> Prop) (m : M A) : Prop :=
  forall st, R st (snd (m st)).






(** The edge has both [v1] and [v2] among its two end vertices. *)
Definition joins (e : edge) (v1 v2 : ref) : Prop :=
  v1 ∈ end_vertices e /\ v2 ∈ end_vertices e.

(** From [st] to [st'] only messages are printed. *)
Definition quiet (st st' : state) : Prop :=
  st_heap st' = st_heap st /\ st_dom st' = st_dom st.

(** ** Largest identifiers *)

(** [e.Id] for an object [e] of the class of [el] *)
Definition element_Id (el : element) (st : state) : ref -> Z :=
  match el with
  | Vertices => vertex_Id st
  | Lines | Arcs => edge_Id st
  | LineLoops => lineLoop_Id st
  | RuledSurfaces => ruledSurface_Id st
  | SurfaceLoops => surfaceLoop_Id st
  | Volumes => volume_Id st
  end.

(** [max(IDs)], which raises on an empty list *)
Definition max_of (IDs : list Z) : M Z :=
  match IDs with
  | [] => raise ValueError
  | x :: IDs' => ret (py_max x IDs')
  end.

(** [domain.getMaxID] *)
Definition getMaxID (el : element) : M Z :=
  do st <- get;
  max_of (element_Id el st <$> elements el (st_dom st)).

(** [domain.getAllMaxID] *)
Definition getAllMaxID : M Z :=
  do v <- getMaxID Vertices;
  do l <- getMaxID Lines;
  do a <- getMaxID Arcs;
  do ll <- getMaxID LineLoops;
  do rs <- getMaxID RuledSurfaces;
  do sl <- getMaxID SurfaceLoops;
  do vol <- getMaxID Volumes;
  max_of [v; l; a; ll; rs; sl; vol].

(** The identifiers of all objects in the seven lists that [getAllMaxID]
    walks through *)
Definition all_Ids (st : state) : list Z :=
  (vertex_Id st <$> vertices (st_dom st))
  ++ (edge_Id st <$> lines (st_dom st))
  ++ (edge_Id st <$> arcs (st_dom st))
  ++ (lineLoop_Id st <$> lineLoops (st_dom st))
  ++ (ruledSurface_Id st <$> ruledSurfaces (st_dom st))
  ++ (surfaceLoop_Id st <$> surfaceLoops (st_dom st))
  ++ (volume_Id st <$> volumes (st_dom st)).

(** ** The extent of the domain *)

(** [min(l)] *)
Definition py_min (x : Z) (l : list Z) : Z := foldl Z.min x l.

Definition min_of (l : list Z) : M Z :=
  match l with
  | [] => raise ValueError
  | x :: l' => ret (py_min x l')
  end.

(** [domain.getExtend] *)
Definition getExtend : M (Z * Z * Z * Z * Z * Z) :=
  do st <- get;
  do cs <- map_M (vertices (st_dom st)) (fun v => xyz (v_x (h_vertex (st_heap st) v)));
  let x := (fun c : Z * Z * Z => c.1.1) <$> cs in
  let y := (fun c : Z * Z * Z => c.1.2) <$> cs in
  let z := (fun c : Z * Z * Z => c.2) <$> cs in
  do minx <- min_of x;
  do maxx <- max_of x;
  do miny <- min_of y;
  do maxy <- max_of y;
  do minz <- min_of z;
  do maxz <- max_of z;
  ret (minx, maxx, miny, maxy, minz, maxz).

(** [m] is the minimum of the list [l]. *)
Definition is_min (m : Z) (l : list Z) : Prop :=
  m ∈ l /\ forall x, x ∈ l -> m <= x.

(** Coordinate [k] of the vertices of the domain *)
Definition vertex_coords (st : state) (k : nat) : list Z :=
  (fun v => default 0 (v_x (h_vertex (st_heap st) v) !! k)) <$> vertices (st_dom st).

(** ** Editing loops *)

(** [lst.insert(pos,x)]: a negative position counts from the end, and a
    position outside the list is moved to its nearest end. *)
Definition py_insert {A} (pos : Z) (x : A) (lst : list A) : list A :=
  let n := Z.of_nat (length lst) in
  let p := Z.to_nat (if pos <? 0 then Z.max 0 (pos + n) else Z.min pos n) in
  take p lst ++ x :: drop p lst.

Definition set_edges (self : ref) (es : list (option ref)) : M unit :=
  modify (fun st =>
    let l := h_lineLoop (st_heap st) self in
    set_heap (put_lineLoop self (LineLoop (ll_Id l) es (ll_orientations l))
                           (st_heap st)) st).

(** [entry == abs(ID)] for an entry of [lineLoop.edges]: an edge object
    equals no integer, and [False], the entry of a failed lookup, equals 0. *)
Definition entry_equals (n : Z) (entry : option ref) : bool :=
  match entry with
  | Some _ => false
  | None => n =? 0
  end.

(** [lineLoop.removeEdgeByID] *)
Definition removeEdgeByID (self : ref) (ID : Z) : M (list (option ref)) :=
  do st <- get;
  let l := h_lineLoop (st_heap st) self in
  match list_find (fun e => entry_equals (Z.abs ID) e = true) (ll_edges l) with
  | None => raise ValueError
  | Some (idx, _) =>
      run set_edges self (delete idx (ll_edges l));
      if (idx <? length (ll_orientations l))%nat then
        run set_orientations self (delete idx (ll_orientations l));
        do st <- get;
        ret (ll_edges (h_lineLoop (st_heap st) self))
      else raise IndexError
  end.

Definition set_surfaces (self : ref) (ss : list (option ref)) : M unit :=
  modify (fun st =>
    let l := h_surfaceLoop (st_heap st) self in
    set_heap (put_surfaceLoop self (SurfaceLoop (sl_Id l) ss) (st_heap st)) st).

(** [surfaceLoop.addSurfaceByID] *)
Definition addSurfaceByID (self : ref) (ID : Z) : M (list (option ref)) :=
  do st <- get;
  let l := h_surfaceLoop (st_heap st) self in
  run set_surfaces self (sl_surfaces l ++ [fst <$> getRuledSurfaceById st ID]);
  do st <- get;
  ret (sl_surfaces (h_surfaceLoop (st_heap st) self)).

(** [surfaceLoop.insertSurfaceByID] *)
Definition insertSurfaceByID (self : ref) (ID pos : Z) : M (list (option ref)) :=
  do st <- get;
  let l := h_surfaceLoop (st_heap st) self in
  run set_surfaces self
        (py_insert pos (fst <$> getRuledSurfaceById st ID) (sl_surfaces l));
  do st <- get;
  ret (sl_surfaces (h_surfaceLoop (st_heap st) self)).

(** [surfaceLoop.removeSurfaceByID] *)
Definition removeSurfaceByID (self : ref) (ID : Z) : M (list (option ref)) :=
  do st <- get;
  let l := h_surfaceLoop (st_heap st) self in
  match list_remove (fst <$> getRuledSurfaceById st ID) (sl_surfaces l) with
  | Raise e => raise e
  | Ok ss =>
      run set_surfaces self ss;
      do st <- get;
      ret (sl_surfaces (h_surfaceLoop (st_heap st) self))
  end.

(** ** The statement of a line loop *)

(** [",".join(items)] *)
Fixpoint join_comma (items : list string) : string :=
  match items with
  | [] => EmptyString
  | [x] => x
  | x :: rest => x +:+ "," +:+ join_comma rest
  end.

(** The statement of a line loop as the mesher reads it *)
Definition LineLoop_statement (Id : Z) (items : list Z) : string :=
  "Line Loop(" +:+ str Id +:+ ")= {" +:+ join_comma (str <$> items) +:+ "};" +:+ nl.

(** The signed edge identifiers of a loop, [orientations[i]*edges[i].Id] *)
Definition signed_Ids {N} (st : state_of N) (l : lineLoop) : list Z :=
  zip_with (fun e o => o * match e with Some e => edge_Id st e | None => 0 end)
           (ll_edges l) (ll_orientations l).

(** A loop whose entries are all edge objects and which has as many
    orientations as entries *)
Definition resolved_loop (l : lineLoop) : Prop :=
  length (ll_orientations l) = length (ll_edges l) /\
  Forall (fun e => exists r, e = Some r) (ll_edges l).

(** ** The statements of the geometry file *)

Definition RuledSurface_statement (Id loop : Z) : string :=
  "Ruled Surface(" +:+ str Id +:+ ")= {" +:+ str loop +:+ "};".

Definition SurfaceLoop_statement (Id : Z) (items : list Z) : string :=
  "Surface Loop(" +:+ str Id +:+ ")= {" +:+ join_comma (str <$> items) +:+ "};" +:+ nl.

Definition Volume_statement (Id surfaceLoop : Z) : string :=
  "Volume(" +:+ str Id +:+ ")= {" +:+ str surfaceLoop +:+ "};".

(** The identifiers of the surfaces of a surface loop *)
Definition surface_Ids {N} (st : state_of N) (l : surfaceLoop) : list Z :=
  (fun s => match s with Some s => ruledSurface_Id st s | None => 0 end)
    <$> sl_surfaces l.

(** Every object listed in the domain has what its statement needs: a
    vertex three coordinates, a line loop and a surface loop only entries
    that are objects (a line loop also an orientation for each), a ruled
    surface a line loop and a volume a surface loop. *)
Definition printable {N} (st : state_of N) : Prop :=
  Forall (fun v => (3 <= length (v_x (h_vertex (st_heap st) v)))%nat)
         (vertices (st_dom st)) /\
  Forall (fun l => resolved_loop (h_lineLoop (st_heap st) l))
         (lineLoops (st_dom st)) /\
  Forall (fun s => is_Some (rs_lineLoop (h_ruledSurface (st_heap st) s)))
         (ruledSurfaces (st_dom st)) /\
  Forall (fun l => Forall (fun s => exists r, s = Some r)
                          (sl_surfaces (h_surfaceLoop (st_heap st) l)))
         (surfaceLoops (st_dom st)) /\
  Forall (fun v => is_Some (vol_surfaceLoop (h_volume (st_heap st) v)))
         (volumes (st_dom st)).

Section Statements.

Context {N : Type}.
Variable str_number : N -> string.
Variable writeComment : string -> string.

(** The text of one object in the file: its statement and a line break.
    The statement of a loop without entries is never closed. *)
Definition statement_text (st : state_of N) (el : element) (v : ref) : string :=
  match el with
  | Vertices =>
      match v_x (h_vertex (st_heap st) v) with
      | x :: y :: z :: _ =>
          Point_statement (vertex_Id st v) (str_number x) (str_number y)
                          (str_number z)
                          (match v_volSize (h_vertex (st_heap st) v) with
                           | Some volSize => str_number volSize
                           | None => "None"
                           end) +:+ nl
      | _ => EmptyString
      end
  | Lines | Arcs =>
      match e_kind (h_edge (st_heap st) v) with
      | Line v1 v2 =>
          Line_statement (edge_Id st v) (vertex_Id st v1) (vertex_Id st v2) +:+ nl
      | Arc vstart vcenter vend =>
          Circle_statement (edge_Id st v) (vertex_Id st vstart)
                           (vertex_Id st vcenter) (vertex_Id st vend) +:+ nl
      end
  | LineLoops =>
      let l := h_lineLoop (st_heap st) v in
      match ll_edges l with
      | [] => "Line Loop(" +:+ str (ll_Id l) +:+ ")= {"
      | _ :: _ => LineLoop_statement (ll_Id l) (signed_Ids st l)
      end
  | RuledSurfaces =>
      let s := h_ruledSurface (st_heap st) v in
      match rs_lineLoop s with
      | Some l => RuledSurface_statement (rs_Id s) (lineLoop_Id st l) +:+ nl
      | None => EmptyString
      end
  | SurfaceLoops =>
      let l := h_surfaceLoop (st_heap st) v in
      match sl_surfaces l with
      | [] => "Surface Loop(" +:+ str (sl_Id l) +:+ ")= {"
      | _ :: _ => SurfaceLoop_statement (sl_Id l) (surface_Ids st l)
      end
  | Volumes =>
      let w := h_volume (st_heap st) v in
      match vol_surfaceLoop w with
      | Some l => Volume_statement (vol_Id w) (surfaceLoop_Id st l) +:+ nl
      | None => EmptyString
      end
  end.

(** One section of the file: the comment naming the element type, the
    statements of its objects in list order, and an empty line. *)
Definition section_text (st : state_of N) (el : element) : string :=
  writeComment (element_name el)
    +:+ foldr (fun v t => statement_text st el v +:+ t) nl (elements el (st_dom st)).

(** The geometry file: the seven sections in their order *)
Definition geometry_text (st : state_of N) : string :=
  section_text st Vertices +:+ section_text st Lines +:+ section_text st Arcs
    +:+ section_text st LineLoops +:+ section_text st RuledSurfaces
    +:+ section_text st SurfaceLoops +:+ section_text st Volumes.

End Statements.

(** [d=domain(); d.addCylinderByParameters([0,0],1,0,2,None)]: a domain
    with objects of every class: 10 vertices, 8 arcs, 4 lines, 6 line
    loops, 6 ruled surfaces, a surface loop and a volume. *)
Definition cylinder_domain : state :=
  run_ops [AddCylinderByParameters [0; 0] 1 0 2 None "z" true true true] init_state.

(** The coordinate that [addPolygonByParameters] builds from an entry [c]
    of [coords], before it is flipped into the plane: the entry itself when
    it has exactly three numbers, its first two numbers and the height [z]
    otherwise; [None] when the entry is too short and the code raises. *)
Definition polygon_point (z : Z) (c : list Z) : option (list Z) :=
  match c with
  | [c0; c1; c2] => Some [c0; c1; c2]
  | c0 :: c1 :: _ => Some [c0; c1; z]
  | _ => None
  end.

(** * Properties *)

(** ** Running the monad *)

Lemma bind_ok {N A B} (m : M_of N A) (k : A -> M_of N B) st a st' :
  m st = (Ok a, st') -> bind m k st = k a st'.
Proof. intros H. unfold bind. rewrite H. reflexivity. Qed.

Lemma bind_raise {N A B} (m : M_of N A) (k : A -> M_of N B) st e st' :
  m st = (Raise e, st') -> bind m k st = (Raise e, st').
Proof. intros H. unfold bind. rewrite H. reflexivity. Qed.

Lemma index_ok {N A} (l : list A) i a (st : state_of N) :
  l !! i = Some a -> index l i st = (Ok a, st).
Proof. intros H. unfold index. rewrite H. reflexivity. Qed.

Lemma index_raise {N A} (l : list A) i (st : state_of N) :
  l !! i = None -> index l i st = (Raise IndexError, st).
Proof. intros H. unfold index. rewrite H. reflexivity. Qed.

(** ** Lookups *)

Lemma find_Id_spec IdOf ID objs k :
  match find_Id IdOf ID objs k with
  | Some (e, i) =>
      (k <= i)%nat /\ objs !! (i - k)%nat = Some e /\ IdOf e = ID /\
      forall j e', (j < i - k)%nat -> objs !! j = Some e' -> IdOf e' <> ID
  | None => forall e, e ∈ objs -> IdOf e <> ID
  end.
Proof.
  revert k. induction objs as [|e objs IH]; intros k; simpl.
  - intros e He. inversion He.
  - case_bool_decide as Heq.
    + replace (k - k)%nat with 0%nat by lia. repeat split; auto; intros; lia.
    + specialize (IH (S k)). destruct (find_Id IdOf ID objs (S k)) as [[e' i]|].
      * destruct IH as (Hle & Hlk & HId & Hfirst).
        replace (i - k)%nat with (S (i - S k)) by lia.
        repeat split; auto; try lia.
        intros [|j] e'' Hj Hl; simpl in Hl.
        -- congruence.
        -- eapply Hfirst; [|eassumption]. lia.
      * intros e' He'. apply elem_of_cons in He' as [->|He']; auto.
Qed.

Lemma find_Id_first IdOf ID objs :
  first_with_Id IdOf objs ID (find_Id IdOf ID objs 0).
Proof.
  pose proof (find_Id_spec IdOf ID objs 0) as H. unfold first_with_Id.
  destruct (find_Id IdOf ID objs 0) as [[e i]|]; auto.
  replace (i - 0)%nat with i in H by lia. tauto.
Qed.

(** C5: each of the six lookups by identifier returns the first object of
    its list that carries the identifier, together with its position, and
    the pair (False, False) when no object of the list carries it. *)
Theorem lookup_by_Id (st : state) (ID : Z) :
  first_with_Id (edge_Id st) (edges (st_dom st)) ID (getEdgeById st ID) /\
  first_with_Id (vertex_Id st) (vertices (st_dom st)) ID (getVertexById st ID) /\
  first_with_Id (lineLoop_Id st) (lineLoops (st_dom st)) ID (getLineLoopById st ID) /\
  first_with_Id (ruledSurface_Id st) (ruledSurfaces (st_dom st)) ID
                (getRuledSurfaceById st ID) /\
  first_with_Id (surfaceLoop_Id st) (surfaceLoops (st_dom st)) ID
                (getSurfaceLoopById st ID) /\
  first_with_Id (volume_Id st) (volumes (st_dom st)) ID (getVolumeById st ID).
Proof. repeat split; apply find_Id_first. Qed.

(** ** Fresh identifiers *)

Lemma py_max_is_max x l : is_max (py_max x l) (x :: l).
Proof.
  unfold py_max. revert x. induction l as [|y l IH]; intros x; simpl.
  - split; [left|]. intros z Hz. apply list_elem_of_singleton in Hz. lia.
  - destruct (IH (Z.max x y)) as [Hin Hub]. split.
    + apply elem_of_cons in Hin as [Heq|Hin].
      * rewrite Heq. destruct (Z.max_spec x y) as [[_ ->]|[_ ->]].
        -- right; left.
        -- left.
      * right; right; exact Hin.
    + intros z Hz.
      assert (Z.max x y <= foldl Z.max (Z.max x y) l) by (apply Hub; left).
      apply elem_of_cons in Hz as [->|Hz]; [lia|].
      apply elem_of_cons in Hz as [->|Hz]; [lia|].
      apply Hub. right; exact Hz.
Qed.

Lemma incrementID_fresh IdOf objList :
  incrementID IdOf objList ∉ objAttrToList IdOf objList.
Proof.
  unfold incrementID. destruct (objAttrToList IdOf objList) as [|x l] eqn:E.
  - intros H; inversion H.
  - intros H. destruct (py_max_is_max x l) as [_ Hub]. apply Hub in H. lia.
Qed.

Lemma getNewId_run IdOf objList Id st :
  exists newId out,
    getNewId IdOf objList Id st
      = (Ok newId, State (st_heap st) (st_dom st) (st_out st ++ out)) /\
    (newId ∉ objAttrToList IdOf objList) /\
    newId = match Id with
            | Some i => if bool_decide (i ∈ objAttrToList IdOf objList)
                        then incrementID IdOf objList else i
            | None => incrementID IdOf objList
            end.
Proof.
  destruct st as [h d o]. destruct Id as [i|]; simpl.
  - unfold bind, checkIdExists. case_bool_decide as Hin; simpl.
    + eexists _, [_]. split; [reflexivity|]. split; [apply incrementID_fresh|reflexivity].
    + exists i, []. rewrite app_nil_r. auto.
  - eexists _, []. rewrite app_nil_r. split; [reflexivity|].
    split; [apply incrementID_fresh|reflexivity].
Qed.

(** C6: [getNewId] returns the requested identifier when it is given and
    no object carries it; otherwise 1 for an empty list and the maximum
    plus one for a non-empty list.  The result is carried by no object of
    the list, and the call changes neither the store nor the domain. *)
Theorem getNewId_spec (IdOf : ref -> Z) (objList : list ref) (Id : option Z)
    (st : state) :
  exists newId,
    fst (getNewId IdOf objList Id st) = Ok newId /\
    (forall i, Id = Some i -> i ∉ objAttrToList IdOf objList -> newId = i) /\
    (Id = None \/ (exists i, Id = Some i /\ i ∈ objAttrToList IdOf objList) ->
       (objList = [] -> newId = 1) /\
       (objList <> [] ->
          exists m, is_max m (objAttrToList IdOf objList) /\ newId = m + 1)) /\
    (newId ∉ objAttrToList IdOf objList) /\
    st_heap (snd (getNewId IdOf objList Id st)) = st_heap st /\
    st_dom (snd (getNewId IdOf objList Id st)) = st_dom st.
Proof.
  destruct (getNewId_run IdOf objList Id st) as (newId & out & Hrun & Hfresh & Hval).
  exists newId. rewrite Hrun. simpl. repeat split; auto.
  - intros i -> Hi. rewrite bool_decide_eq_false_2 in Hval by exact Hi. exact Hval.
  - intros -> . assert (newId = incrementID IdOf []) as ->.
    { destruct H as [->|(i & -> & Hi)]; [exact Hval|].
      simpl in Hi. inversion Hi. }
    reflexivity.
  - intros Hne. assert (newId = incrementID IdOf objList) as ->.
    { destruct H as [->|(i & -> & Hi)]; [exact Hval|].
      rewrite bool_decide_eq_true_2 in Hval by exact Hi. exact Hval. }
    unfold incrementID. destruct (objAttrToList IdOf objList) as [|x l] eqn:E.
    + destruct objList; [congruence|discriminate].
    + exists (py_max x l). split; [apply py_max_is_max|reflexivity].
Qed.

(** ** Free ROI identifiers *)

Lemma initial_segment_length (l : list Z) (i : Z) :
  (forall j, 0 <= j < i -> j ∈ l) -> (Z.to_nat i <= length l)%nat.
Proof.
  intros H.
  assert (Hsub : (Z.of_nat <$> seq 0 (Z.to_nat i)) ⊆+ l).
  { apply NoDup_submseteq.
    - apply NoDup_fmap_2; [intros a b; lia|apply NoDup_seq].
    - intros x Hx. apply list_elem_of_fmap in Hx as (y & -> & Hy).
      apply elem_of_seq in Hy. apply H. lia. }
  apply submseteq_length in Hsub. rewrite length_fmap, length_seq in Hsub. exact Hsub.
Qed.

Lemma getFreeROIId_loop_spec (IdList : list Z) (fuel : nat) (i : Z) :
  0 <= i ->
  (forall j, 0 <= j < i -> j ∈ IdList) ->
  (length IdList < Z.to_nat i + fuel)%nat ->
  exists r, getFreeROIId_loop fuel IdList i = Some r /\
            0 <= r /\ (r ∉ IdList) /\ forall j, 0 <= j < r -> j ∈ IdList.
Proof.
  revert i. induction fuel as [|fuel IH]; intros i Hi Hseg Hfuel.
  - apply initial_segment_length in Hseg. lia.
  - simpl. case_bool_decide as Hin.
    + exists i. auto.
    + apply IH; [lia| |lia].
      intros j Hj. destruct (decide (j = i)) as [->|Hne].
      * destruct (decide (i ∈ IdList)); [assumption|contradiction].
      * apply Hseg. lia.
Qed.

(** C9: [getFreeROIId] returns the smallest non-negative integer that is
    the Id of no ROI of the embryo; the loop ends within one round more
    than there are ROIs. *)
Theorem getFreeROIId_least_free (self : embryo) (k : nat) :
  exists i,
    getFreeROIId (S (length (ROIs self)) + k) self = Some i /\
    0 <= i /\
    (i ∉ objAttrToList roi_Id (ROIs self)) /\
    forall j, 0 <= j < i -> j ∈ objAttrToList roi_Id (ROIs self).
Proof.
  unfold getFreeROIId. apply getFreeROIId_loop_spec; [lia| |].
  - intros j Hj. lia.
  - unfold objAttrToList. rewrite length_fmap. simpl. lia.
Qed.

(** ** The odd prism *)

(** C7: called with three-dimensional coordinates whose number is odd,
    [addPrismByParameters] prints its error, returns no value, and leaves
    the store and the domain as they were. *)
Theorem addPrism_odd_unchanged
    (triangulatePoly : list (list Z) -> list (nat * nat * nat))
    (coords : list (list Z)) (volSize : option Z) (height z : Z)
    (plane : string) (genLoops genSurfaces genVol : bool) (st : state) :
  Forall (fun c => length c = 3%nat) coords ->
  (length coords mod 2 = 1)%nat ->
  addPrismByParameters triangulatePoly coords volSize height z plane
                       genLoops genSurfaces genVol st
  = (Ok None,
     State (st_heap st) (st_dom st)
           (st_out st ++ [Error "addPrismByParameters: You gave a list of 3-dimensional vertex coordinates. However,the number of coordinates is odd, will not be able to continue."])).
Proof.
  intros Hdim Hodd. destruct coords as [|c0 coords]; [discriminate|].
  inversion Hdim as [|? ? Hc0 _]; subst.
  unfold addPrismByParameters.
  erewrite bind_ok by (apply index_ok; reflexivity). cbv beta.
  rewrite Hc0, Hodd. reflexivity.
Qed.

Lemma addPrism_odd_unchanged_witness :
  Forall (fun c => length c = 3%nat) [[0; 0; 0]] /\
  (length [[0; 0; 0]] mod 2 = 1)%nat /\
  addPrismByParameters (fun _ => []) [[0; 0; 0]] None 1 0 "z" true true true
                       init_state
  = (Ok None,
     State (st_heap init_state) (st_dom init_state)
           (st_out init_state ++ [Error "addPrismByParameters: You gave a list of 3-dimensional vertex coordinates. However,the number of coordinates is odd, will not be able to continue."])).
Proof.
  split; [repeat constructor|]. split; [reflexivity|].
  apply (addPrism_odd_unchanged (fun _ => []) [[0; 0; 0]] None 1 0 "z" true true true
                                init_state).
  - repeat constructor.
  - reflexivity.
Defined.

(** ** Closed loops *)

(** C2: the triangle of the lines 1, 2, 3 is a closed chain, and
    [checkClosed] with [fix=False] does not answer for it: the first round
    of its loop asks [pyfrp_misc_module] for [modIdx], which the module does
    not have, and the call ends in AttributeError. *)
Theorem checkClosed_raises_on_closed_triangle :
  closed_chain triangle_state triangle_loop = true /\
  fst (checkClosed triangle_loop false false triangle_state) = Raise AttributeError.
Proof. split; vm_compute; reflexivity. Qed.

(** C8: on the same triangle [checkClosed] with [fix=True] does not return
    [True]: it ends in the same AttributeError, having reversed no edge. *)
Theorem checkClosed_fix_raises_on_triangle :
  fst (checkClosed triangle_loop true false triangle_state) = Raise AttributeError /\
  ll_orientations (h_lineLoop (st_heap
      (snd (checkClosed triangle_loop true false triangle_state))) triangle_loop)
  = [1; 1; 1].
Proof. split; vm_compute; reflexivity. Qed.

(** ** Shifting all identifiers *)

Lemma foldl_update {A} (f : A -> A) (l : list ref) (g : ref -> A) r :
  NoDup l ->
  foldl (fun g e => <[e := f (g e)]> g) g l r = on_members l f g r.
Proof.
  unfold on_members. revert g. induction l as [|e l IH]; intros g Hnd.
  - reflexivity.
  - apply list.NoDup_cons in Hnd as [Hnotin Hnd]. simpl. rewrite IH by exact Hnd.
    destruct (decide (r = e)) as [->|Hne].
    + rewrite (bool_decide_eq_false_2 _ Hnotin).
      rewrite bool_decide_eq_true_2 by left. apply fn_lookup_insert.
    + rewrite fn_lookup_insert_ne by congruence.
      destruct (decide (r ∈ l)) as [Hin|Hnin].
      * rewrite !bool_decide_eq_true_2; [reflexivity|right; exact Hin|exact Hin].
      * rewrite !bool_decide_eq_false_2; [reflexivity| |exact Hnin].
        intros Hc. apply elem_of_cons in Hc as [?|?]; contradiction.
Qed.

Lemma shift_fold_vertices offset l h :
  foldl (shift_Id offset Vertices) h l
  = Heap (foldl (fun g e => <[e := shift_vertex offset (g e)]> g) (h_vertex h) l)
         (h_edge h) (h_lineLoop h) (h_ruledSurface h) (h_surfaceLoop h)
         (h_volume h) (h_next h).
Proof.
  revert h. induction l as [|e l IH]; intros h; [destruct h; reflexivity|].
  simpl. rewrite IH. reflexivity.
Qed.

Lemma shift_fold_lines offset l h :
  foldl (shift_Id offset Lines) h l
  = Heap (h_vertex h)
         (foldl (fun g e => <[e := shift_edge offset (g e)]> g) (h_edge h) l)
         (h_lineLoop h) (h_ruledSurface h) (h_surfaceLoop h)
         (h_volume h) (h_next h).
Proof.
  revert h. induction l as [|e l IH]; intros h; [destruct h; reflexivity|].
  simpl. rewrite IH. reflexivity.
Qed.

Lemma shift_fold_arcs offset l h :
  foldl (shift_Id offset Arcs) h l
  = Heap (h_vertex h)
         (foldl (fun g e => <[e := shift_edge offset (g e)]> g) (h_edge h) l)
         (h_lineLoop h) (h_ruledSurface h) (h_surfaceLoop h)
         (h_volume h) (h_next h).
Proof.
  revert h. induction l as [|e l IH]; intros h; [destruct h; reflexivity|].
  simpl. rewrite IH. reflexivity.
Qed.

Lemma shift_fold_lineLoops offset l h :
  foldl (shift_Id offset LineLoops) h l
  = Heap (h_vertex h) (h_edge h)
         (foldl (fun g e => <[e := shift_lineLoop offset (g e)]> g) (h_lineLoop h) l)
         (h_ruledSurface h) (h_surfaceLoop h) (h_volume h) (h_next h).
Proof.
  revert h. induction l as [|e l IH]; intros h; [destruct h; reflexivity|].
  simpl. rewrite IH. reflexivity.
Qed.

Lemma shift_fold_ruledSurfaces offset l h :
  foldl (shift_Id offset RuledSurfaces) h l
  = Heap (h_vertex h) (h_edge h) (h_lineLoop h)
         (foldl (fun g e => <[e := shift_ruledSurface offset (g e)]> g)
                (h_ruledSurface h) l)
         (h_surfaceLoop h) (h_volume h) (h_next h).
Proof.
  revert h. induction l as [|e l IH]; intros h; [destruct h; reflexivity|].
  simpl. rewrite IH. reflexivity.
Qed.

Lemma shift_fold_surfaceLoops offset l h :
  foldl (shift_Id offset SurfaceLoops) h l
  = Heap (h_vertex h) (h_edge h) (h_lineLoop h) (h_ruledSurface h)
         (foldl (fun g e => <[e := shift_surfaceLoop offset (g e)]> g)
                (h_surfaceLoop h) l)
         (h_volume h) (h_next h).
Proof.
  revert h. induction l as [|e l IH]; intros h; [destruct h; reflexivity|].
  simpl. rewrite IH. reflexivity.
Qed.

Lemma shift_fold_volumes offset l h :
  foldl (shift_Id offset Volumes) h l
  = Heap (h_vertex h) (h_edge h) (h_lineLoop h) (h_ruledSurface h)
         (h_surfaceLoop h)
         (foldl (fun g e => <[e := shift_volume offset (g e)]> g) (h_volume h) l)
         (h_next h).
Proof.
  revert h. induction l as [|e l IH]; intros h; [destruct h; reflexivity|].
  simpl. rewrite IH. reflexivity.
Qed.

Lemma incrementAllIDs_run offset st :
  incrementAllIDs offset st
  = (Ok tt,
     State
       (Heap
          (foldl (fun g e => <[e := shift_vertex offset (g e)]> g)
                 (h_vertex (st_heap st)) (vertices (st_dom st)))
          (foldl (fun g e => <[e := shift_edge offset (g e)]> g)
                 (h_edge (st_heap st)) (lines (st_dom st) ++ arcs (st_dom st)))
          (foldl (fun g e => <[e := shift_lineLoop offset (g e)]> g)
                 (h_lineLoop (st_heap st)) (lineLoops (st_dom st)))
          (foldl (fun g e => <[e := shift_ruledSurface offset (g e)]> g)
                 (h_ruledSurface (st_heap st)) (ruledSurfaces (st_dom st)))
          (foldl (fun g e => <[e := shift_surfaceLoop offset (g e)]> g)
                 (h_surfaceLoop (st_heap st)) (surfaceLoops (st_dom st)))
          (foldl (fun g e => <[e := shift_volume offset (g e)]> g)
                 (h_volume (st_heap st)) (volumes (st_dom st)))
          (h_next (st_heap st)))
       (st_dom st) (st_out st)).
Proof.
  destruct st as [h d out]. unfold incrementAllIDs, incrementIDs, bind, modify, set_heap.
  simpl. rewrite shift_fold_vertices. simpl. rewrite shift_fold_lines. simpl.
  rewrite shift_fold_arcs. simpl. rewrite shift_fold_lineLoops. simpl.
  rewrite shift_fold_ruledSurfaces. simpl. rewrite shift_fold_surfaceLoops. simpl.
  rewrite shift_fold_volumes. simpl. rewrite foldl_app. reflexivity.
Qed.

Lemma distinct_Ids_shift (IdOf IdOf' : ref -> Z) offset (l l' : list ref) :
  (forall r, r ∈ l -> r ∈ l') ->
  (forall r, r ∈ l' -> IdOf' r = IdOf r + offset) ->
  distinct_Ids IdOf l -> distinct_Ids IdOf' l.
Proof.
  unfold distinct_Ids. intros Hsub Hshift Hnd.
  apply NoDup_fmap_2_strong; [|eapply NoDup_fmap_1; exact Hnd].
  intros x y Hx Hy Heq.
  rewrite !Hshift in Heq by auto.
  assert (Hxy : IdOf x = IdOf y) by lia.
  revert Hx Hy Hxy. clear -Hnd. induction l as [|a l IH]; intros Hx Hy Hxy.
  - inversion Hx.
  - simpl in Hnd. apply list.NoDup_cons in Hnd as [Hnotin Hnd].
    apply elem_of_cons in Hx as [->|Hx]; apply elem_of_cons in Hy as [->|Hy]; auto.
    + exfalso. apply Hnotin. rewrite Hxy. apply list_elem_of_fmap_2. exact Hy.
    + exfalso. apply Hnotin. rewrite <- Hxy. apply list_elem_of_fmap_2. exact Hx.
Qed.

(** C10: on a domain in which no object is listed twice,
    [incrementAllIDs] moves the Id of every listed vertex, line, arc, line
    loop, ruled surface, surface loop and volume by [offset], once, and
    changes nothing else: all other attributes, all other objects and the
    lists of the domain stay as they are.  Pairwise distinct Ids within each
    list stay pairwise distinct. *)
Theorem incrementAllIDs_spec (offset : Z) (st : state) :
  no_repeats (st_dom st) ->
  let st' := snd (incrementAllIDs offset st) in
  fst (incrementAllIDs offset st) = Ok tt /\
  st_dom st' = st_dom st /\
  st_out st' = st_out st /\
  h_next (st_heap st') = h_next (st_heap st) /\
  (forall r, h_vertex (st_heap st') r
     = on_members (vertices (st_dom st)) (shift_vertex offset)
                  (h_vertex (st_heap st)) r) /\
  (forall r, h_edge (st_heap st') r
     = on_members (lines (st_dom st) ++ arcs (st_dom st)) (shift_edge offset)
                  (h_edge (st_heap st)) r) /\
  (forall r, h_lineLoop (st_heap st') r
     = on_members (lineLoops (st_dom st)) (shift_lineLoop offset)
                  (h_lineLoop (st_heap st)) r) /\
  (forall r, h_ruledSurface (st_heap st') r
     = on_members (ruledSurfaces (st_dom st)) (shift_ruledSurface offset)
                  (h_ruledSurface (st_heap st)) r) /\
  (forall r, h_surfaceLoop (st_heap st') r
     = on_members (surfaceLoops (st_dom st)) (shift_surfaceLoop offset)
                  (h_surfaceLoop (st_heap st)) r) /\
  (forall r, h_volume (st_heap st') r
     = on_members (volumes (st_dom st)) (shift_volume offset)
                  (h_volume (st_heap st)) r) /\
  (Ids_distinct st -> Ids_distinct st').
Proof.
  intros (Hv & He & Hll & Hrs & Hsl & Hvol & Hsub). cbv zeta.
  rewrite incrementAllIDs_run. simpl.
  assert (Hfv := fun r => foldl_update (shift_vertex offset) _ (h_vertex (st_heap st)) r Hv).
  assert (Hfe := fun r => foldl_update (shift_edge offset) _ (h_edge (st_heap st)) r He).
  assert (Hfl := fun r => foldl_update (shift_lineLoop offset) _ (h_lineLoop (st_heap st)) r Hll).
  assert (Hfr := fun r => foldl_update (shift_ruledSurface offset) _ (h_ruledSurface (st_heap st)) r Hrs).
  assert (Hfs := fun r => foldl_update (shift_surfaceLoop offset) _ (h_surfaceLoop (st_heap st)) r Hsl).
  assert (Hfo := fun r => foldl_update (shift_volume offset) _ (h_volume (st_heap st)) r Hvol).
  repeat split; auto.
  all: destruct H as (D1 & D2 & D3 & D4 & D5 & D6).
  - eapply (distinct_Ids_shift _ _ offset _ (vertices (st_dom st))); [auto| |exact D1].
    intros r Hr. unfold vertex_Id. simpl. rewrite Hfv. unfold on_members.
    rewrite bool_decide_eq_true_2 by exact Hr. reflexivity.
  - eapply (distinct_Ids_shift _ _ offset _ (lines (st_dom st) ++ arcs (st_dom st)));
      [exact Hsub| |exact D2].
    intros r Hr. unfold edge_Id. simpl. rewrite Hfe. unfold on_members.
    rewrite bool_decide_eq_true_2 by exact Hr. reflexivity.
  - eapply (distinct_Ids_shift _ _ offset _ (lineLoops (st_dom st))); [auto| |exact D3].
    intros r Hr. unfold lineLoop_Id. simpl. rewrite Hfl. unfold on_members.
    rewrite bool_decide_eq_true_2 by exact Hr. reflexivity.
  - eapply (distinct_Ids_shift _ _ offset _ (ruledSurfaces (st_dom st))); [auto| |exact D4].
    intros r Hr. unfold ruledSurface_Id. simpl. rewrite Hfr. unfold on_members.
    rewrite bool_decide_eq_true_2 by exact Hr. reflexivity.
  - eapply (distinct_Ids_shift _ _ offset _ (surfaceLoops (st_dom st))); [auto| |exact D5].
    intros r Hr. unfold surfaceLoop_Id. simpl. rewrite Hfs. unfold on_members.
    rewrite bool_decide_eq_true_2 by exact Hr. reflexivity.
  - eapply (distinct_Ids_shift _ _ offset _ (volumes (st_dom st))); [auto| |exact D6].
    intros r Hr. unfold volume_Id. simpl. rewrite Hfo. unfold on_members.
    rewrite bool_decide_eq_true_2 by exact Hr. reflexivity.
Qed.

Lemma triangle_no_repeats : no_repeats (st_dom triangle_state).
Proof.
  unfold no_repeats.
  assert (E : st_dom triangle_state
              = Domain [3; 4; 5]%nat [0; 1; 2]%nat [] [3; 4; 5]%nat [6]%nat [] [] [])
    by (vm_compute; reflexivity).
  rewrite E. simpl.
  repeat split; compute_done.
Qed.

Lemma incrementAllIDs_spec_witness :
  no_repeats (st_dom triangle_state) /\
  fst (incrementAllIDs 10 triangle_state) = Ok tt /\
  vertex_Id (snd (incrementAllIDs 10 triangle_state)) 0%nat = 11.
Proof.
  split; [exact triangle_no_repeats|].
  destruct (incrementAllIDs_spec 10 triangle_state triangle_no_repeats)
    as (Hok & _ & _ & _ & Hv & _).
  split; [exact Hok|].
  unfold vertex_Id. rewrite Hv. vm_compute. reflexivity.
Defined.

(** ** The geometry file *)

Lemma append_assoc (a b c : string) : (a +:+ b) +:+ c = a +:+ (b +:+ c).
Proof.
  induction a as [|x a IH]; [reflexivity|].
  change (String x ((a +:+ b) +:+ c) = String x (a +:+ (b +:+ c))).
  rewrite IH. reflexivity.
Qed.

Lemma append_empty_r (a : string) : a +:+ EmptyString = a.
Proof.
  induction a as [|x a IH]; [reflexivity|].
  change (String x (a +:+ EmptyString) = String x a). rewrite IH. reflexivity.
Qed.

Lemma extend_extend f h r : extend (f +:+ h) r = extend f (extend h r).
Proof. destruct r; simpl; [rewrite append_assoc|]; reflexivity. Qed.

Lemma extend_empty r : extend EmptyString r = r.
Proof. destruct r; reflexivity. Qed.

Lemma bind_assoc {N A B C} (m : M_of N A) (k1 : A -> M_of N B) (k2 : B -> M_of N C) st :
  bind (bind m k1) k2 st = bind m (fun a => bind (k1 a) k2) st.
Proof. unfold bind. destruct (m st) as [[a|e] st']; reflexivity. Qed.

Section WriterText.

Context {N : Type}.
Variable str_number : N -> string.

Lemma xyz_run (x : list N) (st : state_of N) :
  xyz x st = (match x with
              | x0 :: x1 :: x2 :: _ => Ok (x0, x1, x2)
              | _ => Raise IndexError
              end, st).
Proof. destruct x as [|x0 [|x1 [|x2 x]]]; reflexivity. Qed.

Lemma chunk_fold {A} (body : string -> A -> M_of N string) (l : list A) st :
  (forall x, exists r, forall acc, body acc x st = (extend acc r, st)) ->
  exists r, forall acc, fold_M body acc l st = (extend acc r, st).
Proof.
  intros Hbody. induction l as [|x l [rl IH]].
  - exists (Ok EmptyString). intros acc. simpl.
    rewrite append_empty_r. reflexivity.
  - destruct (Hbody x) as [[t|e] Hx].
    + exists (extend t rl). intros acc. simpl.
      erewrite bind_ok by apply Hx. rewrite IH. rewrite extend_extend. reflexivity.
    + exists (Raise e). intros acc. simpl.
      erewrite bind_raise by apply Hx. reflexivity.
Qed.

Lemma vertex_chunk v (st : state_of N) :
  exists r, forall f, vertex_writeToFile str_number v f st = (extend f r, st).
Proof.
  unfold vertex_writeToFile.
  destruct (v_x (h_vertex (st_heap st) v)) as [|x0 [|x1 [|x2 x]]] eqn:E.
  1-3: exists (Raise IndexError); intros f; erewrite bind_ok by reflexivity;
       cbv beta zeta; rewrite E; reflexivity.
  eexists (Ok _). intros f. erewrite bind_ok by reflexivity. cbv beta zeta.
  rewrite E. reflexivity.
Qed.

Lemma edge_chunk v (st : state_of N) :
  exists r, forall f, edge_writeToFile v f st = (extend f r, st).
Proof.
  unfold edge_writeToFile.
  destruct (e_kind (h_edge (st_heap st) v)) eqn:E.
  - eexists (Ok _). intros f. erewrite bind_ok by reflexivity. cbv beta zeta.
    rewrite E. reflexivity.
  - eexists (Ok _). intros f. erewrite bind_ok by reflexivity. cbv beta zeta.
    rewrite E. reflexivity.
Qed.

Lemma ruledSurface_chunk v (st : state_of N) :
  exists r, forall f, ruledSurface_writeToFile v f st = (extend f r, st).
Proof.
  unfold ruledSurface_writeToFile.
  destruct (rs_lineLoop (h_ruledSurface (st_heap st) v)) eqn:E.
  - eexists (Ok _). intros f. erewrite bind_ok by reflexivity. cbv beta zeta.
    rewrite E. reflexivity.
  - exists (Raise AttributeError). intros f. erewrite bind_ok by reflexivity.
    cbv beta zeta. rewrite E. reflexivity.
Qed.

Lemma volume_chunk v (st : state_of N) :
  exists r, forall f, volume_writeToFile v f st = (extend f r, st).
Proof.
  unfold volume_writeToFile.
  destruct (vol_surfaceLoop (h_volume (st_heap st) v)) eqn:E.
  - eexists (Ok _). intros f. erewrite bind_ok by reflexivity. cbv beta zeta.
    rewrite E. reflexivity.
  - exists (Raise AttributeError). intros f. erewrite bind_ok by reflexivity.
    cbv beta zeta. rewrite E. reflexivity.
Qed.

Lemma lineLoop_chunk v (st : state_of N) :
  exists r, forall f, lineLoop_writeToFile v f st = (extend f r, st).
Proof.
  unfold lineLoop_writeToFile.
  set (l := h_lineLoop (st_heap st) v).
  edestruct (chunk_fold (fun f i =>
      do s <- index (ll_edges l) i;
      do o <- index (ll_orientations l) i;
      do s <- attr s;
      let f := f +:+ str (o * edge_Id st s) in
      if bool_decide (Z.of_nat i ≠ Z.of_nat (length (ll_edges l)) - 1)
      then ret (f +:+ ",")
      else ret (f +:+ "};" +:+ nl)) (seq 0 (length (ll_edges l))) st) as [r Hr].
  - intros i. destruct (ll_edges l !! i) as [s|] eqn:Es.
    2:{ exists (Raise IndexError). intros acc.
        erewrite bind_raise by (apply index_raise; exact Es). reflexivity. }
    destruct (ll_orientations l !! i) as [o|] eqn:Eo.
    2:{ exists (Raise IndexError). intros acc.
        erewrite bind_ok by (apply index_ok; exact Es).
        erewrite bind_raise by (apply index_raise; exact Eo). reflexivity. }
    destruct s as [s|].
    2:{ exists (Raise AttributeError). intros acc.
        erewrite bind_ok by (apply index_ok; exact Es).
        erewrite bind_ok by (apply index_ok; exact Eo). reflexivity. }
    case_bool_decide.
    + eexists (Ok _). intros acc.
      erewrite bind_ok by (apply index_ok; exact Es).
      erewrite bind_ok by (apply index_ok; exact Eo).
      erewrite bind_ok by reflexivity. cbv zeta.
      unfold ret, extend. rewrite append_assoc. reflexivity.
    + eexists (Ok _). intros acc.
      erewrite bind_ok by (apply index_ok; exact Es).
      erewrite bind_ok by (apply index_ok; exact Eo).
      erewrite bind_ok by reflexivity. cbv zeta.
      unfold ret, extend. rewrite append_assoc. reflexivity.
  - eexists (extend _ r). intros f. erewrite bind_ok by reflexivity. cbv beta zeta.
    fold l. rewrite Hr. rewrite extend_extend. reflexivity.
Qed.

Lemma surfaceLoop_chunk v (st : state_of N) :
  exists r, forall f, surfaceLoop_writeToFile v f st = (extend f r, st).
Proof.
  unfold surfaceLoop_writeToFile.
  set (l := h_surfaceLoop (st_heap st) v).
  edestruct (chunk_fold (fun f i =>
      do s <- index (sl_surfaces l) i;
      do s <- attr s;
      let f := f +:+ str (ruledSurface_Id st s) in
      if bool_decide (Z.of_nat i ≠ Z.of_nat (length (sl_surfaces l)) - 1)
      then ret (f +:+ ",")
      else ret (f +:+ "};" +:+ nl)) (seq 0 (length (sl_surfaces l))) st) as [r Hr].
  - intros i. destruct (sl_surfaces l !! i) as [s|] eqn:Es.
    2:{ exists (Raise IndexError). intros acc.
        erewrite bind_raise by (apply index_raise; exact Es). reflexivity. }
    destruct s as [s|].
    2:{ exists (Raise AttributeError). intros acc.
        erewrite bind_ok by (apply index_ok; exact Es). reflexivity. }
    case_bool_decide.
    + eexists (Ok _). intros acc.
      erewrite bind_ok by (apply index_ok; exact Es).
      erewrite bind_ok by reflexivity. cbv zeta.
      unfold ret, extend. rewrite append_assoc. reflexivity.
    + eexists (Ok _). intros acc.
      erewrite bind_ok by (apply index_ok; exact Es).
      erewrite bind_ok by reflexivity. cbv zeta.
      unfold ret, extend. rewrite append_assoc. reflexivity.
  - eexists (extend _ r). intros f. erewrite bind_ok by reflexivity. cbv beta zeta.
    fold l. rewrite Hr. rewrite extend_extend. reflexivity.
Qed.

Lemma entity_chunk el v f (st : state_of N) :
  entity_writeToFile str_number el v f st
  = (extend f (entity_text str_number st el v), st).
Proof.
  assert (H : exists r, forall f,
            entity_writeToFile str_number el v f st = (extend f r, st)).
  { destruct el; simpl.
    - apply vertex_chunk.
    - apply edge_chunk.
    - apply edge_chunk.
    - apply lineLoop_chunk.
    - apply ruledSurface_chunk.
    - apply surfaceLoop_chunk.
    - apply volume_chunk. }
  destruct H as [r Hr]. unfold entity_text. rewrite (Hr EmptyString). simpl.
  rewrite extend_empty. apply Hr.
Qed.

Lemma write_all (st : state_of N) el (text : ref -> string) (l : list ref) f :
  (forall v, v ∈ l -> entity_text str_number st el v = Ok (text v)) ->
  bind (fold_M (fun f v => entity_writeToFile str_number el v f) f l)
       (fun f => ret (f +:+ nl)) st
  = (Ok (f +:+ foldr (fun v t => text v +:+ t) nl l), st).
Proof.
  revert f. induction l as [|v l IH]; intros f Hl.
  - reflexivity.
  - simpl fold_M. simpl foldr. rewrite bind_assoc.
    erewrite bind_ok.
    2:{ rewrite entity_chunk, (Hl v) by left. reflexivity. }
    rewrite IH by (intros; apply Hl; right; assumption).
    rewrite append_assoc. reflexivity.
Qed.

End WriterText.

(** ** The invariant of the domain *)

Lemma hoare_bind {A B} (P Q R : state -> Prop) (m : M A) (k : A -> M B) :
  hoare P m Q -> (forall a, hoare Q (k a) R) -> (forall st, Q st -> R st) ->
  hoare P (bind m k) R.
Proof.
  intros Hm Hk Hraise st HP. specialize (Hm st HP). unfold bind.
  destruct (m st) as [[a|e] st']; simpl in *.
  - apply Hk. exact Hm.
  - apply Hraise. exact Hm.
Qed.

Lemma hoare_keep_bind {A B} (P : state -> Prop) (m : M A) (k : A -> M B) :
  hoare P m P -> (forall a, hoare P (k a) P) -> hoare P (bind m k) P.
Proof. intros Hm Hk. eapply hoare_bind; eauto. Qed.

Lemma hoare_get_bind {B} (P Q : state -> Prop) (k : state -> M B) :
  (forall st0, hoare (fun st => st = st0 /\ P st) (k st0) Q) ->
  hoare P (bind get k) Q.
Proof. intros Hk st HP. unfold bind, get. apply (Hk st). auto. Qed.

Lemma hoare_weaken {A} (P P' Q Q' : state -> Prop) (m : M A) :
  hoare P' m Q' -> (forall st, P st -> P' st) -> (forall st, Q' st -> Q st) ->
  hoare P m Q.
Proof. intros H HP HQ st Hst. apply HQ, H, HP, Hst. Qed.

Lemma hoare_ret {A} (P : state -> Prop) (a : A) : hoare P (ret a) P.
Proof. intros st H. exact H. Qed.

Lemma hoare_raise {A} (P : state -> Prop) e : hoare P (@raise Z A e) P.
Proof. intros st H. exact H. Qed.

Lemma hoare_get (P : state -> Prop) : hoare P get P.
Proof. intros st H. exact H. Qed.

Lemma hoare_index {A} (P : state -> Prop) (l : list A) i : hoare P (index l i) P.
Proof. intros st H. unfold index. destruct (l !! i); exact H. Qed.

Lemma hoare_attr {A} (P : state -> Prop) (o : option A) : hoare P (attr o) P.
Proof. intros st H. destruct o; exact H. Qed.

Lemma hoare_map_M {A B} (P : state -> Prop) (l : list A) (body : A -> M B) :
  (forall x, hoare P (body x) P) -> hoare P (map_M l body) P.
Proof.
  intros Hb. induction l as [|x l IH]; simpl.
  - apply hoare_ret.
  - apply hoare_keep_bind; [apply Hb|]. intros y.
    apply hoare_keep_bind; [exact IH|]. intros ys. apply hoare_ret.
Qed.

Lemma hoare_for_each {A} (P : state -> Prop) (l : list A) (body : A -> M unit) :
  (forall x, hoare P (body x) P) -> hoare P (for_each l body) P.
Proof.
  intros Hb. induction l as [|x l IH]; simpl.
  - apply hoare_ret.
  - apply hoare_keep_bind; [apply Hb|]. intros _. exact IH.
Qed.

Lemma hoare_fold_M {A B} (P : state -> Prop) (l : list A) (body : B -> A -> M B) acc :
  (forall acc x, hoare P (body acc x) P) -> hoare P (fold_M body acc l) P.
Proof.
  intros Hb. revert acc. induction l as [|x l IH]; intros acc; simpl.
  - apply hoare_ret.
  - apply hoare_keep_bind; [apply Hb|]. intros acc'. apply IH.
Qed.

(** States with the same identifiers *)

Lemma same_Ids_refl st : same_Ids st st.
Proof. unfold same_Ids. repeat split; reflexivity. Qed.

Lemma same_Ids_trans st1 st2 st3 :
  same_Ids st1 st2 -> same_Ids st2 st3 -> same_Ids st1 st3.
Proof.
  unfold same_Ids. intros (D1 & N1 & V1 & E1 & L1 & R1 & S1 & O1)
                          (D2 & N2 & V2 & E2 & L2 & R2 & S2 & O2).
  repeat split; intros; congruence.
Qed.

Lemma same_Ids_out h d o o' : same_Ids (State h d o) (State h d o').
Proof. unfold same_Ids. repeat split; reflexivity. Qed.

Lemma stable_bind {A B} (m : M A) (k : A -> M B) :
  stable m -> (forall a, stable (k a)) -> stable (bind m k).
Proof.
  intros Hm Hk st. specialize (Hm st). unfold bind.
  destruct (m st) as [[a|e] st']; simpl in *.
  - eapply same_Ids_trans; [exact Hm|apply Hk].
  - exact Hm.
Qed.

Lemma stable_ret {A} (a : A) : stable (ret a).
Proof. intros st. apply same_Ids_refl. Qed.

Lemma stable_raise {A} e : stable (@raise Z A e).
Proof. intros st. apply same_Ids_refl. Qed.

Lemma stable_get : stable get.
Proof. intros st. apply same_Ids_refl. Qed.

Lemma stable_index {A} (l : list A) i : stable (index l i).
Proof. intros st. unfold index. destruct (l !! i); apply same_Ids_refl. Qed.

Lemma stable_attr {A} (o : option A) : stable (attr o).
Proof. intros st. destruct o; apply same_Ids_refl. Qed.

Lemma stable_print m : stable (print_msg m).
Proof. intros [h d o]. apply same_Ids_out. Qed.

Lemma stable_map_M {A B} (l : list A) (body : A -> M B) :
  (forall x, stable (body x)) -> stable (map_M l body).
Proof.
  intros Hb. induction l as [|x l IH]; simpl.
  - apply stable_ret.
  - apply stable_bind; [apply Hb|]. intros y.
    apply stable_bind; [exact IH|]. intros ys. apply stable_ret.
Qed.

Lemma stable_fold_M {A B} (l : list A) (body : B -> A -> M B) acc :
  (forall acc x, stable (body acc x)) -> stable (fold_M body acc l).
Proof.
  intros Hb. revert acc. induction l as [|x l IH]; intros acc; simpl.
  - apply stable_ret.
  - apply stable_bind; [apply Hb|]. intros acc'. apply IH.
Qed.

Lemma well_formed_same_Ids pend st st' :
  same_Ids st st' -> well_formed pend st -> well_formed pend st'.
Proof.
  intros (D & N & V & E & L & R & S & O) (Ha & Hd & Hp & Hpend).
  unfold well_formed, allocated, Ids_distinct, distinct_Ids, pending in *.
  rewrite D, N.
  rewrite (list_fmap_ext _ _ _ (fun _ x _ => V x)).
  rewrite (list_fmap_ext _ _ _ (fun _ x _ => E x)).
  rewrite (list_fmap_ext _ _ _ (fun _ x _ => L x)).
  rewrite (list_fmap_ext _ _ _ (fun _ x _ => R x)).
  rewrite (list_fmap_ext _ _ _ (fun _ x _ => S x)).
  rewrite (list_fmap_ext _ _ _ (fun _ x _ => O x)).
  repeat split; try tauto.
  eapply list.Forall_impl; [exact Hpend|]. intros [s n]. simpl. rewrite R. tauto.
Qed.

Lemma stable_hoare {A} pend (m : M A) :
  stable m -> hoare (well_formed pend) m (well_formed pend).
Proof. intros Hs st Hwf. eapply well_formed_same_Ids; [apply Hs|exact Hwf]. Qed.

(** Creating an object and listing it *)

Lemma distinct_Ids_ext (IdOf g : ref -> Z) l :
  (forall x, x ∈ l -> g x = IdOf x) -> distinct_Ids IdOf l -> distinct_Ids g l.
Proof.
  unfold distinct_Ids. intros Heq Hnd.
  rewrite (list_fmap_ext g IdOf l); [exact Hnd|].
  intros i x Hx. apply Heq. eapply list_elem_of_lookup_2. exact Hx.
Qed.

Lemma distinct_Ids_snoc (IdOf g : ref -> Z) l r :
  (forall x, x ∈ l -> g x = IdOf x) ->
  g r ∉ IdOf <$> l ->
  distinct_Ids IdOf l -> distinct_Ids g (l ++ [r]).
Proof.
  unfold distinct_Ids. intros Heq Hfresh Hnd.
  rewrite fmap_app. simpl. apply list.NoDup_app. split; [|split].
  - apply (distinct_Ids_ext IdOf g l Heq Hnd).
  - intros y Hy Hy'. apply list_elem_of_singleton in Hy'. subst y.
    apply Hfresh. rewrite <- (list_fmap_ext g IdOf l); [exact Hy|].
    intros i x Hx. apply Heq. eapply list_elem_of_lookup_2. exact Hx.
  - apply list.NoDup_singleton.
Qed.

Lemma list_step_distinct IdOf g l l' r :
  (forall x, x <> r -> g x = IdOf x) ->
  Forall (fun x => (x < r)%nat) l ->
  list_step IdOf g l l' r ->
  distinct_Ids IdOf l -> distinct_Ids g l'.
Proof.
  intros Heq Hlt [-> | [-> Hfresh]] Hnd.
  - apply (distinct_Ids_ext IdOf); [|exact Hnd].
    intros x Hx. apply Heq. rewrite list.Forall_forall in Hlt. apply Hlt in Hx. lia.
  - apply (distinct_Ids_snoc IdOf); [|exact Hfresh|exact Hnd].
    intros x Hx. apply Heq. rewrite list.Forall_forall in Hlt. apply Hlt in Hx. lia.
Qed.

Lemma list_step_bound IdOf g l l' r :
  list_step IdOf g l l' r ->
  Forall (fun x => (x < r)%nat) l -> Forall (fun x => (x < S r)%nat) l'.
Proof.
  intros [-> | [-> _]] Hlt.
  - eapply list.Forall_impl; [exact Hlt|]. intros; simpl in *; lia.
  - apply Forall_app. split.
    + eapply list.Forall_impl; [exact Hlt|]. intros; simpl in *; lia.
    + repeat constructor.
Qed.

Lemma well_formed_alloc pend st st' :
  let r := h_next (st_heap st) in
  let d := st_dom st in
  let d' := st_dom st' in
  well_formed pend st ->
  h_next (st_heap st') = S r ->
  (forall x, x <> r -> vertex_Id st' x = vertex_Id st x) ->
  (forall x, x <> r -> edge_Id st' x = edge_Id st x) ->
  (forall x, x <> r -> lineLoop_Id st' x = lineLoop_Id st x) ->
  (forall x, x <> r -> ruledSurface_Id st' x = ruledSurface_Id st x) ->
  (forall x, x <> r -> surfaceLoop_Id st' x = surfaceLoop_Id st x) ->
  (forall x, x <> r -> volume_Id st' x = volume_Id st x) ->
  list_step (vertex_Id st) (vertex_Id st') (vertices d) (vertices d') r ->
  list_step (edge_Id st) (edge_Id st') (edges d) (edges d') r ->
  list_step (edge_Id st) (edge_Id st') (lines d) (lines d') r ->
  list_step (edge_Id st) (edge_Id st') (arcs d) (arcs d') r ->
  list_step (lineLoop_Id st) (lineLoop_Id st') (lineLoops d) (lineLoops d') r ->
  ruledSurfaces d' = ruledSurfaces d ->
  list_step (surfaceLoop_Id st) (surfaceLoop_Id st') (surfaceLoops d) (surfaceLoops d') r ->
  list_step (volume_Id st) (volume_Id st') (volumes d) (volumes d') r ->
  edges d' ≡ₚ lines d' ++ arcs d' ->
  well_formed pend st'.
Proof.
  intros r d d' (Ha & Hd & Hp & Hpend) Hn HV HE HL HR HS HO SV SE SLi SA SL SR SS SO Hperm.
  unfold allocated, all_refs in Ha. fold d in Ha. fold r in Ha.
  rewrite !Forall_app in Ha.
  destruct Ha as (AV & AE & ALi & AA & AL & AR & AS & AO).
  destruct Hd as (DV & DE & DL & DR & DS & DO).
  unfold well_formed. split; [|split; [|split]].
  - unfold allocated, all_refs. fold d'. rewrite Hn. rewrite !Forall_app.
    repeat split; try (eapply list_step_bound; eassumption).
    rewrite SR. eapply list.Forall_impl; [exact AR|]. intros; simpl in *; lia.
  - unfold Ids_distinct. fold d'. repeat split.
    + eapply list_step_distinct; [exact HV|exact AV|exact SV|exact DV].
    + eapply list_step_distinct; [exact HE|exact AE|exact SE|exact DE].
    + eapply list_step_distinct; [exact HL|exact AL|exact SL|exact DL].
    + rewrite SR. eapply (distinct_Ids_ext (ruledSurface_Id st)); [|exact DR].
      intros x Hx. apply HR. rewrite list.Forall_forall in AR. apply AR in Hx. lia.
    + eapply list_step_distinct; [exact HS|exact AS|exact SS|exact DS].
    + eapply list_step_distinct; [exact HO|exact AO|exact SO|exact DO].
  - exact Hperm.
  - eapply list.Forall_impl; [exact Hpend|]. intros [s n] (P1 & P2 & P3). simpl in *.
    fold r in P1. unfold pending. simpl. rewrite Hn. fold d'. rewrite SR.
    split; [lia|]. split; [rewrite HR by lia; exact P2|].
    rewrite (list_fmap_ext (ruledSurface_Id st') (ruledSurface_Id st)); [exact P3|].
    intros i x Hx. apply HR. apply list_elem_of_lookup_2 in Hx.
    rewrite list.Forall_forall in AR. apply AR in Hx. lia.
Qed.

Ltac solve_old_Ids :=
  intros ? ?;
  unfold vertex_Id, edge_Id, lineLoop_Id, ruledSurface_Id, surfaceLoop_Id, volume_Id;
  simpl; try reflexivity; rewrite fn_lookup_insert_ne by congruence; reflexivity.

Ltac solve_list_step :=
  first [ left; reflexivity
        | right; split; [reflexivity|];
          unfold vertex_Id, edge_Id, lineLoop_Id, surfaceLoop_Id, volume_Id;
          simpl; rewrite fn_lookup_insert; simpl; assumption ].

Lemma addVertex_well_formed pend x Id volSize :
  hoare (well_formed pend) (addVertex x Id volSize) (well_formed pend).
Proof.
  intros st Hwf. unfold addVertex.
  erewrite bind_ok by reflexivity.
  destruct (getNewId_run (vertex_Id st) (vertices (st_dom st)) Id st)
    as (newId & out & Hrun & Hfresh & _).
  erewrite bind_ok by exact Hrun.
  erewrite bind_ok by reflexivity. erewrite bind_ok by reflexivity.
  destruct st as [h d o]. simpl in *.
  eapply (well_formed_alloc pend (State h d o)); try exact Hwf; simpl;
    try solve_old_Ids; try solve_list_step; try reflexivity.
  destruct Hwf as (_ & _ & Hp & _). exact Hp.
Qed.

Lemma addLine_well_formed pend v1 v2 Id :
  hoare (well_formed pend) (addLine v1 v2 Id) (well_formed pend).
Proof.
  intros st Hwf. unfold addLine.
  erewrite bind_ok by reflexivity.
  destruct (getNewId_run (edge_Id st) (edges (st_dom st)) Id st)
    as (newId & out & Hrun & Hfresh & _).
  erewrite bind_ok by exact Hrun.
  erewrite bind_ok by reflexivity. erewrite bind_ok by reflexivity.
  erewrite bind_ok by reflexivity.
  destruct st as [h d o]. simpl in *.
  assert (Hwf' := Hwf). destruct Hwf' as (Ha & (_ & DE & _) & Hp & _).
  assert (Hfl : newId ∉ edge_Id (State h d o) <$> lines d).
  { intros Hin. apply Hfresh. unfold objAttrToList.
    apply list_elem_of_fmap in Hin as (y & -> & Hy).
    apply list_elem_of_fmap_2. rewrite Hp. apply elem_of_app. left. exact Hy. }
  eapply (well_formed_alloc pend (State h d o)); try exact Hwf; simpl;
    try solve_old_Ids; try solve_list_step; try reflexivity.
  simpl. rewrite Hp. rewrite <- !app_assoc. apply Permutation_app_head.
  apply Permutation_app_comm.
Qed.

Lemma addArc_well_formed pend vstart vcenter vend Id :
  hoare (well_formed pend) (addArc vstart vcenter vend Id) (well_formed pend).
Proof.
  intros st Hwf. unfold addArc.
  erewrite bind_ok by reflexivity.
  destruct (getNewId_run (edge_Id st) (edges (st_dom st)) Id st)
    as (newId & out & Hrun & Hfresh & _).
  erewrite bind_ok by exact Hrun.
  erewrite bind_ok by reflexivity. erewrite bind_ok by reflexivity.
  erewrite bind_ok by reflexivity.
  destruct st as [h d o]. simpl in *.
  assert (Hwf' := Hwf). destruct Hwf' as (Ha & (_ & DE & _) & Hp & _).
  assert (Hfl : newId ∉ edge_Id (State h d o) <$> arcs d).
  { intros Hin. apply Hfresh. unfold objAttrToList.
    apply list_elem_of_fmap in Hin as (y & -> & Hy).
    apply list_elem_of_fmap_2. rewrite Hp. apply elem_of_app. right. exact Hy. }
  eapply (well_formed_alloc pend (State h d o)); try exact Hwf; simpl;
    try solve_old_Ids; try solve_list_step; try reflexivity.
  simpl. rewrite Hp. rewrite app_assoc. reflexivity.
Qed.

Lemma initEdges_Id st self IDs : ll_Id (initEdges st self IDs) = ll_Id self.
Proof.
  unfold initEdges.
  assert (H : forall l, ll_Id (foldl (addEdgeByID st) l IDs) = ll_Id l).
  { induction IDs as [|ID IDs IH]; intros l; simpl; [reflexivity|].
    rewrite IH. reflexivity. }
  rewrite H. reflexivity.
Qed.

Lemma addLineLoop_well_formed pend Id edgeIDs :
  hoare (well_formed pend) (addLineLoop Id edgeIDs) (well_formed pend).
Proof.
  intros st Hwf. unfold addLineLoop.
  erewrite bind_ok by reflexivity.
  destruct (getNewId_run (lineLoop_Id st) (lineLoops (st_dom st)) Id st)
    as (newId & out & Hrun & Hfresh & _).
  erewrite bind_ok by exact Hrun.
  erewrite bind_ok by reflexivity. erewrite bind_ok by reflexivity.
  erewrite bind_ok by reflexivity.
  destruct st as [h d o]. simpl in *.
  eapply (well_formed_alloc pend (State h d o)); try exact Hwf; simpl;
    try solve_old_Ids; try solve_list_step; try reflexivity.
  - right. split; [reflexivity|]. unfold lineLoop_Id. simpl.
    rewrite fn_lookup_insert, initEdges_Id. exact Hfresh.
  - destruct Hwf as (_ & _ & Hp & _). exact Hp.
Qed.

Lemma addSurfaceLoop_well_formed pend Id surfaceIDs :
  hoare (well_formed pend) (addSurfaceLoop Id surfaceIDs) (well_formed pend).
Proof.
  intros st Hwf. unfold addSurfaceLoop.
  erewrite bind_ok by reflexivity.
  destruct (getNewId_run (surfaceLoop_Id st) (surfaceLoops (st_dom st)) Id st)
    as (newId & out & Hrun & Hfresh & _).
  erewrite bind_ok by exact Hrun.
  erewrite bind_ok by reflexivity. erewrite bind_ok by reflexivity.
  erewrite bind_ok by reflexivity.
  destruct st as [h d o]. simpl in *.
  eapply (well_formed_alloc pend (State h d o)); try exact Hwf; simpl;
    try solve_old_Ids; try solve_list_step; try reflexivity.
  destruct Hwf as (_ & _ & Hp & _). exact Hp.
Qed.

Lemma addVolume_well_formed pend Id surfaceLoopID :
  hoare (well_formed pend) (addVolume Id surfaceLoopID) (well_formed pend).
Proof.
  intros st Hwf. unfold addVolume.
  erewrite bind_ok by reflexivity.
  destruct (getNewId_run (volume_Id st) (volumes (st_dom st)) Id st)
    as (newId & out & Hrun & Hfresh & _).
  erewrite bind_ok by exact Hrun.
  erewrite bind_ok by reflexivity. erewrite bind_ok by reflexivity.
  erewrite bind_ok by reflexivity.
  destruct st as [h d o]. simpl in *.
  eapply (well_formed_alloc pend (State h d o)); try exact Hwf; simpl;
    try solve_old_Ids; try solve_list_step; try reflexivity.
  destruct Hwf as (_ & _ & Hp & _). exact Hp.
Qed.

(** Computations that read, print, or flip orientations *)

Ltac stable_step :=
  match goal with
  | |- stable (bind _ _) => apply stable_bind; [|intros ?]
  | |- stable (ret _) => apply stable_ret
  | |- stable (raise _) => apply stable_raise
  | |- stable (modIdx _ _) => unfold modIdx; apply stable_raise
  | |- stable get => apply stable_get
  | |- stable (index _ _) => apply stable_index
  | |- stable (attr _) => apply stable_attr
  | |- stable (print_msg _) => apply stable_print
  | |- stable (printError _) => apply stable_print
  | |- stable (printWarning _) => apply stable_print
  | |- stable (map_M _ _) => apply stable_map_M; intros ?
  | |- stable (fold_M _ _ _) => apply stable_fold_M; intros ? ?
  | |- stable (if ?b then _ else _) => destruct b
  | |- stable (match ?x with _ => _ end) => destruct x
  | |- stable (let _ := _ in _) => cbv zeta
  end.

Lemma stable_getFirstVertex self o : stable (getFirstVertex self o).
Proof. unfold getFirstVertex. repeat stable_step. Qed.

Lemma stable_getLastVertex self o : stable (getLastVertex self o).
Proof. unfold getLastVertex. repeat stable_step. Qed.

Lemma stable_set_orientations self os : stable (set_orientations self os).
Proof.
  intros [h d o]. unfold set_orientations, modify, same_Ids. simpl.
  repeat split; try reflexivity.
  intros r. unfold lineLoop_Id. simpl.
  destruct (decide (r = self)) as [->|Hne].
  - rewrite fn_lookup_insert. reflexivity.
  - rewrite fn_lookup_insert_ne by congruence. reflexivity.
Qed.

Lemma stable_set_lineLoop self l : stable (set_lineLoop self l).
Proof.
  intros [h d o]. unfold set_lineLoop, modify, same_Ids. simpl.
  repeat split; try reflexivity.
  intros r. unfold ruledSurface_Id. simpl.
  destruct (decide (r = self)) as [->|Hne].
  - rewrite fn_lookup_insert. reflexivity.
  - rewrite fn_lookup_insert_ne by congruence. reflexivity.
Qed.

Lemma stable_list_index {A} `{EqDecision A} (x : A) l : stable (list_index x l).
Proof. unfold list_index. repeat stable_step. Qed.

Lemma stable_reverseEdge self ID : stable (reverseEdge self ID).
Proof.
  unfold reverseEdge. repeat stable_step.
  - apply stable_list_index.
  - apply stable_set_orientations.
Qed.

Lemma stable_checkClosed_body self fix_ debug b i :
  stable (checkClosed_body self fix_ debug b i).
Proof.
  unfold checkClosed_body.
  repeat first [ apply stable_getFirstVertex | apply stable_getLastVertex
               | apply stable_reverseEdge | stable_step ].
Qed.

Lemma stable_checkClosed self fix_ debug : stable (checkClosed self fix_ debug).
Proof.
  unfold checkClosed. apply stable_bind; [apply stable_get|]. intros st.
  apply stable_fold_M. intros. apply stable_checkClosed_body.
Qed.

Lemma stable_getVertices self : stable (getVertices self).
Proof.
  unfold getVertices. repeat first [ apply stable_getFirstVertex | stable_step ].
Qed.

Lemma stable_xyz x : stable (xyz x).
Proof. unfold xyz. repeat stable_step. Qed.

Lemma stable_getNormal self : stable (getNormal self).
Proof.
  unfold getNormal.
  repeat first [ apply stable_getVertices | apply stable_xyz | stable_step ].
Qed.

Lemma stable_coords_in_plane n coords : stable (coords_in_plane n coords).
Proof. unfold coords_in_plane. repeat stable_step. Qed.

Lemma stable_flipCoordinate x d o : stable (flipCoordinate x d o).
Proof. unfold flipCoordinate, lowercase_index. repeat stable_step. Qed.

(** Composite constructors *)

Ltac hoare_step :=
  match goal with
  | |- hoare ?P (bind _ _) ?P => apply hoare_keep_bind; [|intros ?]
  | |- hoare ?P (ret _) ?P => apply hoare_ret
  | |- hoare ?P (raise _) ?P => apply hoare_raise
  | |- hoare ?P (modIdx _ _) ?P => unfold modIdx; apply hoare_raise
  | |- hoare ?P get ?P => apply hoare_get
  | |- hoare ?P (index _ _) ?P => apply hoare_index
  | |- hoare ?P (attr _) ?P => apply hoare_attr
  | |- hoare _ (addVertex _ _ _) _ => apply addVertex_well_formed
  | |- hoare _ (addLine _ _ _) _ => apply addLine_well_formed
  | |- hoare _ (addArc _ _ _ _) _ => apply addArc_well_formed
  | |- hoare _ (addLineLoop _ _) _ => apply addLineLoop_well_formed
  | |- hoare _ (addSurfaceLoop _ _) _ => apply addSurfaceLoop_well_formed
  | |- hoare _ (addVolume _ _) _ => apply addVolume_well_formed
  | |- hoare _ (flipCoordinate _ _ _) _ =>
      apply stable_hoare, stable_flipCoordinate
  | |- hoare _ (printError _) _ => apply stable_hoare, stable_print
  | |- hoare _ (checkClosed _ _ _) _ => apply stable_hoare, stable_checkClosed
  | |- hoare _ (set_lineLoop _ _) _ => apply stable_hoare, stable_set_lineLoop
  | |- hoare _ (getVertices _) _ => apply stable_hoare, stable_getVertices
  | |- hoare _ (getNormal _) _ => apply stable_hoare, stable_getNormal
  | |- hoare _ (coords_in_plane _ _) _ => apply stable_hoare, stable_coords_in_plane
  | |- hoare ?P (map_M _ _) ?P => apply hoare_map_M; intros ?
  | |- hoare ?P (for_each _ _) ?P => apply hoare_for_each; intros ?
  | |- hoare ?P (fold_M _ _ _) ?P => apply hoare_fold_M; intros ? ?
  | |- hoare _ (if ?b then _ else _) _ => destruct b
  | |- hoare _ (match ?x with _ => _ end) _ => destruct x
  | |- hoare _ (let _ := _ in _) _ => cbv zeta
  end.

Lemma addCircleByParameters_well_formed pend center radius z volSize plane :
  hoare (well_formed pend) (addCircleByParameters center radius z volSize plane)
        (well_formed pend).
Proof. unfold addCircleByParameters. repeat hoare_step. Qed.

Lemma addPolygonByParameters_well_formed pend coords volSize z plane :
  hoare (well_formed pend) (addPolygonByParameters coords volSize z plane)
        (well_formed pend).
Proof. unfold addPolygonByParameters. repeat hoare_step. Qed.

(** Ruled surfaces and their triangulation *)

Lemma incrementID_above IdOf objList x :
  x ∈ objAttrToList IdOf objList -> x < incrementID IdOf objList.
Proof.
  unfold incrementID. destruct (objAttrToList IdOf objList) as [|y l].
  - intros H; inversion H.
  - intros H. destruct (py_max_is_max y l) as [_ Hub]. apply Hub in H. lia.
Qed.

Lemma well_formed_tail p pend st : well_formed (p :: pend) st -> well_formed pend st.
Proof.
  intros (Ha & Hd & Hp & Hpend). inversion Hpend; subst.
  split; [exact Ha|]. split; [exact Hd|]. split; assumption.
Qed.

Lemma well_formed_delete_lineLoop pend st i :
  well_formed pend st ->
  well_formed pend
    (set_dom (with_lineLoops (delete i (lineLoops (st_dom st))) (st_dom st)) st).
Proof.
  intros (Ha & Hd & Hp & Hpend). destruct st as [h d o].
  unfold well_formed, allocated, all_refs, Ids_distinct in *. simpl in *.
  rewrite !Forall_app in *.
  destruct Ha as (AV & AE & ALi & AA & AL & AR & AS & AO).
  destruct Hd as (DV & DE & DL & DR & DS & DO).
  repeat split; try assumption.
  - rewrite list.Forall_forall in *. intros x Hx. apply AL.
    eapply elem_of_sublist; [exact Hx|]. apply sublist_delete.
  - unfold distinct_Ids in *. eapply sublist_NoDup; [exact DL|].
    apply fmap_sublist. apply sublist_delete.
Qed.

Section Triangulation_invariant.

Variable triangulatePoly : list (list Z) -> list (nat * nat * nat).
Variable rec : option Z -> Z -> M ref.

Hypothesis rec_well_formed :
  forall pend x lid,
    Forall (fun p : ref * Z => p.2 < x) pend ->
    hoare (well_formed pend) (rec (Some x) lid) (well_formed pend).

Lemma triangle_body_well_formed self n pend vertices it :
  Forall (fun p : ref * Z => p.2 < n) pend ->
  hoare (well_formed ((self, n) :: pend))
        (triangle_body rec self vertices it)
        (well_formed ((self, n) :: pend)).
Proof.
  intros Hbelow. destruct it as [i [[a b] c]]. unfold triangle_body.
  apply hoare_keep_bind; [repeat hoare_step|]. intros edges.
  apply hoare_keep_bind; [apply hoare_get|]. intros st0. cbv zeta.
  apply hoare_keep_bind; [apply addLineLoop_well_formed|]. intros loop.
  apply hoare_keep_bind; [apply stable_hoare, stable_checkClosed|]. intros _.
  apply hoare_get_bind. intros st1 st [-> Hwf].
  destruct (i =? 0)%nat eqn:Ei.
  - apply (stable_hoare _ _ (stable_set_lineLoop self (Some loop))). exact Hwf.
  - assert (Hn : ruledSurface_Id st1 self = n).
    { destruct Hwf as (_ & _ & _ & Hpend). inversion Hpend as [|? ? Hp _]; subst.
      destruct Hp as (_ & Hid & _). exact Hid. }
    rewrite Hn. apply Nat.eqb_neq in Ei.
    refine (hoare_keep_bind _ _ _ _ _ st1 Hwf); [|intros ?; apply hoare_ret].
    apply rec_well_formed. constructor; [simpl; lia|].
    eapply list.Forall_impl; [exact Hbelow|]. intros p Hp. simpl in *. lia.
Qed.

Lemma remove_lineLoop_well_formed pend (f : state -> option ref) :
  hoare (well_formed pend)
        (do st <- get;
         match list_remove_opt (f st) (lineLoops (st_dom st)) with
         | Ok ls =>
             run modify (fun st => set_dom (with_lineLoops ls (st_dom st)) st);
             ret true
         | Raise e => raise e
         end)
        (well_formed pend).
Proof.
  apply hoare_get_bind. intros st0 st [-> Hwf].
  destruct (f st0) as [r|]; simpl; [|exact Hwf].
  unfold list_remove. destruct (list_find _ _) as [[i ?]|]; simpl; [|exact Hwf].
  apply well_formed_delete_lineLoop. exact Hwf.
Qed.

Lemma initLineLoop_well_formed self n pend loopID :
  Forall (fun p : ref * Z => p.2 < n) pend ->
  hoare (well_formed ((self, n) :: pend))
        (initLineLoop triangulatePoly rec self loopID)
        (well_formed ((self, n) :: pend)).
Proof.
  intros Hbelow. unfold initLineLoop.
  apply hoare_keep_bind; [apply hoare_get|]. intros st0.
  repeat first
    [ apply triangle_body_well_formed; exact Hbelow
    | apply (remove_lineLoop_well_formed _
               (fun st => fst <$> getLineLoopById st loopID))
    | hoare_step ].
Qed.

Lemma append_ruledSurface_well_formed self n pend :
  Forall (fun p : ref * Z => p.2 < n) pend ->
  hoare (well_formed ((self, n) :: pend))
        (append_to ruledSurfaces with_ruledSurfaces self)
        (well_formed pend).
Proof.
  clear rec_well_formed.
  intros Hbelow [h d o] (Ha & Hd & Hp & Hpend).
  inversion Hpend as [|? ? (P1 & P2 & P3) Hrest]; subst. simpl in P1, P2, P3.
  unfold allocated, all_refs in Ha. simpl in Ha. rewrite !Forall_app in Ha.
  destruct Ha as (AV & AE & ALi & AA & AL & AR & AS & AO).
  destruct Hd as (DV & DE & DL & DR & DS & DO). simpl in *.
  split; [|split; [|split]].
  - unfold allocated, all_refs. simpl. rewrite !Forall_app.
    repeat split; try assumption. repeat constructor. exact P1.
  - unfold Ids_distinct. simpl. repeat split; try assumption.
    apply (distinct_Ids_snoc (ruledSurface_Id (State h d o))).
    + reflexivity.
    + unfold ruledSurface_Id in *. simpl in *. rewrite P2. exact P3.
    + exact DR.
  - exact Hp.
  - rewrite list.Forall_forall in *. intros p Hin.
    destruct (Hrest p Hin) as (Q1 & Q2 & Q3). specialize (Hbelow p Hin).
    split; [exact Q1|]. split; [exact Q2|]. simpl.
    rewrite fmap_app, elem_of_app. intros [Hx|Hx]; [exact (Q3 Hx)|].
    simpl in Hx. apply list_elem_of_singleton in Hx.
    unfold ruledSurface_Id in *. simpl in *. lia.
Qed.

Lemma addRuledSurface_body_well_formed pend Id lineLoopID :
  above pend Id ->
  hoare (well_formed pend)
        (addRuledSurface_body triangulatePoly rec Id lineLoopID)
        (well_formed pend).
Proof.
  intros Hab st Hwf. unfold addRuledSurface_body.
  erewrite bind_ok by reflexivity.
  destruct (getNewId_run (ruledSurface_Id st) (ruledSurfaces (st_dom st)) Id st)
    as (newId & out & Hrun & Hfresh & Hval).
  erewrite bind_ok by exact Hrun.
  unfold ruledSurface_init. rewrite bind_assoc.
  erewrite bind_ok by reflexivity. rewrite bind_assoc.
  assert (Hbelow : Forall (fun p : ref * Z => p.2 < newId) pend).
  { destruct Id as [x|]; simpl in Hab; [|subst pend; constructor].
    eapply list.Forall_impl; [exact Hab|]. intros p Hp. simpl in Hp.
    rewrite Hval. case_bool_decide as Hin; [|exact Hp].
    apply incrementID_above in Hin. lia. }
  destruct st as [h d o]. simpl in *.
  match goal with |- context [?m (set_heap ?a ?b)] => set (st1 := set_heap a b) end.
  assert (Hwf1 : well_formed ((h_next h, newId) :: pend) st1).
  { assert (Hwf0 : well_formed pend st1).
    { eapply (well_formed_alloc pend (State h d o)); try exact Hwf; subst st1; simpl;
        try solve_old_Ids; try solve_list_step; try reflexivity.
      destruct Hwf as (_ & _ & Hp & _). exact Hp. }
    destruct Hwf0 as (Ha & Hd & Hp & Hpend).
    split; [exact Ha|]. split; [exact Hd|]. split; [exact Hp|].
    constructor; [|exact Hpend].
    unfold pending. subst st1. simpl. split; [lia|].
    unfold ruledSurface_Id. simpl. split; [rewrite fn_lookup_insert; reflexivity|].
    intros Hin. apply Hfresh. unfold objAttrToList.
    apply list_elem_of_fmap in Hin as (y & -> & Hy).
    assert (Hy' : (y < h_next h)%nat).
    { destruct Hwf as (Hal & _). unfold allocated, all_refs in Hal. simpl in Hal.
      rewrite !Forall_app in Hal.
      destruct Hal as (_ & _ & _ & _ & _ & AR & _).
      rewrite list.Forall_forall in AR. apply AR. exact Hy. }
    rewrite fn_lookup_insert_ne by lia.
    apply (list_elem_of_fmap_2 (ruledSurface_Id (State h d o))). exact Hy. }
  clearbody st1. set (self := h_next h) in *. clearbody self.
  refine (hoare_bind (well_formed ((self, newId) :: pend))
            (well_formed ((self, newId) :: pend)) (well_formed pend)
            _ _ (initLineLoop_well_formed self newId pend lineLoopID Hbelow)
            _ (well_formed_tail _ _) st1 Hwf1).
  intros _ st2 Hwf2. erewrite bind_ok by reflexivity.
  refine (hoare_bind _ _ _ _ _
            (append_ruledSurface_well_formed self newId pend Hbelow)
            _ (fun st H => H) st2 Hwf2).
  intros ?. apply hoare_ret.
Qed.

End Triangulation_invariant.

Section Domain_invariant.

Variable triangulatePoly : list (list Z) -> list (nat * nat * nat).

Lemma addRuledSurface_depth_well_formed depth pend Id lineLoopID :
  above pend Id ->
  hoare (well_formed pend)
        (addRuledSurface_depth triangulatePoly depth Id lineLoopID)
        (well_formed pend).
Proof.
  revert pend Id lineLoopID. induction depth as [|depth IH]; intros pend Id lid Hab.
  - apply hoare_raise.
  - simpl. apply addRuledSurface_body_well_formed; [|exact Hab].
    intros pend' x lid' Hbelow. apply IH. exact Hbelow.
Qed.

Lemma addRuledSurface_well_formed Id lineLoopID :
  hoare (well_formed []) (addRuledSurface triangulatePoly Id lineLoopID)
        (well_formed []).
Proof.
  apply addRuledSurface_depth_well_formed. destruct Id; simpl; [constructor|reflexivity].
Qed.

End Domain_invariant.

Section Reachable_invariant.

Variable triangulatePoly : list (list Z) -> list (nat * nat * nat).

Ltac solid_step :=
  match goal with
  | |- hoare _ (addRuledSurface _ _ _) _ => apply addRuledSurface_well_formed
  | |- hoare _ (addCircleByParameters _ _ _ _ _) _ =>
      apply addCircleByParameters_well_formed
  | |- hoare _ (addPolygonByParameters _ _ _ _) _ =>
      apply addPolygonByParameters_well_formed
  | _ => hoare_step
  end.

Lemma addPrismByParameters_well_formed coords volSize height z plane gl gs gv :
  hoare (well_formed [])
        (addPrismByParameters triangulatePoly coords volSize height z plane gl gs gv)
        (well_formed []).
Proof. unfold addPrismByParameters. repeat solid_step. Qed.

Lemma addCylinderByParameters_well_formed center radius z height volSize plane
    gl gs gv :
  hoare (well_formed [])
        (addCylinderByParameters triangulatePoly center radius z height volSize
                                 plane gl gs gv)
        (well_formed []).
Proof. unfold addCylinderByParameters. repeat solid_step. Qed.

Lemma exec_well_formed o st :
  well_formed [] st -> well_formed [] (exec triangulatePoly o st).
Proof.
  intros Hwf. destruct o; simpl.
  - apply addVertex_well_formed, Hwf.
  - apply addLine_well_formed, Hwf.
  - apply addArc_well_formed, Hwf.
  - apply addLineLoop_well_formed, Hwf.
  - apply addRuledSurface_well_formed, Hwf.
  - apply addSurfaceLoop_well_formed, Hwf.
  - apply addVolume_well_formed, Hwf.
  - apply addCircleByParameters_well_formed, Hwf.
  - apply addPolygonByParameters_well_formed, Hwf.
  - apply addPrismByParameters_well_formed, Hwf.
  - apply addCylinderByParameters_well_formed, Hwf.
Qed.

Lemma init_well_formed : well_formed [] init_state.
Proof.
  unfold well_formed, allocated, Ids_distinct, distinct_Ids. simpl.
  repeat split; try constructor.
Qed.

Lemma reachable_well_formed st :
  reachable triangulatePoly st -> well_formed [] st.
Proof.
  induction 1 as [|o st _ IH]; [apply init_well_formed|apply exec_well_formed, IH].
Qed.

End Reachable_invariant.

(** C1: in every domain reached from a fresh [domain()] by add operations
    (the seven primitive ones and the four composite constructors), the
    identifiers are pairwise distinct within each of the lists vertices,
    edges (lines and arcs together), lineLoops, ruledSurfaces, surfaceLoops
    and volumes; this holds for every triangulation routine, and whether the
    calls return or raise. *)
Theorem reachable_Ids_distinct triangulatePoly st :
  reachable triangulatePoly st -> Ids_distinct st.
Proof. intros H. apply reachable_well_formed in H. apply H. Qed.

Lemma reachable_Ids_distinct_witness :
  let st := exec fan (AddRuledSurface None 1)
              (exec fan (AddLineLoop None [1; 2; 3; 4; 5])
                 (exec fan (AddPolygonByParameters
                              [[0; 0]; [1; 0]; [2; 1]; [1; 2]; [0; 1]] None 0 "z")
                       init_state)) in
  reachable fan st /\ Ids_distinct st.
Proof.
  intros st.
  assert (H : reachable fan st).
  { subst st. do 3 apply reachable_exec. apply reachable_init. }
  split; [exact H|]. apply (reachable_Ids_distinct fan st). exact H.
Defined.

(** ** Triangulation of ruled surfaces *)

Lemma map_M_run {A B} (body : A -> M B) (l : list A) (k : list B) st :
  Forall2 (fun x y => body x st = (Ok y, st)) l k ->
  map_M l body st = (Ok k, st).
Proof.
  induction 1 as [|x y l k Hx _ IH]; simpl; [reflexivity|].
  erewrite bind_ok by exact Hx. erewrite bind_ok by exact IH. reflexivity.
Qed.







(** The state in which [initLineLoop] has taken the loop for the surface *)
Lemma set_lineLoop_run self l st :
  set_lineLoop self l st
  = (Ok tt, State (put_ruledSurface self
                     (RuledSurface (ruledSurface_Id st self) l) (st_heap st))
                  (st_dom st) (st_out st)).
Proof. reflexivity. Qed.

(** *** Computations that leave the objects as they are *)

Section Preserves.

Variable R : state -> state -> Prop.
Hypothesis R_refl : forall st, R st st.
Hypothesis R_trans : forall st1 st2 st3, R st1 st2 -> R st2 st3 -> R st1 st3.
Hypothesis R_out : forall h d o o', R (State h d o) (State h d o').

Lemma preserves_bind {A B} (m : M A) (k : A -> M B) :
  preserves R m -> (forall a, preserves R (k a)) -> preserves R (bind m k).
Proof.
  intros Hm Hk st. specialize (Hm st). unfold bind.
  destruct (m st) as [[a|e] st']; simpl in *.
  - eapply R_trans; [exact Hm|apply Hk].
  - exact Hm.
Qed.

Lemma preserves_ret {A} (a : A) : preserves R (ret a).
Proof. intros st. apply R_refl. Qed.

Lemma preserves_raise {A} e : preserves R (@raise Z A e).
Proof. intros st. apply R_refl. Qed.

Lemma preserves_get : preserves R get.
Proof. intros st. apply R_refl. Qed.

Lemma preserves_index {A} (l : list A) i : preserves R (index l i).
Proof. intros st. unfold index. destruct (l !! i); apply R_refl. Qed.

Lemma preserves_attr {A} (o : option A) : preserves R (attr o).
Proof. intros st. destruct o; apply R_refl. Qed.

Lemma preserves_print m : preserves R (print_msg m).
Proof. intros [h d o]. apply R_out. Qed.

Lemma preserves_map_M {A B} (l : list A) (body : A -> M B) :
  (forall x, preserves R (body x)) -> preserves R (map_M l body).
Proof.
  intros Hb. induction l as [|x l IH]; simpl.
  - apply preserves_ret.
  - apply preserves_bind; [apply Hb|]. intros y.
    apply preserves_bind; [exact IH|]. intros ys. apply preserves_ret.
Qed.

Lemma preserves_fold_M {A B} (l : list A) (body : B -> A -> M B) acc :
  (forall acc x, preserves R (body acc x)) -> preserves R (fold_M body acc l).
Proof.
  intros Hb. revert acc. induction l as [|x l IH]; intros acc; simpl.
  - apply preserves_ret.
  - apply preserves_bind; [apply Hb|]. intros acc'. apply IH.
Qed.

End Preserves.

Lemma calm_refl st : calm st st.
Proof. unfold calm. repeat split; reflexivity. Qed.

Lemma calm_trans st1 st2 st3 : calm st1 st2 -> calm st2 st3 -> calm st1 st3.
Proof.
  intros (D1 & N1 & V1 & E1 & S1 & L1) (D2 & N2 & V2 & E2 & S2 & L2).
  unfold calm. repeat split; try congruence.
  - destruct (L1 r), (L2 r). congruence.
  - destruct (L1 r), (L2 r). congruence.
Qed.

Lemma calm_out h d o o' : calm (State h d o) (State h d o').
Proof. unfold calm. repeat split; reflexivity. Qed.

Ltac calm_step :=
  match goal with
  | |- preserves calm (bind _ _) =>
      apply (preserves_bind calm calm_trans); [|intros ?]
  | |- preserves calm (ret _) => apply (preserves_ret calm calm_refl)
  | |- preserves calm (raise _) => apply (preserves_raise calm calm_refl)
  | |- preserves calm (modIdx _ _) =>
      unfold modIdx; apply (preserves_raise calm calm_refl)
  | |- preserves calm get => apply (preserves_get calm calm_refl)
  | |- preserves calm (index _ _) => apply (preserves_index calm calm_refl)
  | |- preserves calm (attr _) => apply (preserves_attr calm calm_refl)
  | |- preserves calm (print_msg _) => apply (preserves_print calm calm_out)
  | |- preserves calm (printError _) => apply (preserves_print calm calm_out)
  | |- preserves calm (printWarning _) => apply (preserves_print calm calm_out)
  | |- preserves calm (map_M _ _) =>
      apply (preserves_map_M calm calm_refl calm_trans); intros ?
  | |- preserves calm (fold_M _ _ _) =>
      apply (preserves_fold_M calm calm_refl calm_trans); intros ? ?
  | |- preserves calm (if ?b then _ else _) => destruct b
  | |- preserves calm (match ?x with _ => _ end) => destruct x
  | |- preserves calm (let _ := _ in _) => cbv zeta
  end.

Lemma calm_getFirstVertex self o : preserves calm (getFirstVertex self o).
Proof. unfold getFirstVertex. repeat calm_step. Qed.

Lemma calm_getLastVertex self o : preserves calm (getLastVertex self o).
Proof. unfold getLastVertex. repeat calm_step. Qed.

Lemma calm_set_orientations self os : preserves calm (set_orientations self os).
Proof.
  intros [h d o]. unfold set_orientations, modify, calm. simpl.
  repeat split; try reflexivity.
  - destruct (decide (r = self)) as [->|Hne].
    + rewrite fn_lookup_insert. reflexivity.
    + rewrite fn_lookup_insert_ne by congruence. reflexivity.
  - destruct (decide (r = self)) as [->|Hne].
    + rewrite fn_lookup_insert. reflexivity.
    + rewrite fn_lookup_insert_ne by congruence. reflexivity.
Qed.

Lemma calm_list_index {A} `{EqDecision A} (x : A) l : preserves calm (list_index x l).
Proof. unfold list_index. repeat calm_step. Qed.

Lemma calm_reverseEdge self ID : preserves calm (reverseEdge self ID).
Proof.
  unfold reverseEdge. repeat calm_step.
  - apply calm_list_index.
  - apply calm_set_orientations.
Qed.

Lemma calm_checkClosed_body self fix_ debug b i :
  preserves calm (checkClosed_body self fix_ debug b i).
Proof.
  unfold checkClosed_body.
  repeat first [ apply calm_getFirstVertex | apply calm_getLastVertex
               | apply calm_reverseEdge | calm_step ].
Qed.

Lemma calm_checkClosed self fix_ debug : preserves calm (checkClosed self fix_ debug).
Proof.
  unfold checkClosed. apply (preserves_bind calm calm_trans).
  - apply (preserves_get calm calm_refl).
  - intros st. apply (preserves_fold_M calm calm_refl calm_trans).
    intros. apply calm_checkClosed_body.
Qed.





(** ** Lookups in changed lists *)

Lemma find_Id_elem IdOf objs x k :
  x ∈ objs -> exists y i, find_Id IdOf (IdOf x) objs k = Some (y, i) /\ IdOf y = IdOf x.
Proof.
  intros Hx. pose proof (find_Id_spec IdOf (IdOf x) objs k) as H.
  destruct (find_Id IdOf (IdOf x) objs k) as [[y i]|].
  - exists y, i. split; [reflexivity|]. apply H.
  - exfalso. exact (H x Hx eq_refl).
Qed.

Lemma find_Id_ext (f g : ref -> Z) ID objs k :
  (forall r, r ∈ objs -> f r = g r) -> find_Id f ID objs k = find_Id g ID objs k.
Proof.
  revert k. induction objs as [|x objs IH]; intros k Hfg; simpl; [reflexivity|].
  rewrite (Hfg x) by left. rewrite IH; [reflexivity|].
  intros r Hr. apply Hfg. right. exact Hr.
Qed.

Lemma delete_app_l {A} (l l' : list A) i :
  (i < length l)%nat -> delete i (l ++ l') = delete i l ++ l'.
Proof.
  revert i. induction l as [|x l IH]; intros i Hi; simpl in *; [lia|].
  destruct i as [|i]; [reflexivity|]. simpl. rewrite IH by lia. reflexivity.
Qed.

Lemma initEdges_spec st self IDs :
  initEdges st self IDs
  = LineLoop (ll_Id self)
             ((fun ID => fst <$> getEdgeById st (Z.abs ID)) <$> IDs)
             (Z.sgn <$> IDs).
Proof.
  unfold initEdges.
  assert (H : forall i es os,
    foldl (addEdgeByID st) (LineLoop i es os) IDs
    = LineLoop i (es ++ ((fun ID => fst <$> getEdgeById st (Z.abs ID)) <$> IDs))
               (os ++ (Z.sgn <$> IDs))).
  { induction IDs as [|ID IDs IH]; intros i es os; simpl.
    - rewrite !app_nil_r. reflexivity.
    - unfold addEdgeByID at 2. simpl. rewrite IH, <- !app_assoc. reflexivity. }
  rewrite H. reflexivity.
Qed.

(** * Further properties of the geometry module *)

Lemma reachable_run_ops script st :
  reachable fan st -> reachable fan (run_ops script st).
Proof.
  revert st. induction script as [|o script IH]; intros st H; [exact H|].
  apply IH. apply reachable_exec. exact H.
Qed.

Lemma outline_domain_reachable coords loop : reachable fan (outline_domain coords loop).
Proof. apply reachable_run_ops, reachable_init. Qed.

Lemma square_domain_reachable : reachable fan square_domain.
Proof. apply outline_domain_reachable. Qed.

(** ** Reachable domains *)

Lemma well_formed_no_repeats pend st : well_formed pend st -> no_repeats (st_dom st).
Proof.
  intros (_ & (DV & DE & DL & DR & DS & DO) & Hp & _). unfold distinct_Ids in *.
  unfold no_repeats.
  split; [eapply NoDup_fmap_1; exact DV|].
  split; [rewrite <- Hp; eapply NoDup_fmap_1; exact DE|].
  split; [eapply NoDup_fmap_1; exact DL|].
  split; [eapply NoDup_fmap_1; exact DR|].
  split; [eapply NoDup_fmap_1; exact DS|].
  split; [eapply NoDup_fmap_1; exact DO|].
  intros x Hx. rewrite <- Hp. exact Hx.
Qed.

(** X1: in every domain reached from a fresh [domain()] by add operations
    no object sits twice in a list, no object is both a line and an arc,
    and [edges] holds exactly the lines and the arcs. *)
Theorem reachable_no_repeats triangulatePoly st :
  reachable triangulatePoly st ->
  no_repeats (st_dom st) /\
  edges (st_dom st) ≡ₚ lines (st_dom st) ++ arcs (st_dom st).
Proof.
  intros H. apply reachable_well_formed in H. split.
  - eapply well_formed_no_repeats, H.
  - apply H.
Qed.

Lemma reachable_no_repeats_witness :
  reachable fan square_domain /\
  no_repeats (st_dom square_domain) /\
  edges (st_dom square_domain)
    ≡ₚ lines (st_dom square_domain) ++ arcs (st_dom square_domain).
Proof.
  split; [exact square_domain_reachable|].
  apply (reachable_no_repeats fan square_domain). exact square_domain_reachable.
Defined.

(** ** Adding an object and looking it up *)

Lemma find_Id_snoc IdOf ID (l : list ref) r k :
  ID ∉ IdOf <$> l -> IdOf r = ID ->
  find_Id IdOf ID (l ++ [r]) k = Some (r, (k + length l)%nat).
Proof.
  revert k. induction l as [|x l IH]; intros k Hfresh Hr; simpl.
  - rewrite bool_decide_eq_true_2 by exact Hr. f_equal. f_equal. lia.
  - rewrite fmap_cons in Hfresh. apply not_elem_of_cons in Hfresh as [Hx Hl].
    rewrite bool_decide_eq_false_2 by congruence.
    rewrite IH by assumption. f_equal. f_equal. lia.
Qed.

Lemma find_Id_snoc_ne IdOf ID (l : list ref) r k :
  IdOf r <> ID -> find_Id IdOf ID (l ++ [r]) k = find_Id IdOf ID l k.
Proof.
  revert k. induction l as [|x l IH]; intros k Hr; simpl.
  - rewrite bool_decide_eq_false_2 by exact Hr. reflexivity.
  - case_bool_decide; [reflexivity|]. apply IH. exact Hr.
Qed.

Lemma reachable_allocated triangulatePoly st x :
  reachable triangulatePoly st -> x ∈ all_refs (st_dom st) ->
  (x < h_next (st_heap st))%nat.
Proof.
  intros H Hx. apply reachable_well_formed in H. destruct H as (Ha & _).
  unfold allocated in Ha. rewrite list.Forall_forall in Ha. apply Ha, Hx.
Qed.

Lemma addVertex_run x Id volSize st :
  exists newId out,
    getNewId (vertex_Id st) (vertices (st_dom st)) Id st
    = (Ok newId, State (st_heap st) (st_dom st) (st_out st ++ out)) /\
    (newId ∉ objAttrToList (vertex_Id st) (vertices (st_dom st))) /\
    addVertex x Id volSize st
    = (Ok (h_next (st_heap st)),
       State (bump (put_vertex (h_next (st_heap st)) (Vertex x newId volSize)
                               (st_heap st)))
             (with_vertices (vertices (st_dom st) ++ [h_next (st_heap st)]) (st_dom st))
             (st_out st ++ out)).
Proof.
  destruct (getNewId_run (vertex_Id st) (vertices (st_dom st)) Id st)
    as (newId & out & Hrun & Hfresh & _).
  exists newId, out. split; [exact Hrun|]. split; [exact Hfresh|].
  unfold addVertex. erewrite bind_ok by reflexivity. cbv beta.
  erewrite bind_ok by exact Hrun. reflexivity.
Qed.

(** X2: in a reachable domain [addVertex] returns a new vertex with the
    coordinates and the mesh size given, appended to [vertices], under an
    identifier that no vertex had; [getVertexById] finds the new vertex, at
    the last position, under its identifier, and answers as before for
    every other identifier. *)
Theorem addVertex_lookup triangulatePoly st x Id volSize :
  reachable triangulatePoly st ->
  exists v st',
    addVertex x Id volSize st = (Ok v, st') /\
    vertices (st_dom st') = vertices (st_dom st) ++ [v] /\
    v_x (h_vertex (st_heap st') v) = x /\
    v_volSize (h_vertex (st_heap st') v) = volSize /\
    (vertex_Id st' v ∉ vertex_Id st <$> vertices (st_dom st)) /\
    getVertexById st' (vertex_Id st' v)
    = Some (v, length (vertices (st_dom st))) /\
    forall ID, ID <> vertex_Id st' v -> getVertexById st' ID = getVertexById st ID.
Proof.
  intros Hreach.
  destruct (addVertex_run x Id volSize st) as (newId & out & _ & Hfresh & Hrun).
  rewrite Hrun. eexists. eexists. split; [reflexivity|].
  assert (Hold : forall y, y ∈ vertices (st_dom st) -> y <> h_next (st_heap st)).
  { intros y Hy. assert (y < h_next (st_heap st))%nat; [|lia].
    eapply reachable_allocated; [exact Hreach|].
    unfold all_refs. rewrite !elem_of_app. auto. }
  destruct st as [h d o]. unfold objAttrToList in Hfresh.
  unfold vertex_Id, getVertexById in *. simpl in *. rewrite !fn_lookup_insert. simpl.
  assert (Hext : forall ID k,
    find_Id (fun r => v_Id ((<[h_next h := Vertex x newId volSize]> (h_vertex h)) r))
            ID (vertices d) k
    = find_Id (fun r => v_Id (h_vertex h r)) ID (vertices d) k).
  { intros ID k. apply find_Id_ext. intros r Hr.
    rewrite fn_lookup_insert_ne by (apply not_eq_sym, Hold, Hr). reflexivity. }
  split; [reflexivity|]. split; [reflexivity|]. split; [reflexivity|].
  split; [exact Hfresh|]. split.
  - rewrite find_Id_snoc.
    + reflexivity.
    + intros Hin. apply Hfresh.
      apply list_elem_of_fmap in Hin as (y & -> & Hy). unfold vertex_Id. simpl.
      rewrite fn_lookup_insert_ne by (apply not_eq_sym, Hold, Hy).
      apply (list_elem_of_fmap_2 (fun r => v_Id (h_vertex h r))). exact Hy.
    + unfold vertex_Id. simpl. rewrite fn_lookup_insert. reflexivity.
  - intros ID HID. rewrite find_Id_snoc_ne.
    + apply Hext.
    + unfold vertex_Id. simpl. rewrite fn_lookup_insert. simpl. congruence.
Qed.

Lemma addVertex_lookup_witness :
  reachable fan square_domain /\
  exists v st',
    addVertex [2; 2; 0] (Some 1) None square_domain = (Ok v, st') /\
    getVertexById st' (vertex_Id st' v)
    = Some (v, length (vertices (st_dom square_domain))).
Proof.
  split; [exact square_domain_reachable|].
  destruct (addVertex_lookup fan square_domain [2; 2; 0] (Some 1) None
              square_domain_reachable)
    as (v & st' & Hrun & _ & _ & _ & _ & Hget & _).
  exists v, st'. split; [exact Hrun|exact Hget].
Defined.

(** ** Edges between vertices *)

Lemma find_edge_spec h v1 v2 es k :
  match find_edge h v1 v2 es k with
  | Some (e, i) =>
      (k <= i)%nat /\ es !! (i - k)%nat = Some e /\ joins (h_edge h e) v1 v2 /\
      forall j e', (j < i - k)%nat -> es !! j = Some e' -> ~ joins (h_edge h e') v1 v2
  | None => forall e, e ∈ es -> ~ joins (h_edge h e) v1 v2
  end.
Proof.
  revert k. induction es as [|x es IH]; intros k; simpl.
  - intros e He. inversion He.
  - destruct (bool_decide (v1 ∈ end_vertices (h_edge h x))) eqn:E1;
      destruct (bool_decide (v2 ∈ end_vertices (h_edge h x))) eqn:E2; simpl.
    1:{ apply bool_decide_eq_true in E1, E2.
        replace (k - k)%nat with 0%nat by lia.
        split; [lia|]. split; [reflexivity|]. split; [split; assumption|].
        intros; lia. }
    all: assert (Hx : ~ joins (h_edge h x) v1 v2)
      by (intros [J1 J2]; first [apply bool_decide_eq_false in E1; tauto
                                | apply bool_decide_eq_false in E2; tauto]).
    all: specialize (IH (S k));
      destruct (find_edge h v1 v2 es (S k)) as [[e i]|];
      [ destruct IH as (Hk & Hi & Hj & Hmin);
        split; [lia|]; split;
        [ replace (i - k)%nat with (S (i - S k)) by lia; exact Hi |];
        split; [exact Hj|];
        intros j e' Hlt He'; destruct j as [|j];
        [ simpl in He'; injection He' as <-; exact Hx
        | simpl in He'; apply (Hmin j e'); [lia|exact He'] ]
      | intros e He; apply elem_of_cons in He as [->|He]; [exact Hx|apply IH, He] ].
Qed.

Lemma find_edge_comm h v1 v2 es k :
  find_edge h v2 v1 es k = find_edge h v1 v2 es k.
Proof.
  revert k. induction es as [|x es IH]; intros k; simpl; [reflexivity|].
  rewrite (andb_comm (bool_decide (v2 ∈ _))). rewrite IH. reflexivity.
Qed.

(** X3: [getEdgeByVertices] returns the first edge of [edges] that has both
    vertices among its two end vertices, with its position, and the pair
    (False, False) when there is none; the order of the two vertices plays
    no part. *)
Theorem getEdgeByVertices_spec (st : state) (v1 v2 : ref) :
  match getEdgeByVertices st v1 v2 with
  | Some (e, i) =>
      edges (st_dom st) !! i = Some e /\
      joins (h_edge (st_heap st) e) v1 v2 /\
      forall j e', (j < i)%nat -> edges (st_dom st) !! j = Some e' ->
                   ~ joins (h_edge (st_heap st) e') v1 v2
  | None => forall e, e ∈ edges (st_dom st) -> ~ joins (h_edge (st_heap st) e) v1 v2
  end /\
  getEdgeByVertices st v2 v1 = getEdgeByVertices st v1 v2.
Proof.
  split; [|apply find_edge_comm].
  unfold getEdgeByVertices.
  pose proof (find_edge_spec (st_heap st) v1 v2 (edges (st_dom st)) 0) as H.
  destruct (find_edge _ _ _ _ _) as [[e i]|]; [|exact H].
  replace (i - 0)%nat with i in H by lia. tauto.
Qed.

Lemma find_edge_ext h h' v1 v2 es k :
  (forall e, e ∈ es -> h_edge h' e = h_edge h e) ->
  find_edge h' v1 v2 es k = find_edge h v1 v2 es k.
Proof.
  revert k. induction es as [|x es IH]; intros k Hh; simpl; [reflexivity|].
  rewrite (Hh x) by left. rewrite IH; [reflexivity|].
  intros e He. apply Hh. right. exact He.
Qed.

Lemma find_edge_app h v1 v2 es es' k p :
  find_edge h v1 v2 es k = Some p -> find_edge h v1 v2 (es ++ es') k = Some p.
Proof.
  revert k. induction es as [|x es IH]; intros k; simpl; [discriminate|].
  destruct (_ && _); [auto|apply IH].
Qed.

Lemma find_edge_snoc h v1 v2 es r k :
  find_edge h v1 v2 es k = None -> joins (h_edge h r) v1 v2 ->
  find_edge h v1 v2 (es ++ [r]) k = Some (r, (k + length es)%nat).
Proof.
  revert k. induction es as [|x es IH]; intros k Hnone [J1 J2]; simpl in *.
  - rewrite !bool_decide_eq_true_2 by assumption. simpl. f_equal. f_equal. lia.
  - destruct (_ && _); [discriminate|].
    rewrite IH by (try split; assumption). f_equal. f_equal. lia.
Qed.

Lemma addLine_run v1 v2 Id st :
  exists newId out,
    (newId ∉ objAttrToList (edge_Id st) (edges (st_dom st))) /\
    addLine v1 v2 Id st
    = (Ok (h_next (st_heap st)),
       State (bump (put_edge (h_next (st_heap st)) (Edge newId (Line v1 v2))
                             (st_heap st)))
             (with_edges (edges (st_dom st) ++ [h_next (st_heap st)])
                (with_lines (lines (st_dom st) ++ [h_next (st_heap st)]) (st_dom st)))
             (st_out st ++ out)).
Proof.
  destruct (getNewId_run (edge_Id st) (edges (st_dom st)) Id st)
    as (newId & out & Hrun & Hfresh & _).
  exists newId, out. split; [exact Hfresh|].
  unfold addLine. erewrite bind_ok by reflexivity. cbv beta.
  erewrite bind_ok by exact Hrun. reflexivity.
Qed.

(** X4: in a reachable domain [addLine] returns a new line from [v1] to
    [v2], appended to [lines] and to [edges], under an identifier that no
    edge had.  [getEdgeById] finds it under this identifier and answers as
    before for every other one.  [getEdgeByVertices(v1,v2)] never answers
    (False, False) afterwards: it returns the edge it returned before, if
    there was one, and the new line otherwise. *)
Theorem addLine_lookup triangulatePoly st v1 v2 Id :
  reachable triangulatePoly st ->
  exists e st',
    addLine v1 v2 Id st = (Ok e, st') /\
    lines (st_dom st') = lines (st_dom st) ++ [e] /\
    edges (st_dom st') = edges (st_dom st) ++ [e] /\
    arcs (st_dom st') = arcs (st_dom st) /\
    e_kind (h_edge (st_heap st') e) = Line v1 v2 /\
    (edge_Id st' e ∉ edge_Id st <$> edges (st_dom st)) /\
    getEdgeById st' (edge_Id st' e) = Some (e, length (edges (st_dom st))) /\
    (forall ID, ID <> edge_Id st' e -> getEdgeById st' ID = getEdgeById st ID) /\
    getEdgeByVertices st' v1 v2
    = match getEdgeByVertices st v1 v2 with
      | Some p => Some p
      | None => Some (e, length (edges (st_dom st)))
      end.
Proof.
  intros Hreach.
  destruct (addLine_run v1 v2 Id st) as (newId & out & Hfresh & Hrun).
  rewrite Hrun. eexists. eexists. split; [reflexivity|].
  assert (Hold : forall y, y ∈ edges (st_dom st) -> y <> h_next (st_heap st)).
  { intros y Hy. assert (y < h_next (st_heap st))%nat; [|lia].
    eapply reachable_allocated; [exact Hreach|].
    unfold all_refs. rewrite !elem_of_app. auto. }
  destruct st as [h d o]. unfold objAttrToList in Hfresh.
  unfold edge_Id, getEdgeById, getEdgeByVertices in *. simpl in *.
  rewrite !fn_lookup_insert. simpl.
  split; [reflexivity|]. split; [reflexivity|]. split; [reflexivity|].
  split; [reflexivity|]. split; [exact Hfresh|]. split; [|split].
  - rewrite find_Id_snoc.
    + reflexivity.
    + intros Hin. apply Hfresh.
      apply list_elem_of_fmap in Hin as (y & -> & Hy). unfold edge_Id. simpl.
      rewrite fn_lookup_insert_ne by (apply not_eq_sym, Hold, Hy).
      apply (list_elem_of_fmap_2 (fun r => e_Id (h_edge h r))). exact Hy.
    + unfold edge_Id. simpl. rewrite fn_lookup_insert. reflexivity.
  - intros ID HID. rewrite find_Id_snoc_ne.
    + apply find_Id_ext. intros r Hr.
      unfold edge_Id. simpl.
      rewrite fn_lookup_insert_ne by (apply not_eq_sym, Hold, Hr). reflexivity.
    + unfold edge_Id. simpl. rewrite fn_lookup_insert. simpl. congruence.
  - set (h' := bump _).
    assert (Hext : forall es' k, es' = edges d ->
              find_edge h' v1 v2 es' k = find_edge h v1 v2 es' k).
    { intros es' k ->. apply find_edge_ext. intros e He. subst h'. simpl.
      rewrite fn_lookup_insert_ne by (apply not_eq_sym, Hold, He). reflexivity. }
    destruct (find_edge h v1 v2 (edges d) 0) as [p|] eqn:Hfind.
    + apply find_edge_app. rewrite Hext by reflexivity. exact Hfind.
    + rewrite (find_edge_snoc h' v1 v2 (edges d) (h_next h) 0).
      * reflexivity.
      * rewrite Hext by reflexivity. exact Hfind.
      * subst h'. simpl. rewrite fn_lookup_insert. unfold joins. simpl.
        split; [left|right; left].
Qed.

Lemma addLine_lookup_witness :
  reachable fan square_domain /\
  exists e st',
    addLine 0%nat 2%nat None square_domain = (Ok e, st') /\
    getEdgeByVertices st' 0%nat 2%nat
    = Some (e, length (edges (st_dom square_domain))).
Proof.
  split; [exact square_domain_reachable|].
  destruct (addLine_lookup fan square_domain 0%nat 2%nat None
              square_domain_reachable)
    as (e & st' & Hrun & _ & _ & _ & _ & _ & _ & _ & Hget).
  exists e, st'. split; [exact Hrun|]. rewrite Hget.
  replace (getEdgeByVertices square_domain 0%nat 2%nat) with (@None (ref * nat))
    by (vm_compute; reflexivity).
  reflexivity.
Defined.

(** ** What [checkClosed] leaves alone *)

Lemma quiet_refl st : quiet st st.
Proof. split; reflexivity. Qed.

Lemma quiet_trans st1 st2 st3 : quiet st1 st2 -> quiet st2 st3 -> quiet st1 st3.
Proof. intros [H1 D1] [H2 D2]. split; congruence. Qed.

Lemma quiet_out h d o o' : quiet (State h d o) (State h d o').
Proof. split; reflexivity. Qed.

Ltac quiet_step :=
  match goal with
  | |- preserves quiet (bind _ _) =>
      apply (preserves_bind quiet quiet_trans); [|intros ?]
  | |- preserves quiet (ret _) => apply (preserves_ret quiet quiet_refl)
  | |- preserves quiet (raise _) => apply (preserves_raise quiet quiet_refl)
  | |- preserves quiet (modIdx _ _) =>
      unfold modIdx; apply (preserves_raise quiet quiet_refl)
  | |- preserves quiet get => apply (preserves_get quiet quiet_refl)
  | |- preserves quiet (index _ _) => apply (preserves_index quiet quiet_refl)
  | |- preserves quiet (attr _) => apply (preserves_attr quiet quiet_refl)
  | |- preserves quiet (print_msg _) => apply (preserves_print quiet quiet_out)
  | |- preserves quiet (printError _) => apply (preserves_print quiet quiet_out)
  | |- preserves quiet (printWarning _) => apply (preserves_print quiet quiet_out)
  | |- preserves quiet (map_M _ _) =>
      apply (preserves_map_M quiet quiet_refl quiet_trans); intros ?
  | |- preserves quiet (fold_M _ _ _) =>
      apply (preserves_fold_M quiet quiet_refl quiet_trans); intros ? ?
  | |- preserves quiet (if ?b then _ else _) => destruct b
  | |- preserves quiet (match ?x with _ => _ end) => destruct x
  | |- preserves quiet (let _ := _ in _) => cbv zeta
  end.

Lemma quiet_getFirstVertex self o : preserves quiet (getFirstVertex self o).
Proof. unfold getFirstVertex. repeat quiet_step. Qed.

Lemma quiet_getLastVertex self o : preserves quiet (getLastVertex self o).
Proof. unfold getLastVertex. repeat quiet_step. Qed.

Lemma quiet_checkClosed self debug : preserves quiet (checkClosed self false debug).
Proof.
  unfold checkClosed. apply (preserves_bind quiet quiet_trans).
  - apply (preserves_get quiet quiet_refl).
  - intros st. apply (preserves_fold_M quiet quiet_refl quiet_trans).
    intros b i. unfold checkClosed_body.
    repeat first [ apply quiet_getFirstVertex | apply quiet_getLastVertex
                 | quiet_step ].
Qed.

(** X5: [checkClosed], with or without [fix] and whether it returns or
    raises, leaves the lists of the domain, the vertices, the edges, the
    ruled surfaces and the identifier and the entries of every line loop as
    they are: all it changes are orientations of loops and the messages
    printed.  Without [fix] it changes no object at all. *)
Theorem checkClosed_keeps_objects (self : ref) (fix_ debug : bool) (st : state) :
  calm st (snd (checkClosed self fix_ debug st)) /\
  quiet st (snd (checkClosed self false debug st)).
Proof. split; [apply calm_checkClosed|apply quiet_checkClosed]. Qed.

(** ** The outcome of [checkClosed] *)

(** X6: [checkClosed] never gets to compare two edges.  On a loop without
    edges it returns [True].  On every other loop the first round of its
    loop ends in an exception, whatever [fix] and [debug] are: IndexError
    when the loop has no orientation at all, and otherwise AttributeError,
    raised where the round asks [pyfrp_misc_module] for [modIdx].  Nothing
    is changed and nothing is printed. *)
Theorem checkClosed_outcome (self : ref) (fix_ debug : bool) (st : state) :
  checkClosed self fix_ debug st
  = match ll_edges (h_lineLoop (st_heap st) self),
          ll_orientations (h_lineLoop (st_heap st) self) with
    | [], _ => (Ok true, st)
    | _ :: _, [] => (Raise IndexError, st)
    | _ :: _, _ :: _ => (Raise AttributeError, st)
    end.
Proof.
  unfold checkClosed. erewrite bind_ok by reflexivity. cbv beta.
  destruct (ll_edges (h_lineLoop (st_heap st) self)) as [|e es] eqn:E;
    [reflexivity|].
  cbn [length seq fold_M].
  destruct (ll_orientations (h_lineLoop (st_heap st) self)) as [|o os] eqn:O.
  - apply bind_raise. unfold checkClosed_body.
    erewrite bind_ok by reflexivity. cbv beta zeta. rewrite E, O. reflexivity.
  - apply bind_raise. unfold checkClosed_body.
    erewrite bind_ok by reflexivity. cbv beta zeta. rewrite E, O. reflexivity.
Qed.

(** ** Ruled surfaces on loops that need no triangulation *)

Lemma initLineLoop_small triangulatePoly rec self lid l k st :
  getLineLoopById st lid = Some (l, k) ->
  (length (ll_edges (h_lineLoop (st_heap st) l)) <= 4)%nat ->
  initLineLoop triangulatePoly rec self lid st
  = (Ok false,
     State (put_ruledSurface self
              (RuledSurface (ruledSurface_Id st self) (Some l)) (st_heap st))
           (st_dom st) (st_out st)).
Proof.
  intros Hget Hlen. unfold initLineLoop.
  erewrite bind_ok by reflexivity. cbv beta. rewrite Hget. simpl fmap.
  erewrite bind_ok by apply set_lineLoop_run. cbv beta.
  erewrite bind_ok by reflexivity. cbv beta.
  rewrite (proj2 (Nat.leb_le _ _) Hlen). reflexivity.
Qed.

Lemma initLineLoop_missing triangulatePoly rec self lid st :
  getLineLoopById st lid = None ->
  initLineLoop triangulatePoly rec self lid st
  = (Raise AttributeError,
     State (put_ruledSurface self
              (RuledSurface (ruledSurface_Id st self) None) (st_heap st))
           (st_dom st) (st_out st)).
Proof.
  intros Hget. unfold initLineLoop.
  erewrite bind_ok by reflexivity. cbv beta. rewrite Hget. simpl fmap.
  erewrite bind_ok by apply set_lineLoop_run. reflexivity.
Qed.

(** X7: [addRuledSurface] on the identifier of a loop with at most 4 edges
    returns a new surface that holds this loop, appended to
    [ruledSurfaces] under an identifier that no surface had; nothing else
    changes, no message but that of the identifier check is printed, and
    the triangulation routine plays no part. *)
Theorem addRuledSurface_small_loop triangulatePoly Id lineLoopID l k st :
  getLineLoopById st lineLoopID = Some (l, k) ->
  (length (ll_edges (h_lineLoop (st_heap st) l)) <= 4)%nat ->
  exists newId out,
    getNewId (ruledSurface_Id st) (ruledSurfaces (st_dom st)) Id st
    = (Ok newId, State (st_heap st) (st_dom st) (st_out st ++ out)) /\
    (newId ∉ ruledSurface_Id st <$> ruledSurfaces (st_dom st)) /\
    addRuledSurface triangulatePoly Id lineLoopID st
    = (Ok (h_next (st_heap st)),
       State (put_ruledSurface (h_next (st_heap st)) (RuledSurface newId (Some l))
                (bump (put_ruledSurface (h_next (st_heap st))
                                        (RuledSurface newId None) (st_heap st))))
             (with_ruledSurfaces (ruledSurfaces (st_dom st) ++ [h_next (st_heap st)])
                                 (st_dom st))
             (st_out st ++ out)).
Proof.
  intros Hget Hlen.
  destruct (getNewId_run (ruledSurface_Id st) (ruledSurfaces (st_dom st)) Id st)
    as (newId & out & Hrun & Hfresh & _).
  exists newId, out. split; [exact Hrun|]. split; [exact Hfresh|].
  unfold addRuledSurface. simpl addRuledSurface_depth. unfold addRuledSurface_body.
  erewrite bind_ok by reflexivity. cbv beta.
  erewrite bind_ok by exact Hrun. cbv beta.
  unfold ruledSurface_init. rewrite bind_assoc.
  erewrite bind_ok by reflexivity. cbv beta. rewrite bind_assoc.
  destruct st as [h d o]. cbn [st_heap st_dom st_out] in *.
  erewrite bind_ok.
  2:{ apply (initLineLoop_small _ _ _ lineLoopID l k); [exact Hget|exact Hlen]. }
  cbv beta. unfold bind, ret, append_to, modify, ruledSurface_Id. simpl.
  rewrite fn_lookup_insert. reflexivity.
Qed.

Lemma addRuledSurface_small_loop_witness :
  getLineLoopById square_domain 1 = Some (8%nat, 0%nat) /\
  fst (addRuledSurface fan None 1 square_domain) = Ok 9%nat.
Proof.
  split; [vm_compute; reflexivity|].
  destruct (addRuledSurface_small_loop fan None 1 8%nat 0%nat square_domain)
    as (newId & out & _ & _ & ->);
    [vm_compute; reflexivity|vm_compute; lia|].
  vm_compute. reflexivity.
Defined.

(** X8: [addRuledSurface] on an identifier that no line loop of the domain
    has raises (the lookup gave [False], which has no edges), for every
    requested identifier: the surface object has been created, but it is
    not appended, and every list of the domain is as before. *)
Theorem addRuledSurface_missing_loop triangulatePoly Id lineLoopID st :
  getLineLoopById st lineLoopID = None ->
  fst (addRuledSurface triangulatePoly Id lineLoopID st) = Raise AttributeError /\
  st_dom (snd (addRuledSurface triangulatePoly Id lineLoopID st)) = st_dom st /\
  h_next (st_heap (snd (addRuledSurface triangulatePoly Id lineLoopID st)))
  = S (h_next (st_heap st)).
Proof.
  intros Hget.
  destruct (getNewId_run (ruledSurface_Id st) (ruledSurfaces (st_dom st)) Id st)
    as (newId & out & Hrun & _ & _).
  unfold addRuledSurface. simpl addRuledSurface_depth. unfold addRuledSurface_body.
  erewrite bind_ok by reflexivity. cbv beta.
  erewrite bind_ok by exact Hrun. cbv beta.
  unfold ruledSurface_init. rewrite bind_assoc.
  erewrite bind_ok by reflexivity. cbv beta. rewrite bind_assoc.
  destruct st as [h d o]. cbn [st_heap st_dom st_out] in *.
  erewrite bind_raise.
  2:{ apply (initLineLoop_missing _ _ _ lineLoopID). exact Hget. }
  simpl. auto.
Qed.

Lemma addRuledSurface_missing_loop_witness :
  getLineLoopById square_domain 7 = None /\
  fst (addRuledSurface fan None 7 square_domain) = Raise AttributeError.
Proof.
  split; [vm_compute; reflexivity|].
  apply (addRuledSurface_missing_loop fan None 7 square_domain).
  vm_compute. reflexivity.
Defined.

(** ** Ruled surfaces on loops that would be triangulated *)




(** ** Largest identifiers *)

Lemma getMaxID_run el st :
  getMaxID el st
  = (match element_Id el st <$> elements el (st_dom st) with
     | [] => Raise ValueError
     | x :: l => Ok (py_max x l)
     end, st).
Proof.
  unfold getMaxID. erewrite bind_ok by reflexivity. cbv beta.
  destruct (element_Id el st <$> elements el (st_dom st)); reflexivity.
Qed.

Lemma is_max_app_l m l l' m' :
  is_max m l -> is_max m' l' -> m' <= m -> is_max m (l ++ l').
Proof.
  intros [Hin Hub] [Hin' Hub'] Hle. split.
  - apply elem_of_app. left. exact Hin.
  - intros x Hx. apply elem_of_app in Hx as [Hx|Hx]; [auto|].
    specialize (Hub' x Hx). lia.
Qed.

Lemma is_max_app_r m l l' m' :
  is_max m l -> is_max m' l' -> m <= m' -> is_max m' (l ++ l').
Proof.
  intros [Hin Hub] [Hin' Hub'] Hle. split.
  - apply elem_of_app. right. exact Hin'.
  - intros x Hx. apply elem_of_app in Hx as [Hx|Hx]; [|auto].
    specialize (Hub x Hx). lia.
Qed.

Lemma is_max_app m l m' l' :
  is_max m l -> is_max m' l' -> is_max (Z.max m m') (l ++ l').
Proof.
  intros H H'. destruct (Z.max_spec m m') as [[Hlt ->]|[Hle ->]].
  - eapply is_max_app_r; eauto; lia.
  - eapply is_max_app_l; eauto; lia.
Qed.

(** X10: [getAllMaxID] changes nothing.  It raises, with the error of
    [max] on an empty list, exactly when one of the seven lists vertices,
    lines, arcs, lineLoops, ruledSurfaces, surfaceLoops and volumes is
    empty; otherwise it returns the largest identifier of all objects in
    these lists. *)
Theorem getAllMaxID_spec (st : state) :
  snd (getAllMaxID st) = st /\
  match fst (getAllMaxID st) with
  | Ok m => (forall el, elements el (st_dom st) <> []) /\ is_max m (all_Ids st)
  | Raise e => e = ValueError /\ exists el, elements el (st_dom st) = []
  end.
Proof.
  unfold getAllMaxID.
  repeat match goal with
  | |- context [bind (getMaxID ?el) _ st] =>
      let l := fresh "l" in let E := fresh "E" in
      destruct (elements el (st_dom st)) as [|? l] eqn:E;
      [ erewrite bind_raise by (rewrite getMaxID_run, E; reflexivity);
        split; [reflexivity|]; split; [reflexivity|]; exists el; exact E
      | erewrite bind_ok by (rewrite getMaxID_run, E; reflexivity); cbv beta ]
  end.
  split; [reflexivity|]. simpl fst. split.
  - intros []; congruence.
  - unfold all_Ids. simpl in E, E0, E1, E2, E3, E4, E5.
    rewrite E, E0, E1, E2, E3, E4, E5.
    change (py_max ?a [?b; ?c; ?d; ?e; ?f; ?g])
      with (Z.max (Z.max (Z.max (Z.max (Z.max (Z.max a b) c) d) e) f) g).
    rewrite !app_assoc.
    repeat apply is_max_app; apply (py_max_is_max _ _).
Qed.

(** ** The extent of the domain *)

Lemma py_min_is_min x l : is_min (py_min x l) (x :: l).
Proof.
  unfold py_min. revert x. induction l as [|y l IH]; intros x; simpl.
  - split; [left|]. intros z Hz. apply list_elem_of_singleton in Hz. lia.
  - destruct (IH (Z.min x y)) as [Hin Hlb]. split.
    + apply elem_of_cons in Hin as [Heq|Hin].
      * rewrite Heq. destruct (Z.min_spec x y) as [[_ ->]|[_ ->]].
        -- left.
        -- right; left.
      * right; right; exact Hin.
    + intros z Hz.
      assert (foldl Z.min (Z.min x y) l <= Z.min x y) by (apply Hlb; left).
      apply elem_of_cons in Hz as [->|Hz]; [lia|].
      apply elem_of_cons in Hz as [->|Hz]; [lia|].
      apply Hlb. right. exact Hz.
Qed.

Lemma xyz_map_run (h : heap) (vs : list ref) st :
  Forall (fun v => (3 <= length (v_x (h_vertex h v)))%nat) vs ->
  map_M vs (fun v => xyz (v_x (h_vertex h v))) st
  = (Ok ((fun v => (default 0 (v_x (h_vertex h v) !! 0%nat),
                    default 0 (v_x (h_vertex h v) !! 1%nat),
                    default 0 (v_x (h_vertex h v) !! 2%nat))) <$> vs), st).
Proof.
  intros H. apply map_M_run. apply Forall2_fmap_r.
  apply Forall_Forall2_diag. eapply list.Forall_impl; [exact H|].
  intros v Hv. simpl in *. rewrite xyz_run.
  destruct (v_x (h_vertex h v)) as [|x0 [|x1 [|x2 ?]]]; simpl in *; try lia.
  reflexivity.
Qed.

(** X11: [getExtend] changes nothing.  On a domain without vertices it
    raises (the error of [min] on an empty list).  On a domain whose
    vertices all have at least three coordinates it returns, for each of
    the first three coordinates, the smallest and the largest value that a
    vertex of the domain has there. *)
Theorem getExtend_spec (st : state) :
  Forall (fun v => (3 <= length (v_x (h_vertex (st_heap st) v)))%nat)
         (vertices (st_dom st)) ->
  match vertices (st_dom st) with
  | [] => getExtend st = (Raise ValueError, st)
  | _ :: _ =>
      exists minx maxx miny maxy minz maxz,
        getExtend st = (Ok (minx, maxx, miny, maxy, minz, maxz), st) /\
        is_min minx (vertex_coords st 0) /\ is_max maxx (vertex_coords st 0) /\
        is_min miny (vertex_coords st 1) /\ is_max maxy (vertex_coords st 1) /\
        is_min minz (vertex_coords st 2) /\ is_max maxz (vertex_coords st 2)
  end.
Proof.
  intros H3. unfold getExtend, vertex_coords.
  destruct (vertices (st_dom st)) as [|v vs] eqn:E.
  - erewrite bind_ok by reflexivity. cbv beta. rewrite E. reflexivity.
  - erewrite bind_ok by reflexivity. cbv beta. rewrite E.
    erewrite bind_ok by (apply xyz_map_run; exact H3). cbv beta zeta.
    rewrite <- !list_fmap_compose. rewrite !fmap_cons. simpl.
    do 6 eexists. split; [reflexivity|].
    repeat split; first
      [ apply (proj1 (py_min_is_min _ _)) | apply (proj2 (py_min_is_min _ _))
      | apply (proj1 (py_max_is_max _ _)) | apply (proj2 (py_max_is_max _ _)) ].
Qed.

Lemma getExtend_spec_witness :
  Forall (fun v => (3 <= length (v_x (h_vertex (st_heap square_domain) v)))%nat)
         (vertices (st_dom square_domain)) /\
  exists minx maxx miny maxy minz maxz,
    getExtend square_domain = (Ok (minx, maxx, miny, maxy, minz, maxz), square_domain) /\
    is_min minx (vertex_coords square_domain 0) /\
    is_max maxx (vertex_coords square_domain 0).
Proof.
  assert (Hc : Forall (fun v => (3 <= length (v_x (h_vertex (st_heap square_domain) v)))%nat)
                      (vertices (st_dom square_domain)))
    by (vm_compute; repeat constructor).
  split; [exact Hc|].
  pose proof (getExtend_spec square_domain Hc) as H.
  assert (E : vertices (st_dom square_domain) = [0; 1; 2; 3]%nat)
    by (vm_compute; reflexivity).
  destruct (vertices (st_dom square_domain)) as [|v vs]; [discriminate E|].
  destruct H as (minx & maxx & miny & maxy & minz & maxz & Hrun & H1 & H2 & _).
  exists minx, maxx, miny, maxy, minz, maxz. auto.
Defined.

(** ** Turning coordinates into a plane *)

Lemma np_roll_lookup {A} (x : list A) (n k : nat) (y : A) :
  x !! k = Some y -> np_roll x n !! ((k + n) mod length x)%nat = Some y.
Proof.
  intros Hk. pose proof (lookup_lt_Some _ _ _ Hk) as Hlt.
  unfold np_roll.
  pose proof (Nat.mod_upper_bound n (length x) ltac:(lia)) as Hmod.
  rewrite <- (lookup_rotate_l x (length x - n mod length x) k Hlt) in Hk.
  rewrite <- Hk. f_equal.
  unfold rotate_nat_sub.
  apply Nat2Z.inj. rewrite Z2Nat.id by (apply Z.mod_pos_bound; lia).
  rewrite Nat2Z.inj_mod, Nat2Z.inj_add.
  rewrite Nat2Z.inj_sub by lia. rewrite Nat2Z.inj_mod.
  replace (Z.of_nat (length x) + Z.of_nat k
           - (Z.of_nat (length x) - Z.of_nat n mod Z.of_nat (length x)))
    with (Z.of_nat k + Z.of_nat n mod Z.of_nat (length x)) by lia.
  rewrite Zplus_mod_idemp_r. reflexivity.
Qed.

(** X12: [flipCoordinate] rolls the coordinates to the right by the
    distance between the two axis letters in the alphabet: entry [k] of the
    coordinate becomes entry [k + distance] of the result, counted modulo
    the number of coordinates.  The two axes can be swapped without changing
    the result.  If one of the axes is not found among the lowercase
    letters, the call raises. *)
Theorem flipCoordinate_spec (x : list Z) (destAxis origAxis : string) (st : state) :
  flipCoordinate x destAxis origAxis st = flipCoordinate x origAxis destAxis st /\
  match String.index 0 destAxis lowercase, String.index 0 origAxis lowercase with
  | Some i, Some j =>
      exists x', flipCoordinate x destAxis origAxis st = (Ok x', st) /\
        length x' = length x /\
        forall k y, x !! k = Some y ->
          x' !! ((k + Z.abs_nat (Z.of_nat i - Z.of_nat j)) mod length x)%nat = Some y
  | _, _ => flipCoordinate x destAxis origAxis st = (Raise ValueError, st)
  end.
Proof.
  unfold flipCoordinate, lowercase_index.
  destruct (String.index 0 destAxis lowercase) as [i|];
    destruct (String.index 0 origAxis lowercase) as [j|]; simpl.
  - split.
    + unfold bind, ret. simpl. do 3 f_equal. lia.
    + eexists. split; [reflexivity|]. split.
      * unfold np_roll. apply length_rotate.
      * intros k y Hk. apply np_roll_lookup. exact Hk.
  - split; reflexivity.
  - split; reflexivity.
  - split; reflexivity.
Qed.

(** ** Editing loops *)

(** X13: [removeEdgeByID] removes no edge.  It looks for the integer
    [abs(ID)] among the entries of the loop, which are edge objects; so for
    every [ID] other than 0, and for every [ID] on a loop whose entries are
    all edge objects, the call raises and the loop is as before. *)
Theorem removeEdgeByID_raises (self : ref) (ID : Z) (st : state) :
  ID <> 0 \/
  Forall (fun e => exists r, e = Some r) (ll_edges (h_lineLoop (st_heap st) self)) ->
  removeEdgeByID self ID st = (Raise ValueError, st).
Proof.
  intros H. unfold removeEdgeByID.
  erewrite bind_ok by reflexivity. cbv beta zeta.
  destruct (list_find _ _) as [[idx e]|] eqn:Hfind; [|reflexivity].
  exfalso. apply list_find_Some in Hfind as (Hidx & He & _).
  destruct e as [r|]; [discriminate|]. simpl in He. apply Z.eqb_eq in He.
  destruct H as [HID|Hall]; [lia|].
  destruct (Forall_lookup_1 _ _ _ _ Hall Hidx) as [r Hr]. discriminate.
Qed.

Lemma removeEdgeByID_raises_witness :
  getEdgeById triangle_state 1 = Some (3%nat, 0%nat) /\
  Some 3%nat ∈ ll_edges (h_lineLoop (st_heap triangle_state) triangle_loop) /\
  removeEdgeByID triangle_loop 1 triangle_state = (Raise ValueError, triangle_state).
Proof.
  split; [vm_compute; reflexivity|]. split; [vm_compute; left|].
  apply (removeEdgeByID_raises triangle_loop 1 triangle_state). left. lia.
Defined.

Lemma list_remove_head {A} `{EqDecision A} (x : A) (l : list A) :
  list_remove x (x :: l) = Ok l.
Proof.
  unfold list_remove. simpl. destruct (decide (x = x)); [reflexivity|congruence].
Qed.

Lemma list_remove_snoc {A} `{EqDecision A} (x : A) (l : list A) :
  list_remove x (l ++ [x])
  = Ok (match list_find (fun y => y = x) l with
        | Some (i, _) => delete i l ++ [x]
        | None => l
        end).
Proof.
  unfold list_remove. destruct (list_find (fun y => y = x) l) as [[i y]|] eqn:Hfind.
  - pose proof Hfind as Hf. apply list_find_Some in Hf as (Hi & _ & _).
    rewrite (list_find_app_l _ _ _ _ _ Hfind).
    rewrite delete_app_l by (eapply lookup_lt_Some; exact Hi). reflexivity.
  - rewrite list_find_app_r by exact Hfind. simpl.
    destruct (decide (x = x)); [|congruence]. simpl.
    replace (delete (length l) (l ++ [x])) with l; [reflexivity|].
    clear. induction l as [|a l IH]; simpl; [reflexivity|]. f_equal. exact IH.
Qed.

Lemma py_insert_0 {A} (x : A) (l : list A) : py_insert 0 x l = x :: l.
Proof.
  unfold py_insert. simpl. rewrite Z.min_l by lia. reflexivity.
Qed.

(** X14: a surface inserted at the front of a surface loop by
    [insertSurfaceByID(ID,0)] is taken out again by [removeSurfaceByID(ID)],
    which restores the loop, whether or not a surface has the identifier
    [ID].  After [addSurfaceByID(ID)], which appends, [removeSurfaceByID(ID)]
    restores the loop only if the entry was not in the loop before;
    otherwise it removes the earlier entry and leaves the appended one. *)
Theorem insert_remove_surface (self : ref) (ID : Z) (st : state) :
  let ss := sl_surfaces (h_surfaceLoop (st_heap st) self) in
  let s := fst <$> getRuledSurfaceById st ID in
  let st1 := snd (insertSurfaceByID self ID 0 st) in
  let st2 := snd (addSurfaceByID self ID st) in
  fst (removeSurfaceByID self ID st1) = Ok ss /\
  h_surfaceLoop (st_heap (snd (removeSurfaceByID self ID st1))) self
  = h_surfaceLoop (st_heap st) self /\
  fst (removeSurfaceByID self ID st2)
  = Ok (match list_find (fun y => y = s) ss with
        | Some (i, _) => delete i ss ++ [s]
        | None => ss
        end).
Proof.
  destruct st as [h d o]. cbv zeta. simpl st_heap.
  unfold insertSurfaceByID, addSurfaceByID, removeSurfaceByID, set_surfaces.
  unfold bind, get, modify, ret. simpl.
  unfold getRuledSurfaceById, ruledSurface_Id. simpl.
  rewrite !fn_lookup_insert. simpl.
  rewrite py_insert_0.
  rewrite list_remove_head, list_remove_snoc. simpl.
  rewrite !fn_lookup_insert. simpl.
  destruct (h_surfaceLoop h self) as [i ss]. simpl. auto.
Qed.

(** ** Reversing an edge of a loop *)

Lemma reverseEdge_run self ID st :
  let l := h_lineLoop (st_heap st) self in
  reverseEdge self ID st
  = match list_find (fun y => y = fst <$> getEdgeById st (Z.abs ID)) (ll_edges l) with
    | None => (Raise ValueError, st)
    | Some (idx, _) =>
        match ll_orientations l !! idx with
        | None => (Raise IndexError, st)
        | Some o =>
            (Ok (<[idx := - o]> (ll_orientations l)),
             State (put_lineLoop self
                      (LineLoop (ll_Id l) (ll_edges l)
                                (<[idx := - o]> (ll_orientations l)))
                      (st_heap st))
                   (st_dom st) (st_out st))
        end
    end.
Proof.
  cbv zeta. unfold reverseEdge. erewrite bind_ok by reflexivity. cbv beta zeta.
  unfold list_index.
  destruct (list_find _ _) as [[idx y]|]; [|reflexivity].
  erewrite bind_ok by reflexivity. cbv beta.
  unfold index. destruct (ll_orientations _ !! idx) as [o|]; reflexivity.
Qed.

(** X15: [reverseEdge] looks the edge up by [abs(ID)] and negates the
    orientation at the first position at which the loop holds it; nothing
    else changes.  It raises, leaving everything as it is, if the loop does
    not hold the edge found (or holds no [False] when no edge is found), or
    if the loop has no orientation at that position.  A second call with
    the same [ID] undoes the first: it returns the orientations the loop
    had, and the loop is as it was. *)
Theorem reverseEdge_twice (self : ref) (ID : Z) (st : state) :
  let l := h_lineLoop (st_heap st) self in
  match list_find (fun y => y = fst <$> getEdgeById st (Z.abs ID)) (ll_edges l) with
  | None => reverseEdge self ID st = (Raise ValueError, st)
  | Some (idx, _) =>
      match ll_orientations l !! idx with
      | None => reverseEdge self ID st = (Raise IndexError, st)
      | Some o =>
          exists st1 st2,
            reverseEdge self ID st = (Ok (<[idx := - o]> (ll_orientations l)), st1) /\
            h_lineLoop (st_heap st1) self
            = LineLoop (ll_Id l) (ll_edges l) (<[idx := - o]> (ll_orientations l)) /\
            calm st st1 /\
            reverseEdge self ID st1 = (Ok (ll_orientations l), st2) /\
            h_lineLoop (st_heap st2) self = l /\
            calm st st2
      end
  end.
Proof.
  cbv zeta. rewrite reverseEdge_run. cbv zeta.
  destruct (list_find _ _) as [[idx y]|] eqn:Hfind; [|reflexivity].
  destruct (ll_orientations _ !! idx) as [o|] eqn:Ho; [|reflexivity].
  eexists. eexists. split; [reflexivity|].
  pose proof (calm_reverseEdge self ID st) as Hcalm1.
  rewrite reverseEdge_run in Hcalm1. cbv zeta in Hcalm1.
  rewrite Hfind, Ho in Hcalm1. simpl snd in Hcalm1.
  set (st1 := State _ _ _) in *.
  assert (Hl1 : h_lineLoop (st_heap st1) self
                = LineLoop (ll_Id (h_lineLoop (st_heap st) self))
                           (ll_edges (h_lineLoop (st_heap st) self))
                           (<[idx := - o]> (ll_orientations (h_lineLoop (st_heap st) self)))).
  { subst st1. simpl. apply fn_lookup_insert. }
  split; [exact Hl1|]. split; [exact Hcalm1|].
  pose proof (calm_reverseEdge self ID st1) as Hcalm2.
  rewrite reverseEdge_run in Hcalm2 |- *. cbv zeta in Hcalm2 |- *.
  assert (Hget : getEdgeById st1 (Z.abs ID) = getEdgeById st (Z.abs ID))
    by (destruct st; reflexivity).
  rewrite Hget, Hl1 in Hcalm2 |- *. simpl ll_edges in *. simpl ll_orientations in *.
  simpl ll_Id in *.
  rewrite Hfind in Hcalm2 |- *.
  assert (Ho' : <[idx := - o]> (ll_orientations (h_lineLoop (st_heap st) self)) !! idx
                = Some (- o)).
  { apply list_lookup_insert_eq. eapply lookup_lt_Some. exact Ho. }
  rewrite Ho' in Hcalm2 |- *.
  rewrite list_insert_insert_eq, Z.opp_involutive, (list_insert_id _ _ _ Ho)
    in Hcalm2 |- *.
  simpl snd in Hcalm2.
  split; [reflexivity|]. split.
  - simpl. rewrite fn_lookup_insert.
    destruct (h_lineLoop (st_heap st) self); reflexivity.
  - eapply calm_trans; eassumption.
Qed.

(** ** Shifting identifiers back and forth *)

Lemma incrementAllIDs_objects (offset : Z) (st : state) :
  no_repeats (st_dom st) ->
  let st' := snd (incrementAllIDs offset st) in
  st_dom st' = st_dom st /\
  st_out st' = st_out st /\
  h_next (st_heap st') = h_next (st_heap st) /\
  (forall r, h_vertex (st_heap st') r
     = on_members (vertices (st_dom st)) (shift_vertex offset)
                  (h_vertex (st_heap st)) r) /\
  (forall r, h_edge (st_heap st') r
     = on_members (lines (st_dom st) ++ arcs (st_dom st)) (shift_edge offset)
                  (h_edge (st_heap st)) r) /\
  (forall r, h_lineLoop (st_heap st') r
     = on_members (lineLoops (st_dom st)) (shift_lineLoop offset)
                  (h_lineLoop (st_heap st)) r) /\
  (forall r, h_ruledSurface (st_heap st') r
     = on_members (ruledSurfaces (st_dom st)) (shift_ruledSurface offset)
                  (h_ruledSurface (st_heap st)) r) /\
  (forall r, h_surfaceLoop (st_heap st') r
     = on_members (surfaceLoops (st_dom st)) (shift_surfaceLoop offset)
                  (h_surfaceLoop (st_heap st)) r) /\
  (forall r, h_volume (st_heap st') r
     = on_members (volumes (st_dom st)) (shift_volume offset)
                  (h_volume (st_heap st)) r).
Proof.
  intros (Hv & He & Hll & Hrs & Hsl & Hvol & Hsub). cbv zeta.
  rewrite incrementAllIDs_run. simpl.
  split; [reflexivity|]. split; [reflexivity|]. split; [reflexivity|].
  split; [intros r; apply foldl_update; assumption|].
  split; [intros r; apply foldl_update; assumption|].
  split; [intros r; apply foldl_update; assumption|].
  split; [intros r; apply foldl_update; assumption|].
  split; [intros r; apply foldl_update; assumption|].
  intros r; apply foldl_update; assumption.
Qed.

Lemma on_members_undo {A} (l : list ref) (f f' : A -> A) (g g' : ref -> A) r :
  (forall a, f' (f a) = a) ->
  (forall x, g' x = on_members l f g x) ->
  on_members l f' g' r = g r.
Proof.
  intros Hff Hg. unfold on_members in *. rewrite Hg.
  case_bool_decide; [apply Hff|reflexivity].
Qed.

(** X16: on a domain in which no object is listed twice,
    [incrementAllIDs(offset)] followed by [incrementAllIDs(-offset)] gives
    every object back as it was; the lists of the domain, the messages and
    the objects outside the lists are never touched. *)
Theorem incrementAllIDs_undo (offset : Z) (st : state) :
  no_repeats (st_dom st) ->
  let st2 := snd (incrementAllIDs (- offset) (snd (incrementAllIDs offset st))) in
  st_dom st2 = st_dom st /\ st_out st2 = st_out st /\
  h_next (st_heap st2) = h_next (st_heap st) /\
  (forall r, h_vertex (st_heap st2) r = h_vertex (st_heap st) r) /\
  (forall r, h_edge (st_heap st2) r = h_edge (st_heap st) r) /\
  (forall r, h_lineLoop (st_heap st2) r = h_lineLoop (st_heap st) r) /\
  (forall r, h_ruledSurface (st_heap st2) r = h_ruledSurface (st_heap st) r) /\
  (forall r, h_surfaceLoop (st_heap st2) r = h_surfaceLoop (st_heap st) r) /\
  (forall r, h_volume (st_heap st2) r = h_volume (st_heap st) r).
Proof.
  intros Hnr. cbv zeta.
  destruct (incrementAllIDs_objects offset st Hnr)
    as (D1 & O1 & N1 & V1 & E1 & L1 & R1 & S1 & U1).
  set (st1 := snd (incrementAllIDs offset st)) in *.
  assert (Hnr1 : no_repeats (st_dom st1)) by (rewrite D1; exact Hnr).
  destruct (incrementAllIDs_objects (- offset) st1 Hnr1)
    as (D2 & O2 & N2 & V2 & E2 & L2 & R2 & S2 & U2).
  rewrite D1 in V2, E2, L2, R2, S2, U2.
  split; [congruence|]. split; [congruence|]. split; [congruence|].
  split; [|split; [|split; [|split; [|split]]]]; intros r.
  - rewrite V2. apply (on_members_undo _ (shift_vertex offset)); [|exact V1].
    intros [x i s]. unfold shift_vertex. simpl. f_equal. lia.
  - rewrite E2. apply (on_members_undo _ (shift_edge offset)); [|exact E1].
    intros [i k]. unfold shift_edge. simpl. f_equal. lia.
  - rewrite L2. apply (on_members_undo _ (shift_lineLoop offset)); [|exact L1].
    intros [i es os]. unfold shift_lineLoop. simpl. f_equal. lia.
  - rewrite R2. apply (on_members_undo _ (shift_ruledSurface offset)); [|exact R1].
    intros [i l]. unfold shift_ruledSurface. simpl. f_equal. lia.
  - rewrite S2. apply (on_members_undo _ (shift_surfaceLoop offset)); [|exact S1].
    intros [i l]. unfold shift_surfaceLoop. simpl. f_equal. lia.
  - rewrite U2. apply (on_members_undo _ (shift_volume offset)); [|exact U1].
    intros [i l]. unfold shift_volume. simpl. f_equal. lia.
Qed.

Lemma incrementAllIDs_undo_witness :
  no_repeats (st_dom triangle_state) /\
  forall r,
    h_vertex (st_heap (snd (incrementAllIDs (- 7)
                              (snd (incrementAllIDs 7 triangle_state))))) r
    = h_vertex (st_heap triangle_state) r.
Proof.
  split; [exact triangle_no_repeats|].
  apply (incrementAllIDs_undo 7 triangle_state triangle_no_repeats).
Defined.

Lemma find_Id_shift (f f' : ref -> Z) offset ID l k :
  (forall r, r ∈ l -> f' r = f r + offset) ->
  find_Id f' (ID + offset) l k = find_Id f ID l k.
Proof.
  revert k. induction l as [|x l IH]; intros k Hf; simpl; [reflexivity|].
  rewrite (Hf x) by left.
  rewrite IH by (intros r Hr; apply Hf; right; exact Hr).
  destruct (decide (f x = ID)) as [Heq|Hne].
  - rewrite !bool_decide_eq_true_2 by lia. reflexivity.
  - rewrite !bool_decide_eq_false_2 by lia. reflexivity.
Qed.

(** X17: on a domain in which no object is listed twice, the lookups by
    identifier follow [incrementAllIDs]: after the shift by [offset] each of
    the six lookups answers for [ID + offset] what it answered for [ID]
    before. *)
Theorem incrementAllIDs_lookups (offset ID : Z) (st : state) :
  no_repeats (st_dom st) ->
  let st' := snd (incrementAllIDs offset st) in
  getVertexById st' (ID + offset) = getVertexById st ID /\
  getEdgeById st' (ID + offset) = getEdgeById st ID /\
  getLineLoopById st' (ID + offset) = getLineLoopById st ID /\
  getRuledSurfaceById st' (ID + offset) = getRuledSurfaceById st ID /\
  getSurfaceLoopById st' (ID + offset) = getSurfaceLoopById st ID /\
  getVolumeById st' (ID + offset) = getVolumeById st ID.
Proof.
  intros Hnr. cbv zeta.
  destruct (incrementAllIDs_objects offset st Hnr)
    as (D1 & O1 & N1 & V1 & E1 & L1 & R1 & S1 & U1).
  destruct Hnr as (_ & _ & _ & _ & _ & _ & Hsub).
  unfold getVertexById, getEdgeById, getLineLoopById, getRuledSurfaceById,
    getSurfaceLoopById, getVolumeById.
  rewrite D1.
  repeat split; apply find_Id_shift; intros r Hr.
  - unfold vertex_Id. rewrite V1. unfold on_members.
    rewrite bool_decide_eq_true_2 by exact Hr. reflexivity.
  - unfold edge_Id. rewrite E1. unfold on_members.
    rewrite bool_decide_eq_true_2 by (apply Hsub; exact Hr). reflexivity.
  - unfold lineLoop_Id. rewrite L1. unfold on_members.
    rewrite bool_decide_eq_true_2 by exact Hr. reflexivity.
  - unfold ruledSurface_Id. rewrite R1. unfold on_members.
    rewrite bool_decide_eq_true_2 by exact Hr. reflexivity.
  - unfold surfaceLoop_Id. rewrite S1. unfold on_members.
    rewrite bool_decide_eq_true_2 by exact Hr. reflexivity.
  - unfold volume_Id. rewrite U1. unfold on_members.
    rewrite bool_decide_eq_true_2 by exact Hr. reflexivity.
Qed.

Lemma incrementAllIDs_lookups_witness :
  no_repeats (st_dom triangle_state) /\
  getEdgeById (snd (incrementAllIDs 10 triangle_state)) (2 + 10)
  = getEdgeById triangle_state 2.
Proof.
  split; [exact triangle_no_repeats|].
  apply (incrementAllIDs_lookups 10 2 triangle_state triangle_no_repeats).
Defined.

(** ** Writing a line loop *)

Lemma signed_Ids_lookup {N} (st : state_of N) l k e o :
  ll_edges l !! k = Some (Some e) -> ll_orientations l !! k = Some o ->
  signed_Ids st l !! k = Some (o * edge_Id st e).
Proof.
  intros He Ho. unfold signed_Ids. rewrite lookup_zip_with, He. simpl.
  rewrite Ho. reflexivity.
Qed.

Lemma lineLoop_write_fold {N} (st : state_of N) (l : lineLoop) :
  resolved_loop l ->
  forall m k acc,
    (k + m = length (ll_edges l))%nat -> (0 < m)%nat ->
    fold_M (fun f i =>
        do s <- index (ll_edges l) i;
        do o <- index (ll_orientations l) i;
        do s <- attr s;
        let f := f +:+ str (o * edge_Id st s) in
        if bool_decide (Z.of_nat i ≠ Z.of_nat (length (ll_edges l)) - 1)
        then ret (f +:+ ",")
        else ret (f +:+ "};" +:+ nl))
      acc (seq k m) st
    = (Ok (acc +:+ join_comma (str <$> drop k (signed_Ids st l)) +:+ "};" +:+ nl), st).
Proof.
  intros [Hlen Hsome]. induction m as [|m IH]; intros k acc Hk Hm; [lia|].
  assert (Hlt : (k < length (ll_edges l))%nat) by lia.
  destruct (lookup_lt_is_Some_2 (ll_edges l) k Hlt) as [oe He].
  destruct (Forall_lookup_1 _ _ _ _ Hsome He) as [e ->].
  destruct (lookup_lt_is_Some_2 (ll_orientations l) k ltac:(lia)) as [o Ho].
  pose proof (signed_Ids_lookup st l k e o He Ho) as Hitem.
  rewrite (drop_S _ _ _ Hitem).
  cbn [seq fold_M]. cbv beta.
  assert (Hbody : forall (b : bool) (x y : string),
            (do s <- index (ll_edges l) k;
             do o0 <- index (ll_orientations l) k;
             do s0 <- attr s;
             let f0 := acc +:+ str (o0 * edge_Id st s0) in
             if b then ret (f0 +:+ x) else ret (f0 +:+ y)) st
            = (Ok ((acc +:+ str (o * edge_Id st e)) +:+ (if b then x else y)), st)).
  { intros b x y.
    erewrite bind_ok by (apply index_ok; exact He). cbv beta.
    erewrite bind_ok by (apply index_ok; exact Ho). cbv beta.
    erewrite bind_ok by reflexivity. cbv beta zeta. destruct b; reflexivity. }
  erewrite bind_ok by apply Hbody. cbv beta.
  destruct m as [|m].
  - rewrite bool_decide_eq_false_2 by lia. simpl fold_M.
    rewrite drop_ge by (unfold signed_Ids; rewrite length_zip_with; lia).
    simpl. unfold ret. rewrite !append_assoc. reflexivity.
  - rewrite bool_decide_eq_true_2 by lia.
    rewrite IH by lia.
    destruct (lookup_lt_is_Some_2 (signed_Ids st l) (S k)) as [y Hy].
    { unfold signed_Ids. rewrite length_zip_with. lia. }
    rewrite (drop_S _ _ _ Hy). rewrite !fmap_cons.
    cbn [join_comma]. rewrite !append_assoc. reflexivity.
Qed.

Lemma lineLoop_write_run {N} self f (st : state_of N) :
  resolved_loop (h_lineLoop (st_heap st) self) ->
  lineLoop_writeToFile self f st
  = (Ok (f +:+ match ll_edges (h_lineLoop (st_heap st) self) with
               | [] => "Line Loop(" +:+ str (ll_Id (h_lineLoop (st_heap st) self))
                         +:+ ")= {"
               | _ :: _ =>
                   LineLoop_statement (ll_Id (h_lineLoop (st_heap st) self))
                     (signed_Ids st (h_lineLoop (st_heap st) self))
               end), st).
Proof.
  intros Hres. unfold lineLoop_writeToFile.
  erewrite bind_ok by reflexivity. cbv beta zeta.
  destruct (ll_edges (h_lineLoop (st_heap st) self)) as [|e es] eqn:E.
  - simpl. reflexivity.
  - rewrite <- E.
    rewrite (lineLoop_write_fold st _ Hres (length (ll_edges (h_lineLoop (st_heap st) self)))
               0%nat) by (rewrite ?E; simpl; lia).
    rewrite drop_0. unfold LineLoop_statement. rewrite !append_assoc. reflexivity.
Qed.

(** X18: for a loop whose entries are all edge objects, with as many
    orientations, [lineLoop.writeToFile] appends the statement
    [Line Loop(Id)= {s1,...,sn};] and a line break, where [si] is the
    identifier of edge [i] times its orientation.  For a loop without
    entries it appends [Line Loop(Id)= {] alone: the statement is never
    closed.  Nothing is changed. *)
Theorem lineLoop_writeToFile_spec (self : ref) (f : string) (st : state) :
  resolved_loop (h_lineLoop (st_heap st) self) ->
  lineLoop_writeToFile self f st
  = (Ok (f +:+ match ll_edges (h_lineLoop (st_heap st) self) with
               | [] => "Line Loop(" +:+ str (ll_Id (h_lineLoop (st_heap st) self))
                         +:+ ")= {"
               | _ :: _ =>
                   LineLoop_statement (ll_Id (h_lineLoop (st_heap st) self))
                     (signed_Ids st (h_lineLoop (st_heap st) self))
               end), st).
Proof. apply lineLoop_write_run. Qed.

Lemma lineLoop_writeToFile_spec_witness :
  resolved_loop (h_lineLoop (st_heap triangle_state) triangle_loop) /\
  fst (lineLoop_writeToFile triangle_loop EmptyString triangle_state)
  = Ok (LineLoop_statement 1 [1; 2; 3]).
Proof.
  assert (H : resolved_loop (h_lineLoop (st_heap triangle_state) triangle_loop)).
  { split; [vm_compute; reflexivity|]. vm_compute. repeat constructor; eauto. }
  split; [exact H|].
  rewrite (lineLoop_writeToFile_spec triangle_loop EmptyString triangle_state H).
  vm_compute. reflexivity.
Defined.

Lemma addLineLoop_run Id edgeIDs st :
  exists newId out,
    (newId ∉ objAttrToList (lineLoop_Id st) (lineLoops (st_dom st))) /\
    addLineLoop Id edgeIDs st
    = (Ok (h_next (st_heap st)),
       State (bump (put_lineLoop (h_next (st_heap st))
                      (LineLoop newId
                         ((fun ID => fst <$> getEdgeById st (Z.abs ID)) <$> edgeIDs)
                         (Z.sgn <$> edgeIDs))
                      (st_heap st)))
             (with_lineLoops (lineLoops (st_dom st) ++ [h_next (st_heap st)])
                             (st_dom st))
             (st_out st ++ out)).
Proof.
  destruct (getNewId_run (lineLoop_Id st) (lineLoops (st_dom st)) Id st)
    as (newId & out & Hrun & Hfresh & _).
  exists newId, out. split; [exact Hfresh|].
  unfold addLineLoop. erewrite bind_ok by reflexivity. cbv beta.
  erewrite bind_ok by exact Hrun. cbv beta.
  erewrite bind_ok by reflexivity. cbv beta.
  unfold bind, new_object, append_to, modify, ret. simpl.
  rewrite initEdges_spec. destruct st; reflexivity.
Qed.

Lemma lineLoop_write_nonempty self f (st : state) :
  resolved_loop (h_lineLoop (st_heap st) self) ->
  ll_edges (h_lineLoop (st_heap st) self) <> [] ->
  lineLoop_writeToFile self f st
  = (Ok (f +:+ LineLoop_statement (ll_Id (h_lineLoop (st_heap st) self))
                 (signed_Ids st (h_lineLoop (st_heap st) self))), st).
Proof.
  intros Hres Hne. rewrite (lineLoop_write_run self f st Hres).
  destruct (ll_edges (h_lineLoop (st_heap st) self)); [congruence|reflexivity].
Qed.

(** X19: a loop made by [addLineLoop] from a non-empty list of signed edge
    identifiers, each of them non-zero and the identifier, up to its sign,
    of an edge of the domain, is written by [lineLoop.writeToFile] as the
    statement that lists exactly these signed identifiers, in order. *)
Theorem addLineLoop_write (Id : option Z) (edgeIDs : list Z) (st : state) :
  edgeIDs <> [] ->
  Forall (fun ID => ID <> 0 /\ Z.abs ID ∈ edge_Id st <$> edges (st_dom st)) edgeIDs ->
  exists loop st',
    addLineLoop Id edgeIDs st = (Ok loop, st') /\
    forall f,
      lineLoop_writeToFile loop f st'
      = (Ok (f +:+ LineLoop_statement (lineLoop_Id st' loop) edgeIDs), st').
Proof.
  intros Hne Hall.
  destruct (addLineLoop_run Id edgeIDs st) as (newId & out & _ & Hrun).
  rewrite Hrun. eexists. eexists. split; [reflexivity|]. intros f.
  set (st' := State _ _ _).
  assert (Hl : h_lineLoop (st_heap st') (h_next (st_heap st))
               = LineLoop newId
                   ((fun ID => fst <$> getEdgeById st (Z.abs ID)) <$> edgeIDs)
                   (Z.sgn <$> edgeIDs)).
  { subst st'. simpl. apply fn_lookup_insert. }
  assert (Hfound : forall ID, ID ∈ edgeIDs ->
            exists e i, getEdgeById st (Z.abs ID) = Some (e, i) /\
                        edge_Id st e = Z.abs ID /\ ID <> 0).
  { intros ID HID. rewrite list.Forall_forall in Hall.
    destruct (Hall ID HID) as [Hnz Hin].
    apply list_elem_of_fmap in Hin as (e0 & Heq & He0).
    destruct (find_Id_elem (edge_Id st) (edges (st_dom st)) e0 0 He0)
      as (y & i & Hfind & Hy).
    exists y, i. unfold getEdgeById. rewrite Heq. split; [exact Hfind|].
    split; [congruence|exact Hnz]. }
  assert (Hres : resolved_loop (h_lineLoop (st_heap st') (h_next (st_heap st)))).
  { rewrite Hl. split; simpl.
    - rewrite !length_fmap. reflexivity.
    - apply Forall_fmap. apply list.Forall_forall. intros ID HID. simpl.
      destruct (Hfound ID HID) as (e & i & -> & _). eauto. }
  rewrite (lineLoop_write_nonempty _ f st' Hres)
    by (rewrite Hl; simpl; destruct edgeIDs; [congruence|discriminate]).
  replace (lineLoop_Id st' (h_next (st_heap st))) with newId
    by (unfold lineLoop_Id; rewrite Hl; reflexivity).
  rewrite Hl. simpl ll_Id.
  assert (Hs : signed_Ids st'
                 (LineLoop newId
                    ((fun ID => fst <$> getEdgeById st (Z.abs ID)) <$> edgeIDs)
                    (Z.sgn <$> edgeIDs)) = edgeIDs).
  { unfold signed_Ids. simpl ll_edges. simpl ll_orientations.
    rewrite zip_with_fmap_l, zip_with_fmap_r, zip_with_diag.
    rewrite <- (list_fmap_id edgeIDs) at 2.
    apply list_fmap_ext. intros k ID Hk. simpl.
    destruct (Hfound ID (list_elem_of_lookup_2 _ _ _ Hk)) as (e & i & -> & HId & Hnz).
    simpl.
    assert (HId' : edge_Id st' e = Z.abs ID) by (destruct st; exact HId).
    rewrite HId'. rewrite Z.mul_comm. apply Z.abs_sgn. }
  rewrite Hs. reflexivity.
Qed.

Lemma addLineLoop_write_witness :
  exists loop st',
    addLineLoop None [1; -2; 3] square_domain = (Ok loop, st') /\
    lineLoop_writeToFile loop EmptyString st'
    = (Ok (LineLoop_statement (lineLoop_Id st' loop) [1; -2; 3]), st').
Proof.
  destruct (addLineLoop_write None [1; -2; 3] square_domain) as (loop & st' & Hrun & Hw).
  - discriminate.
  - assert (E : edge_Id square_domain <$> edges (st_dom square_domain) = [1; 2; 3; 4])
      by (vm_compute; reflexivity).
    rewrite E. repeat (apply List.Forall_cons; [split; [lia|compute_done]|]).
    apply List.Forall_nil.
  - exists loop, st'. split; [exact Hrun|]. apply (Hw EmptyString).
Defined.

(** ** The statements of the geometry file *)

Lemma surface_Ids_lookup {N} (st : state_of N) l k s :
  sl_surfaces l !! k = Some (Some s) ->
  surface_Ids st l !! k = Some (ruledSurface_Id st s).
Proof.
  intros Hs. unfold surface_Ids. rewrite list_lookup_fmap, Hs. reflexivity.
Qed.

Lemma surfaceLoop_write_fold {N} (st : state_of N) (l : surfaceLoop) :
  Forall (fun s => exists r, s = Some r) (sl_surfaces l) ->
  forall m k acc,
    (k + m = length (sl_surfaces l))%nat -> (0 < m)%nat ->
    fold_M (fun f i =>
        do s <- index (sl_surfaces l) i;
        do s <- attr s;
        let f := f +:+ str (ruledSurface_Id st s) in
        if bool_decide (Z.of_nat i ≠ Z.of_nat (length (sl_surfaces l)) - 1)
        then ret (f +:+ ",")
        else ret (f +:+ "};" +:+ nl))
      acc (seq k m) st
    = (Ok (acc +:+ join_comma (str <$> drop k (surface_Ids st l)) +:+ "};" +:+ nl), st).
Proof.
  intros Hsome. induction m as [|m IH]; intros k acc Hk Hm; [lia|].
  assert (Hlt : (k < length (sl_surfaces l))%nat) by lia.
  destruct (lookup_lt_is_Some_2 (sl_surfaces l) k Hlt) as [os Hs].
  destruct (Forall_lookup_1 _ _ _ _ Hsome Hs) as [s ->].
  rewrite (drop_S _ _ _ (surface_Ids_lookup st l k s Hs)).
  cbn [seq fold_M]. cbv beta.
  assert (Hbody : forall (b : bool) (x y : string),
            (do s0 <- index (sl_surfaces l) k;
             do s1 <- attr s0;
             let f0 := acc +:+ str (ruledSurface_Id st s1) in
             if b then ret (f0 +:+ x) else ret (f0 +:+ y)) st
            = (Ok ((acc +:+ str (ruledSurface_Id st s)) +:+ (if b then x else y)), st)).
  { intros b x y.
    erewrite bind_ok by (apply index_ok; exact Hs). cbv beta.
    erewrite bind_ok by reflexivity. cbv beta zeta. destruct b; reflexivity. }
  erewrite bind_ok by apply Hbody. cbv beta.
  destruct m as [|m].
  - rewrite bool_decide_eq_false_2 by lia. simpl fold_M.
    rewrite drop_ge by (unfold surface_Ids; rewrite length_fmap; lia).
    simpl. unfold ret. rewrite !append_assoc. reflexivity.
  - rewrite bool_decide_eq_true_2 by lia.
    rewrite IH by lia.
    destruct (lookup_lt_is_Some_2 (surface_Ids st l) (S k)) as [y Hy].
    { unfold surface_Ids. rewrite length_fmap. lia. }
    rewrite (drop_S _ _ _ Hy). rewrite !fmap_cons.
    cbn [join_comma]. rewrite !append_assoc. reflexivity.
Qed.

Lemma surfaceLoop_write_run {N} (str_number : N -> string) self f
    (st : state_of N) :
  Forall (fun s => exists r, s = Some r)
         (sl_surfaces (h_surfaceLoop (st_heap st) self)) ->
  surfaceLoop_writeToFile self f st
  = (Ok (f +:+ statement_text str_number st SurfaceLoops self), st).
Proof.
  intros Hres. unfold surfaceLoop_writeToFile, statement_text.
  erewrite bind_ok by reflexivity. cbv beta zeta.
  destruct (sl_surfaces (h_surfaceLoop (st_heap st) self)) as [|e es] eqn:E.
  - simpl. reflexivity.
  - rewrite <- E.
    rewrite (surfaceLoop_write_fold st _
               ltac:(rewrite E; exact Hres)
               (length (sl_surfaces (h_surfaceLoop (st_heap st) self))) 0%nat)
      by (rewrite ?E; simpl; lia).
    rewrite drop_0. unfold SurfaceLoop_statement. rewrite !append_assoc. reflexivity.
Qed.

Lemma printable_text {N} (str_number : N -> string) (st : state_of N) el v :
  printable st -> v ∈ elements el (st_dom st) ->
  entity_text str_number st el v = Ok (statement_text str_number st el v).
Proof.
  intros (Hv & Hl & Hs & Hsl & Hw) Hin. unfold entity_text.
  rewrite list.Forall_forall in Hv, Hl, Hs, Hsl, Hw.
  destruct el; cbn [entity_writeToFile elements] in *.
  - specialize (Hv v Hin). unfold vertex_writeToFile, statement_text.
    destruct (v_x (h_vertex (st_heap st) v)) as [|x0 [|x1 [|x2 x]]] eqn:E;
      simpl in Hv; try lia.
    erewrite bind_ok by reflexivity. cbv beta zeta. rewrite E.
    unfold bind, xyz, ret, Point_statement, vertex_Id. simpl.
    rewrite !append_assoc. reflexivity.
  - unfold edge_writeToFile, statement_text.
    erewrite bind_ok by reflexivity. cbv beta zeta.
    destruct (e_kind (h_edge (st_heap st) v));
      unfold ret, Line_statement, Circle_statement, edge_Id; simpl;
      rewrite !append_assoc; reflexivity.
  - unfold edge_writeToFile, statement_text.
    erewrite bind_ok by reflexivity. cbv beta zeta.
    destruct (e_kind (h_edge (st_heap st) v));
      unfold ret, Line_statement, Circle_statement, edge_Id; simpl;
      rewrite !append_assoc; reflexivity.
  - rewrite (lineLoop_write_run v EmptyString st (Hl v Hin)). reflexivity.
  - destruct (Hs v Hin) as [l El]. unfold ruledSurface_writeToFile, statement_text.
    erewrite bind_ok by reflexivity. cbv beta zeta. rewrite El.
    unfold bind, attr, ret, RuledSurface_statement. simpl.
    rewrite !append_assoc. reflexivity.
  - rewrite (surfaceLoop_write_run str_number v EmptyString st (Hsl v Hin)).
    reflexivity.
  - destruct (Hw v Hin) as [l El]. unfold volume_writeToFile, statement_text.
    erewrite bind_ok by reflexivity. cbv beta zeta. rewrite El.
    unfold bind, attr, ret, Volume_statement. simpl.
    rewrite !append_assoc. reflexivity.
Qed.

Lemma writeElements_run {N} (str_number : N -> string) writeComment
    (st : state_of N) el f :
  printable st ->
  writeElements str_number writeComment el f st
  = (Ok (f +:+ section_text str_number writeComment st el), st).
Proof.
  intros Hp. unfold writeElements, section_text. cbv zeta.
  erewrite bind_ok by reflexivity. cbv beta.
  rewrite (write_all str_number st el (statement_text str_number st el))
    by (intros v Hv; apply printable_text; assumption).
  rewrite append_assoc. reflexivity.
Qed.

(** C4: [domain.writeToFile] writes seven sections in the order vertices,
    lines, arcs, lineLoops, ruledSurfaces, surfaceLoops, volumes.  Each
    section is the comment with the name of the list, one statement per
    object of the list in list order, each followed by a line break, and
    an empty line.  The statements are [Point(Id)= {x,y,z,volSize};],
    [Line(Id)= {v1.Id,v2.Id};], [Circle(Id)= {vstart.Id,vcenter.Id,vend.Id};],
    [Line Loop(Id)= {s1,...,sn};] with the signed edge identifiers,
    [Ruled Surface(Id)= {lineLoop.Id};], [Surface Loop(Id)= {Id1,...,Idn};]
    with the identifiers of the surfaces, and [Volume(Id)= {surfaceLoop.Id};];
    a loop without entries is written as its opening [... Loop(Id)= {]
    alone.  This holds whatever kind of numbers the vertices hold,
    [x], [y], [z] and [volSize] standing for [str] of them ([None] for a
    missing [volSize]), in every domain where each listed vertex has three
    coordinates, each listed line loop and surface loop holds objects only
    (a line loop with one orientation each), each listed ruled surface has
    a line loop and each listed volume a surface loop.  Nothing is raised
    and nothing is changed. *)
Theorem writeToFile_statements {N : Type} (str_number : N -> string)
    (writeComment : string -> string) (st : state_of N) :
  printable st ->
  writeToFile str_number writeComment st
  = (Ok (geometry_text str_number writeComment st), st).
Proof.
  intros Hp. unfold writeToFile, geometry_text.
  repeat (erewrite bind_ok by (apply writeElements_run; exact Hp); cbv beta).
  rewrite writeElements_run by exact Hp.
  rewrite !append_assoc. reflexivity.
Qed.

Lemma writeToFile_statements_witness :
  printable cylinder_domain /\
  fst (writeToFile str (fun name => "//" +:+ name +:+ nl) cylinder_domain)
  = Ok (foldr (fun line text => line +:+ nl +:+ text) EmptyString
          [ "//vertices";
            "Point(1)= {0,0,0,None};"; "Point(2)= {1,0,0,None};";
            "Point(3)= {0,1,0,None};"; "Point(4)= {-1,0,0,None};";
            "Point(5)= {0,-1,0,None};"; "Point(6)= {0,0,2,None};";
            "Point(7)= {1,0,2,None};"; "Point(8)= {0,1,2,None};";
            "Point(9)= {-1,0,2,None};"; "Point(10)= {0,-1,2,None};";
            EmptyString;
            "//lines";
            "Line(9)= {2,7};"; "Line(10)= {3,8};"; "Line(11)= {4,9};";
            "Line(12)= {5,10};";
            EmptyString;
            "//arcs";
            "Circle(1)= {2,1,3};"; "Circle(2)= {3,1,4};"; "Circle(3)= {4,1,5};";
            "Circle(4)= {5,1,2};"; "Circle(5)= {7,6,8};"; "Circle(6)= {8,6,9};";
            "Circle(7)= {9,6,10};"; "Circle(8)= {10,6,7};";
            EmptyString;
            "//lineLoops";
            "Line Loop(1)= {1,2,3,4};"; "Line Loop(2)= {5,6,7,8};";
            "Line Loop(3)= {-9,1,10,-5};"; "Line Loop(4)= {-10,2,11,-6};";
            "Line Loop(5)= {-11,3,12,-7};"; "Line Loop(6)= {-12,4,9,-8};";
            EmptyString;
            "//ruledSurfaces";
            "Ruled Surface(1)= {1};"; "Ruled Surface(2)= {2};";
            "Ruled Surface(3)= {3};"; "Ruled Surface(4)= {4};";
            "Ruled Surface(5)= {5};"; "Ruled Surface(6)= {6};";
            EmptyString;
            "//surfaceLoops";
            "Surface Loop(1)= {1,2,3,4,5,6};";
            EmptyString;
            "//volumes";
            "Volume(1)= {1};";
            EmptyString ]).
Proof.
  assert (H : printable cylinder_domain).
  { unfold printable, resolved_loop.
    repeat split; vm_compute; repeat constructor; eauto. }
  split; [exact H|].
  rewrite (writeToFile_statements str _ _ H). vm_compute. reflexivity.
Defined.

(** ** Polygons *)

Lemma incrementID_snoc (IdOf IdOf' : ref -> Z) (l : list ref) (r : ref) :
  (forall x, x ∈ l -> IdOf' x = IdOf x) ->
  IdOf' r = incrementID IdOf l ->
  incrementID IdOf' (l ++ [r]) = incrementID IdOf l + 1.
Proof.
  intros Hold Hr. unfold incrementID, objAttrToList in *.
  rewrite fmap_app.
  rewrite (list_fmap_ext IdOf' IdOf l)
    by (intros i x Hx; apply Hold; eapply list_elem_of_lookup_2; exact Hx).
  change (IdOf' <$> [r]) with [IdOf' r].
  destruct (IdOf <$> l) as [|y ys].
  - simpl. rewrite Hr. reflexivity.
  - simpl app. unfold py_max in *. rewrite foldl_app. simpl. lia.
Qed.

Lemma addVertex_None_run x volSize st :
  addVertex x None volSize st
  = (Ok (h_next (st_heap st)),
     State (bump (put_vertex (h_next (st_heap st))
                    (Vertex x (incrementID (vertex_Id st) (vertices (st_dom st))) volSize)
                    (st_heap st)))
           (with_vertices (vertices (st_dom st) ++ [h_next (st_heap st)]) (st_dom st))
           (st_out st)).
Proof. destruct st as [h d o]. reflexivity. Qed.

Lemma add_vertices_run volSize xs : forall st,
  exists hv,
    map_M xs (fun x => addVertex x None volSize) st
    = (Ok (seq (h_next (st_heap st)) (length xs)),
       State (Heap hv (h_edge (st_heap st)) (h_lineLoop (st_heap st))
                (h_ruledSurface (st_heap st)) (h_surfaceLoop (st_heap st))
                (h_volume (st_heap st)) (h_next (st_heap st) + length xs)%nat)
             (with_vertices
                (vertices (st_dom st) ++ seq (h_next (st_heap st)) (length xs))
                (st_dom st))
             (st_out st)) /\
    (forall r, (r < h_next (st_heap st))%nat -> hv r = h_vertex (st_heap st) r) /\
    (forall i x, xs !! i = Some x ->
       v_x (hv (h_next (st_heap st) + i)%nat) = x /\
       v_volSize (hv (h_next (st_heap st) + i)%nat) = volSize /\
       (Forall (fun r => (r < h_next (st_heap st))%nat) (vertices (st_dom st)) ->
        v_Id (hv (h_next (st_heap st) + i)%nat)
        = incrementID (vertex_Id st) (vertices (st_dom st)) + Z.of_nat i)).
Proof.
  induction xs as [|x xs IH]; intros [h d o]; cbn [st_heap st_dom st_out].
  - exists (h_vertex h). split; [|split].
    + simpl. rewrite Nat.add_0_r, app_nil_r. destruct h, d; reflexivity.
    + reflexivity.
    + intros i x Hi. inversion Hi.
  - set (st := State h d o).
    set (v := Vertex x (incrementID (vertex_Id st) (vertices d)) volSize).
    destruct (IH (State (bump (put_vertex (h_next h) v h))
                        (with_vertices (vertices d ++ [h_next h]) d) o))
      as (hv & Hrun & Hold & Hnew).
    cbn [st_heap st_dom st_out bump put_vertex h_vertex h_edge h_lineLoop
         h_ruledSurface h_surfaceLoop h_volume h_next with_vertices vertices]
      in Hrun, Hold, Hnew.
    exists hv. split; [|split].
    + cbn [map_M]. erewrite bind_ok by apply addVertex_None_run.
      erewrite bind_ok by exact Hrun.
      cbn [length seq]. rewrite <- app_assoc, Nat.add_succ_r. reflexivity.
    + intros r Hr. rewrite Hold by lia. apply fn_lookup_insert_ne. lia.
    + intros [|i] y Hi.
      * injection Hi as <-. rewrite Nat.add_0_r, Hold by lia.
        rewrite fn_lookup_insert. split; [reflexivity|].
        split; [reflexivity|]. intros _. simpl. lia.
      * destruct (Hnew i y Hi) as (Hx & Hv & HId).
        replace (h_next h + S i)%nat with (S (h_next h) + i)%nat by lia.
        split; [exact Hx|]. split; [exact Hv|]. intros Hall.
        rewrite HId.
        -- rewrite (incrementID_snoc (vertex_Id st)); [lia| |].
           ++ intros r Hr. unfold vertex_Id. simpl.
              rewrite fn_lookup_insert_ne; [reflexivity|].
              rewrite list.Forall_forall in Hall. specialize (Hall r Hr). lia.
           ++ unfold vertex_Id. simpl. rewrite fn_lookup_insert. reflexivity.
        -- apply Forall_app. split.
           ++ eapply list.Forall_impl; [exact Hall|]. simpl. intros; lia.
           ++ constructor; [lia|constructor].
Qed.

Lemma flipCoordinate_z_run x plane k st :
  String.index 0 plane lowercase = Some k ->
  flipCoordinate x plane "z" st
  = (Ok (np_roll x (Z.abs_nat (Z.of_nat k - 25))), st).
Proof.
  intros Hk. unfold flipCoordinate, lowercase_index. rewrite Hk. reflexivity.
Qed.

Lemma polygon_coords_run coords z plane k st :
  String.index 0 plane lowercase = Some k ->
  Forall (fun c => (2 <= length c)%nat) coords ->
  exists xs,
    map_M coords (fun c =>
      do c0 <- index c 0;
      do c1 <- index c 1;
      if (length c =? 3)%nat then
        do c2 <- index c 2;
        flipCoordinate [c0; c1; c2] plane "z"
      else flipCoordinate [c0; c1; z] plane "z") st = (Ok xs, st) /\
    Forall2 (fun c x => exists p, polygon_point z c = Some p /\
                          x = np_roll p (Z.abs_nat (Z.of_nat k - 25))) coords xs.
Proof.
  intros Hk Hall. induction Hall as [|c coords Hc _ (xs & Hrun & Hxs)].
  - exists []. split; [reflexivity|constructor].
  - assert (Hbody : exists p, polygon_point z c = Some p /\
        (do c0 <- index c 0;
         do c1 <- index c 1;
         if (length c =? 3)%nat then
           do c2 <- index c 2;
           flipCoordinate [c0; c1; c2] plane "z"
         else flipCoordinate [c0; c1; z] plane "z") st
        = (Ok (np_roll p (Z.abs_nat (Z.of_nat k - 25))), st)).
    { destruct c as [|c0 [|c1 [|c2 [|c3 r]]]]; simpl in Hc; try lia.
      - exists [c0; c1; z]. split; [reflexivity|].
        apply (flipCoordinate_z_run _ _ _ _ Hk).
      - exists [c0; c1; c2]. split; [reflexivity|].
        apply (flipCoordinate_z_run _ _ _ _ Hk).
      - exists [c0; c1; z]. split; [reflexivity|].
        apply (flipCoordinate_z_run _ _ _ _ Hk). }
    destruct Hbody as (p & Hp & Hb).
    eexists (_ :: xs). split.
    + cbn [map_M]. erewrite bind_ok by exact Hb.
      erewrite bind_ok by exact Hrun. reflexivity.
    + constructor; [|exact Hxs]. exists p. split; [exact Hp|reflexivity].
Qed.

Lemma polygon_run coords volSize z plane k st :
  String.index 0 plane lowercase = Some k ->
  Forall (fun c => (2 <= length c)%nat) coords ->
  coords <> [] ->
  exists hv,
    addPolygonByParameters coords volSize z plane st
    = (Raise AttributeError,
       State (Heap hv (h_edge (st_heap st)) (h_lineLoop (st_heap st))
                (h_ruledSurface (st_heap st)) (h_surfaceLoop (st_heap st))
                (h_volume (st_heap st))
                (h_next (st_heap st) + length coords)%nat)
             (with_vertices
                (vertices (st_dom st) ++ seq (h_next (st_heap st)) (length coords))
                (st_dom st))
             (st_out st)) /\
    (forall r, (r < h_next (st_heap st))%nat -> hv r = h_vertex (st_heap st) r) /\
    (forall i c, coords !! i = Some c ->
       exists p, polygon_point z c = Some p /\
         v_x (hv (h_next (st_heap st) + i)%nat)
         = np_roll p (Z.abs_nat (Z.of_nat k - 25)) /\
         v_volSize (hv (h_next (st_heap st) + i)%nat) = volSize /\
         (Forall (fun r => (r < h_next (st_heap st))%nat) (vertices (st_dom st)) ->
          v_Id (hv (h_next (st_heap st) + i)%nat)
          = incrementID (vertex_Id st) (vertices (st_dom st)) + Z.of_nat i)).
Proof.
  intros Hk Hall Hne.
  destruct (polygon_coords_run coords z plane k st Hk Hall) as (xs & Hxs & Hrel).
  pose proof Hrel as Hlen. apply list.Forall2_length in Hlen.
  destruct (add_vertices_run volSize xs st) as (hv & Hvs & Hvold & Hvnew).
  rewrite <- Hlen in Hvs.
  exists hv. split; [|split].
  - unfold addPolygonByParameters.
    erewrite bind_ok by exact Hxs. erewrite bind_ok by exact Hvs. cbv beta.
    rewrite length_seq.
    destruct coords as [|c coords]; [congruence|].
    cbn [length seq map_M]. apply bind_raise. apply bind_raise.
    erewrite bind_ok by (apply index_ok; reflexivity). reflexivity.
  - exact Hvold.
  - intros i c Hc.
    destruct (Forall2_lookup_l _ _ _ _ _ Hrel Hc) as (x & Hx & p & Hp & ->).
    destruct (Hvnew i _ Hx) as (H1 & H2 & H3).
    exists p. split; [exact Hp|]. split; [exact H1|]. split; [exact H2|exact H3].
Qed.

(** X21: in a reachable domain, for a plane letter found among the
    lowercase letters and a non-empty list of entries of at least two
    numbers, [addPolygonByParameters] creates the vertices and then raises
    AttributeError before it creates the first line: the loop over the
    lines asks [pyfrp_misc_module] for [modIdx].  One new vertex for every
    entry of [coords] has been appended to [vertices]; vertex [i] has the
    coordinate built from entry [i], flipped into the plane, the mesh size
    given, and the identifier [i] above the next free one.  No edge has
    been created, nothing is printed, and the objects that existed are as
    before. *)
Theorem addPolygonByParameters_spec triangulatePoly coords volSize z plane k st :
  reachable triangulatePoly st ->
  String.index 0 plane lowercase = Some k ->
  Forall (fun c => (2 <= length c)%nat) coords ->
  coords <> [] ->
  exists st',
    addPolygonByParameters coords volSize z plane st = (Raise AttributeError, st') /\
    st_dom st'
    = with_vertices
        (vertices (st_dom st) ++ seq (h_next (st_heap st)) (length coords))
        (st_dom st) /\
    st_out st' = st_out st /\
    h_edge (st_heap st') = h_edge (st_heap st) /\
    h_next (st_heap st') = (h_next (st_heap st) + length coords)%nat /\
    (forall r, (r < h_next (st_heap st))%nat ->
       h_vertex (st_heap st') r = h_vertex (st_heap st) r) /\
    (forall i c, coords !! i = Some c ->
       exists p, polygon_point z c = Some p /\
         h_vertex (st_heap st') (h_next (st_heap st) + i)%nat
         = Vertex (np_roll p (Z.abs_nat (Z.of_nat k - 25)))
                  (incrementID (vertex_Id st) (vertices (st_dom st)) + Z.of_nat i)
                  volSize).
Proof.
  intros Hreach Hk Hall Hne.
  destruct (polygon_run coords volSize z plane k st Hk Hall Hne)
    as (hv & Hrun & Hold & Hv).
  assert (Hvs : Forall (fun r => (r < h_next (st_heap st))%nat) (vertices (st_dom st))).
  { apply list.Forall_forall. intros r Hr.
    apply (reachable_allocated triangulatePoly st r Hreach).
    unfold all_refs. apply elem_of_app. left. exact Hr. }
  eexists. split; [exact Hrun|]. cbn [st_heap st_dom st_out h_vertex h_edge h_next].
  split; [reflexivity|]. split; [reflexivity|]. split; [reflexivity|].
  split; [reflexivity|]. split; [exact Hold|].
  intros i c Hc. destruct (Hv i c Hc) as (p & Hp & H1 & H2 & H3).
  exists p. split; [exact Hp|]. specialize (H3 Hvs).
  destruct (hv (h_next (st_heap st) + i)%nat) as [x Id vol].
  simpl in H1, H2, H3. subst. reflexivity.
Qed.

Lemma addPolygonByParameters_spec_witness :
  reachable fan init_state /\
  Forall (fun c => (2 <= length c)%nat) [[0; 0]; [4; 0; 7]; [0; 3; 9; 9]] /\
  exists st',
    addPolygonByParameters [[0; 0]; [4; 0; 7]; [0; 3; 9; 9]] (Some 30) 5 "y" init_state
    = (Raise AttributeError, st') /\
    vertices (st_dom st') = [0; 1; 2]%nat /\
    edges (st_dom st') = [] /\
    h_vertex (st_heap st') 1%nat = Vertex [7; 4; 0] 2 (Some 30) /\
    h_vertex (st_heap st') 2%nat = Vertex [5; 0; 3] 3 (Some 30).
Proof.
  assert (Hall : Forall (fun c => (2 <= length c)%nat) [[0; 0]; [4; 0; 7]; [0; 3; 9; 9]])
    by (repeat constructor; simpl; lia).
  split; [apply reachable_init|]. split; [exact Hall|].
  destruct (addPolygonByParameters_spec fan [[0; 0]; [4; 0; 7]; [0; 3; 9; 9]]
              (Some 30) 5 "y" 24%nat init_state (reachable_init fan)
              ltac:(reflexivity) Hall ltac:(discriminate))
    as (st' & Hrun & Hdom & _ & _ & _ & _ & Hv).
  exists st'. split; [exact Hrun|].
  split; [rewrite Hdom; reflexivity|]. split; [rewrite Hdom; reflexivity|].
  destruct (Hv 1%nat _ ltac:(reflexivity)) as (p1 & Hp1 & Hv1).
  destruct (Hv 2%nat _ ltac:(reflexivity)) as (p2 & Hp2 & Hv2).
  injection Hp1 as <-. injection Hp2 as <-.
  split; [exact Hv1|exact Hv2].
Defined.

Lemma polygon_body_cases (c : list Z) z plane st :
  (exists x,
     (do c0 <- index c 0;
      do c1 <- index c 1;
      if (length c =? 3)%nat then
        do c2 <- index c 2;
        flipCoordinate [c0; c1; c2] plane "z"
      else flipCoordinate [c0; c1; z] plane "z") st = (Ok x, st) /\
     (2 <= length c)%nat /\ is_Some (String.index 0 plane lowercase)) \/
  (exists e,
     (do c0 <- index c 0;
      do c1 <- index c 1;
      if (length c =? 3)%nat then
        do c2 <- index c 2;
        flipCoordinate [c0; c1; c2] plane "z"
      else flipCoordinate [c0; c1; z] plane "z") st = (Raise e, st) /\
     e <> AttributeError /\
     ((length c < 2)%nat \/ String.index 0 plane lowercase = None)).
Proof.
  destruct c as [|c0 [|c1 c]].
  - right. exists IndexError. split; [reflexivity|]. split; [discriminate|].
    left. simpl. lia.
  - right. exists IndexError. split; [reflexivity|]. split; [discriminate|].
    left. simpl. lia.
  - destruct (String.index 0 plane lowercase) as [k|] eqn:Hk.
    + left. destruct (polygon_coords_run [c0 :: c1 :: c] z plane k st Hk)
        as (xs & Hrun & Hrel); [constructor; [simpl; lia|constructor]|].
      cbn [map_M] in Hrun. unfold bind at 1 in Hrun.
      destruct ((do c2 <- index (c0 :: c1 :: c) 0; _) st) as [[x|e] st1] eqn:Hb;
        [|discriminate Hrun].
      unfold bind, ret in Hrun. injection Hrun as _ ->.
      exists x. split; [reflexivity|]. split; [simpl; lia|eauto].
    + right. exists ValueError.
      split; [|split; [discriminate|right; reflexivity]].
      erewrite bind_ok by reflexivity. erewrite bind_ok by reflexivity. cbv beta.
      destruct c as [|c2 [|c3 c]]; cbn [length Nat.eqb];
        try (erewrite bind_ok by reflexivity; cbv beta);
        unfold flipCoordinate, lowercase_index; rewrite Hk; reflexivity.
Qed.

Lemma polygon_coords_cases (coords : list (list Z)) z plane st :
  (exists xs,
     map_M coords (fun c =>
       do c0 <- index c 0;
       do c1 <- index c 1;
       if (length c =? 3)%nat then
         do c2 <- index c 2;
         flipCoordinate [c0; c1; c2] plane "z"
       else flipCoordinate [c0; c1; z] plane "z") st = (Ok xs, st) /\
     Forall (fun c => (2 <= length c)%nat) coords /\
     (coords = [] \/ is_Some (String.index 0 plane lowercase))) \/
  (exists e,
     map_M coords (fun c =>
       do c0 <- index c 0;
       do c1 <- index c 1;
       if (length c =? 3)%nat then
         do c2 <- index c 2;
         flipCoordinate [c0; c1; c2] plane "z"
       else flipCoordinate [c0; c1; z] plane "z") st = (Raise e, st) /\
     e <> AttributeError /\
     (Exists (fun c => (length c < 2)%nat) coords \/
      String.index 0 plane lowercase = None)).
Proof.
  induction coords as [|c coords IH].
  - left. exists []. split; [reflexivity|]. split; [constructor|left; reflexivity].
  - cbn [map_M].
    destruct (polygon_body_cases c z plane st)
      as [(x & Hb & Hc & Hk)|(e & Hb & He & Hc)].
    + erewrite bind_ok by exact Hb. cbv beta.
      destruct IH as [(xs & Hrun & Hall & _)|(e & Hrun & He & Hex)].
      * left. exists (x :: xs). erewrite bind_ok by exact Hrun.
        split; [reflexivity|]. split; [constructor; assumption|right; exact Hk].
      * right. exists e. erewrite bind_raise by exact Hrun.
        split; [reflexivity|]. split; [exact He|].
        destruct Hex as [Hex|Hex]; [left; right; exact Hex|right; exact Hex].
    + right. exists e. erewrite bind_raise by exact Hb.
      split; [reflexivity|]. split; [exact He|].
      destruct Hc as [Hc|Hc]; [left; left; exact Hc|right; exact Hc].
Qed.

(** X22: the outcomes of [addPolygonByParameters].  It returns only for an
    empty list of coordinates, with two empty lists and nothing changed.
    It raises AttributeError only for a non-empty list whose entries have
    at least two numbers each and a plane found among the lowercase
    letters, after creating the vertices.  Every other exception leaves
    the store, the domain and the terminal as they were, and comes from a
    plane that is not found among the lowercase letters or from an entry
    with fewer than two numbers. *)
Theorem addPolygonByParameters_outcome coords volSize z plane st :
  match addPolygonByParameters coords volSize z plane st with
  | (Ok r, st') => coords = [] /\ r = ([], []) /\ st' = st
  | (Raise AttributeError, st') =>
      coords <> [] /\ is_Some (String.index 0 plane lowercase) /\
      Forall (fun c => (2 <= length c)%nat) coords
  | (Raise _, st') =>
      st' = st /\
      (String.index 0 plane lowercase = None \/
       Exists (fun c => (length c < 2)%nat) coords)
  end.
Proof.
  destruct coords as [|c0 coords]; [simpl; auto|].
  destruct (polygon_coords_cases (c0 :: coords) z plane st)
    as [(xs & Hrun & Hall & [Hnil|[k Hk]])|(e & Hrun & He & Hex)].
  - discriminate Hnil.
  - destruct (polygon_run (c0 :: coords) volSize z plane k st Hk Hall
                ltac:(discriminate)) as (hv & Hpoly & _).
    rewrite Hpoly. split; [discriminate|]. split; [eauto|exact Hall].
  - unfold addPolygonByParameters. erewrite bind_raise by exact Hrun.
    destruct e; try congruence; split; try reflexivity; tauto.
Qed.

(** ** Circles *)

Lemma addVertex_None_step x volSize st :
  exists st1 Id,
    addVertex x None volSize st = (Ok (h_next (st_heap st)), st1) /\
    h_next (st_heap st1) = S (h_next (st_heap st)) /\
    h_vertex (st_heap st1)
    = <[h_next (st_heap st) := Vertex x Id volSize]> (h_vertex (st_heap st)) /\
    h_edge (st_heap st1) = h_edge (st_heap st) /\
    st_dom st1
    = with_vertices (vertices (st_dom st) ++ [h_next (st_heap st)]) (st_dom st) /\
    st_out st1 = st_out st.
Proof.
  eexists _, _. split; [apply addVertex_None_run|]. repeat split; reflexivity.
Qed.

Lemma addArc_None_step vstart vcenter vend st :
  exists st1 Id,
    addArc vstart vcenter vend None st = (Ok (h_next (st_heap st)), st1) /\
    h_next (st_heap st1) = S (h_next (st_heap st)) /\
    h_vertex (st_heap st1) = h_vertex (st_heap st) /\
    h_edge (st_heap st1)
    = <[h_next (st_heap st) := Edge Id (Arc vstart vcenter vend)]>
        (h_edge (st_heap st)) /\
    st_dom st1
    = with_edges (edges (st_dom st) ++ [h_next (st_heap st)])
        (with_arcs (arcs (st_dom st) ++ [h_next (st_heap st)]) (st_dom st)) /\
    st_out st1 = st_out st.
Proof.
  destruct st as [h d o]. eexists _, _. split; [reflexivity|].
  repeat split; reflexivity.
Qed.

Ltac circle_dom D :=
  unfold with_edges, with_arcs, with_vertices in D;
  cbn [vertices edges arcs lines lineLoops ruledSurfaces surfaceLoops volumes]
    in D.

(** X23: [addCircleByParameters] raises IndexError when the centre has
    fewer than two numbers and ValueError when the plane is not found among
    the lowercase letters, and has then changed nothing.  Otherwise it
    returns five new vertices, the centre first, and four new arcs, appended
    in this order to [vertices], and to [arcs] and [edges]; the vertices are
    the centre and the points at the distance [radius] to the right, above,
    to the left and below, flipped into the plane, with the mesh size given;
    arc [i] runs from point [i] around the centre to point [i+1], the last
    arc back to the first point.  Nothing is printed and the objects that
    existed are as before. *)
Theorem addCircleByParameters_spec center radius z volSize plane st :
  match center !! 0%nat, center !! 1%nat, String.index 0 plane lowercase with
  | Some c0, Some c1, Some k =>
      exists st',
        addCircleByParameters center radius z volSize plane st
        = (Ok (seq (h_next (st_heap st)) 5, seq (5 + h_next (st_heap st)) 4), st') /\
        st_dom st'
        = with_edges (edges (st_dom st) ++ seq (5 + h_next (st_heap st)) 4)
            (with_arcs (arcs (st_dom st) ++ seq (5 + h_next (st_heap st)) 4)
               (with_vertices (vertices (st_dom st) ++ seq (h_next (st_heap st)) 5)
                  (st_dom st))) /\
        st_out st' = st_out st /\
        (forall r, (r < h_next (st_heap st))%nat ->
           h_vertex (st_heap st') r = h_vertex (st_heap st) r /\
           h_edge (st_heap st') r = h_edge (st_heap st) r) /\
        (forall i p,
           [[c0; c1; z]; [c0 + radius; c1; z]; [c0; c1 + radius; z];
            [c0 - radius; c1; z]; [c0; c1 - radius; z]] !! i = Some p ->
           v_x (h_vertex (st_heap st') (i + h_next (st_heap st))%nat)
           = np_roll p (Z.abs_nat (Z.of_nat k - 25)) /\
           v_volSize (h_vertex (st_heap st') (i + h_next (st_heap st))%nat) = volSize) /\
        (forall i, (i < 4)%nat ->
           e_kind (h_edge (st_heap st') (5 + i + h_next (st_heap st))%nat)
           = Arc (1 + i + h_next (st_heap st))%nat (h_next (st_heap st))
                 (1 + (i + 1) mod 4 + h_next (st_heap st))%nat)
  | Some _, Some _, None =>
      addCircleByParameters center radius z volSize plane st = (Raise ValueError, st)
  | _, _, _ =>
      addCircleByParameters center radius z volSize plane st = (Raise IndexError, st)
  end.
Proof.
  unfold addCircleByParameters.
  destruct (center !! 0%nat) as [c0|] eqn:H0;
    [|erewrite bind_raise by (apply index_raise; exact H0); reflexivity].
  erewrite bind_ok by (apply index_ok; exact H0).
  destruct (center !! 1%nat) as [c1|] eqn:H1;
    [|erewrite bind_raise by (apply index_raise; exact H1); reflexivity].
  erewrite bind_ok by (apply index_ok; exact H1).
  destruct (String.index 0 plane lowercase) as [k|] eqn:Hk.
  2:{ unfold flipCoordinate at 1, lowercase_index at 1. rewrite Hk. reflexivity. }
  destruct st as [h [es vs ars ls lls rss sls vols] o].
  cbn [st_heap st_dom st_out edges vertices arcs].
  set (n := h_next h).
  set (f := fun p : list Z => np_roll p (Z.abs_nat (Z.of_nat k - 25))).
  destruct (addVertex_None_step (f [c0; c1; z]) volSize
              (State h (Domain es vs ars ls lls rss sls vols) o))
    as (s1 & i1 & R1 & N1 & V1 & E1 & D1 & O1). cbn [st_heap st_dom st_out] in R1, N1, V1, E1, D1, O1. fold n in R1, N1, V1, D1.
  circle_dom D1.
  destruct (addVertex_None_step (f [c0 + radius; c1; z]) volSize s1)
    as (s2 & i2 & R2 & N2 & V2 & E2 & D2 & O2). rewrite N1 in R2, N2, V2, D2.
  rewrite D1 in D2. circle_dom D2.
  destruct (addVertex_None_step (f [c0; c1 + radius; z]) volSize s2)
    as (s3 & i3 & R3 & N3 & V3 & E3 & D3 & O3). rewrite N2 in R3, N3, V3, D3.
  rewrite D2 in D3. circle_dom D3.
  destruct (addVertex_None_step (f [c0 - radius; c1; z]) volSize s3)
    as (s4 & i4 & R4 & N4 & V4 & E4 & D4 & O4). rewrite N3 in R4, N4, V4, D4.
  rewrite D3 in D4. circle_dom D4.
  destruct (addVertex_None_step (f [c0; c1 - radius; z]) volSize s4)
    as (s5 & i5 & R5 & N5 & V5 & E5 & D5 & O5). rewrite N4 in R5, N5, V5, D5.
  rewrite D4 in D5. circle_dom D5.
  destruct (addArc_None_step (S n) n (S (S n)) s5)
    as (s6 & i6 & R6 & N6 & V6 & E6 & D6 & O6). rewrite N5 in R6, N6, E6, D6.
  rewrite D5 in D6. circle_dom D6.
  destruct (addArc_None_step (S (S n)) n (S (S (S n))) s6)
    as (s7 & i7 & R7 & N7 & V7 & E7 & D7 & O7). rewrite N6 in R7, N7, E7, D7.
  rewrite D6 in D7. circle_dom D7.
  destruct (addArc_None_step (S (S (S n))) n (S (S (S (S n)))) s7)
    as (s8 & i8 & R8 & N8 & V8 & E8 & D8 & O8). rewrite N7 in R8, N8, E8, D8.
  rewrite D7 in D8. circle_dom D8.
  destruct (addArc_None_step (S (S (S (S n)))) n (S n) s8)
    as (s9 & i9 & R9 & N9 & V9 & E9 & D9 & O9). rewrite N8 in R9, N9, E9, D9.
  rewrite D8 in D9. circle_dom D9.
  exists s9. split; [|split; [|split; [|split; [|split]]]].
  - do 5 (erewrite bind_ok by (apply (flipCoordinate_z_run _ _ _ _ Hk)); cbv beta).
    fold (f [c0; c1; z]) (f [c0 + radius; c1; z]) (f [c0; c1 + radius; z])
         (f [c0 - radius; c1; z]) (f [c0; c1 - radius; z]).
    erewrite bind_ok by exact R1. erewrite bind_ok by exact R2.
    erewrite bind_ok by exact R3. erewrite bind_ok by exact R4.
    erewrite bind_ok by exact R5. erewrite bind_ok by exact R6.
    erewrite bind_ok by exact R7. erewrite bind_ok by exact R8.
    erewrite bind_ok by exact R9. reflexivity.
  - rewrite D9. unfold with_edges, with_arcs, with_vertices.
    cbn [seq Nat.add vertices edges arcs lines lineLoops ruledSurfaces
         surfaceLoops volumes].
    fold n. rewrite <- !app_assoc. reflexivity.
  - rewrite O9, O8, O7, O6, O5, O4, O3, O2, O1. reflexivity.
  - intros r Hr. split.
    + rewrite V9, V8, V7, V6, V5, V4, V3, V2, V1.
      rewrite !fn_lookup_insert_ne by lia. reflexivity.
    + rewrite E9, E8, E7, E6, E5, E4, E3, E2, E1.
      rewrite !fn_lookup_insert_ne by lia. reflexivity.
  - intros i p Hp. rewrite V9, V8, V7, V6, V5, V4, V3, V2, V1.
    do 5 (destruct i as [|i];
          [injection Hp as <-; cbn [Nat.add];
           rewrite ?fn_lookup_insert_ne by lia; rewrite fn_lookup_insert;
           split; reflexivity|]).
    inversion Hp.
  - intros i Hi. rewrite E9, E8, E7, E6.
    do 4 (destruct i as [|i];
          [cbn [Nat.add]; rewrite ?fn_lookup_insert_ne by lia;
           rewrite fn_lookup_insert; reflexivity|]).
    lia.
Qed.

(** ** Prisms *)

Lemma polygon_point_flat z c p :
  polygon_point z c = Some p -> np_roll p (Z.abs_nat (Z.of_nat 25 - 25)) = p.
Proof.
  destruct c as [|a [|b [|c' [|? ?]]]]; intros H; try discriminate H;
    injection H as <-; reflexivity.
Qed.

Lemma polygon_nonempty_raises coords volSize z plane st :
  coords <> [] ->
  exists e st', addPolygonByParameters coords volSize z plane st = (Raise e, st').
Proof.
  intros Hne.
  destruct (polygon_coords_cases coords z plane st)
    as [(xs & Hrun & Hall & [Hnil|[k Hk]])|(e & Hrun & _)].
  - congruence.
  - destruct (polygon_run coords volSize z plane k st Hk Hall Hne) as (hv & Hpoly & _).
    eauto.
  - exists e, st. unfold addPolygonByParameters. apply bind_raise. exact Hrun.
Qed.

(** X24: [addPrismByParameters] never builds a prism.  Whatever its
    arguments and the domain are, it does not return a solid: it returns
    [None] (the odd number of three-dimensional coordinates) or ends in an
    exception. *)
Theorem addPrismByParameters_never_builds triangulatePoly coords volSize height z
    plane genLoops genSurfaces genVol st s :
  fst (addPrismByParameters triangulatePoly coords volSize height z plane
                            genLoops genSurfaces genVol st) <> Ok (Some s).
Proof.
  unfold addPrismByParameters.
  destruct (coords !! 0%nat) as [c0|] eqn:H0.
  2:{ erewrite bind_raise by (apply index_raise; exact H0). discriminate. }
  erewrite bind_ok by (apply index_ok; exact H0). cbv beta.
  assert (Hne : coords <> []) by (intros ->; discriminate H0).
  destruct (length c0 =? 3)%nat.
  - destruct (negb (length coords mod 2 =? 0)%nat).
    + unfold bind, printError, print_msg, modify, ret. simpl. discriminate.
    + destruct (polygon_nonempty_raises coords volSize 0 "z" st Hne)
        as (e & st' & Hrun).
      erewrite bind_raise by (apply bind_raise; exact Hrun). discriminate.
  - destruct (polygon_nonempty_raises coords volSize z "z" st Hne)
      as (e & st' & Hrun).
    erewrite bind_raise by (apply bind_raise; exact Hrun). discriminate.
Qed.

(** X25: given coordinates of at least two numbers each, not an odd
    number of them when the first is three-dimensional,
    [addPrismByParameters] ends in AttributeError after creating the
    vertices of one polygon, and no edge: one vertex for every entry, in
    the plane z and with the coordinates of the entry, where an entry that
    does not have exactly three numbers gets the height 0 if the first
    entry is three-dimensional and [z] otherwise.  [height], [plane] and
    the three flags play no role, nothing is printed, and the objects that
    existed are as before. *)
Theorem addPrismByParameters_raises triangulatePoly coords volSize height z plane
    genLoops genSurfaces genVol st c0 :
  coords !! 0%nat = Some c0 ->
  (length c0 = 3%nat -> (length coords mod 2 = 0)%nat) ->
  Forall (fun c => (2 <= length c)%nat) coords ->
  exists st',
    addPrismByParameters triangulatePoly coords volSize height z plane
                         genLoops genSurfaces genVol st
    = (Raise AttributeError, st') /\
    st_dom st'
    = with_vertices
        (vertices (st_dom st) ++ seq (h_next (st_heap st)) (length coords))
        (st_dom st) /\
    st_out st' = st_out st /\
    h_edge (st_heap st') = h_edge (st_heap st) /\
    (forall r, (r < h_next (st_heap st))%nat ->
       h_vertex (st_heap st') r = h_vertex (st_heap st) r) /\
    (forall i c, coords !! i = Some c ->
       exists p,
         polygon_point (if (length c0 =? 3)%nat then 0 else z) c = Some p /\
         v_x (h_vertex (st_heap st') (h_next (st_heap st) + i)%nat) = p /\
         v_volSize (h_vertex (st_heap st') (h_next (st_heap st) + i)%nat) = volSize).
Proof.
  intros H0 Heven Hall.
  assert (Hne : coords <> []) by (intros ->; discriminate H0).
  destruct (polygon_run coords volSize (if (length c0 =? 3)%nat then 0 else z)
              "z" 25 st eq_refl Hall Hne) as (hv & Hrun & Hold & Hv).
  eexists. split; [|split; [|split; [|split; [|split]]]].
  - unfold addPrismByParameters.
    erewrite bind_ok by (apply index_ok; exact H0). cbv beta.
    destruct (length c0 =? 3)%nat eqn:E3.
    + apply Nat.eqb_eq in E3. rewrite (Heven E3).
      change (negb (0 =? 0)%nat) with false. cbv iota.
      apply bind_raise. apply bind_raise. exact Hrun.
    + apply bind_raise. apply bind_raise. exact Hrun.
  - reflexivity.
  - reflexivity.
  - reflexivity.
  - exact Hold.
  - cbn [st_heap h_vertex]. intros i c Hc.
    destruct (Hv i c Hc) as (p & Hp & Hx & Hvol & _).
    exists p. split; [exact Hp|]. split; [|exact Hvol].
    rewrite Hx. apply (polygon_point_flat _ _ _ Hp).
Qed.

Lemma addPrismByParameters_raises_witness :
  Forall (fun c => (2 <= length c)%nat) [[0; 0]; [1; 0]; [0; 1; 4]] /\
  exists st',
    addPrismByParameters fan [[0; 0]; [1; 0]; [0; 1; 4]]
           None 9 7 "x" true true true init_state
    = (Raise AttributeError, st') /\
    vertices (st_dom st') = [0; 1; 2]%nat /\
    edges (st_dom st') = [] /\
    v_x (h_vertex (st_heap st') 1%nat) = [1; 0; 7] /\
    v_x (h_vertex (st_heap st') 2%nat) = [0; 1; 4].
Proof.
  assert (Hall : Forall (fun c => (2 <= length c)%nat) [[0; 0]; [1; 0]; [0; 1; 4]])
    by (repeat constructor; simpl; lia).
  split; [exact Hall|].
  destruct (addPrismByParameters_raises fan [[0; 0]; [1; 0]; [0; 1; 4]]
              None 9 7 "x" true true true init_state [0; 0]
              eq_refl ltac:(simpl; discriminate) Hall)
    as (st' & Hrun & Hdom & _ & _ & _ & Hv).
  exists st'. split; [exact Hrun|].
  split; [rewrite Hdom; reflexivity|]. split; [rewrite Hdom; reflexivity|].
  destruct (Hv 1%nat _ eq_refl) as (p1 & Hp1 & Hx1 & _).
  destruct (Hv 2%nat _ eq_refl) as (p2 & Hp2 & Hx2 & _).
  injection Hp1 as <-. injection Hp2 as <-.
  split; [exact Hx1|exact Hx2].
Defined.
